(** * Quant Cloud environment-variable action: a shallow embedding of
    [src/index.ts] and the properties of its variable merger and
    reconciliation engine.

    Strings are ECMAScript strings: finite sequences of UTF-16 code units.
    Objects are ordinary objects whose own properties are kept in the order
    in which [Object.keys] and the spread operator enumerate them.  The
    platform (action inputs, file system, remote API, log and output
    channels) is explicit: a run is a function from the platform to the
    chronological list of the effects it performs. *)

From Stdlib Require Import List NArith Bool Arith Lia String Ascii.
Import ListNotations.
Local Open Scope N_scope.
Local Open Scope list_scope.

(** ** ECMAScript strings *)

Definition code_unit := N.
Definition jsstring := list code_unit.

(** [str] turns a literal of the development into a string of code units
    (one per character; literals are ASCII). *)
Definition str (s : string) : jsstring :=
  map N_of_ascii (list_ascii_of_string s).

Fixpoint jseqb (a b : jsstring) : bool :=
  match a, b with
  | [], [] => true
  | x :: a', y :: b' => (x =? y) && jseqb a' b'
  | _, _ => false
  end.

(** Truthiness of a string: the empty string is the only falsy one. *)
Definition truthy (s : jsstring) : bool :=
  match s with [] => false | _ :: _ => true end.

(** [a || b] on strings. *)
Definition or_else (a b : jsstring) : jsstring :=
  if truthy a then a else b.

Definition LF : code_unit := 10.
Definition CR : code_unit := 13.
Definition COMMA : code_unit := 44.
Definition EQUALS : code_unit := 61.
Definition HASH : code_unit := 35.
Definition DQUOTE : code_unit := 34.
Definition SQUOTE : code_unit := 39.

(** LineTerminator: LF, CR, LS, PS. *)
Definition isLineTerminator (c : code_unit) : bool :=
  (c =? 10) || (c =? 13) || (c =? 8232) || (c =? 8233).

(** The code units [String.prototype.trim] strips: WhiteSpace and
    LineTerminator. *)
Definition isWhiteSpace (c : code_unit) : bool :=
  (c =? 9) || (c =? 11) || (c =? 12) || (c =? 32) || (c =? 160)
  || (c =? 5760) || ((8192 <=? c) && (c <=? 8202)) || (c =? 8239)
  || (c =? 8287) || (c =? 12288) || (c =? 65279) || isLineTerminator c.

Fixpoint trimStart (s : jsstring) : jsstring :=
  match s with
  | c :: r => if isWhiteSpace c then trimStart r else s
  | [] => []
  end.

Definition trimEnd (s : jsstring) : jsstring := rev (trimStart (rev s)).

Definition trim (s : jsstring) : jsstring := trimEnd (trimStart s).

(** [s.split(sep)] for a separator that is a single code unit or a
    one-character class: the pieces between the separators, in order; the
    result is never empty. *)
Fixpoint split (sep : code_unit -> bool) (s : jsstring) : list jsstring :=
  match s with
  | [] => [[]]
  | c :: r =>
      if sep c then [] :: split sep r
      else match split sep r with
           | h :: t => (c :: h) :: t
           | [] => [[c]]
           end
  end.

(** [parts.join(sep)]. *)
Fixpoint join (sep : jsstring) (parts : list jsstring) : jsstring :=
  match parts with
  | [] => []
  | [p] => p
  | p :: rest => p ++ sep ++ join sep rest
  end.

Definition startsWith (s : jsstring) (c : code_unit) : bool :=
  match s with x :: _ => x =? c | [] => false end.

Definition endsWith (s : jsstring) (c : code_unit) : bool :=
  startsWith (rev s) c.

(** [s.slice(1, -1)]: drops the first and the last code unit; a string of
    fewer than two code units gives the empty string. *)
Definition slice_1_m1 (s : jsstring) : jsstring :=
  removelast (tl s).

(** Decimal text of a number, as template literals and property names of
    array elements print it. *)
Fixpoint uint_digits (d : Decimal.uint) : jsstring :=
  match d with
  | Decimal.Nil => []
  | Decimal.D0 r => 48 :: uint_digits r
  | Decimal.D1 r => 49 :: uint_digits r
  | Decimal.D2 r => 50 :: uint_digits r
  | Decimal.D3 r => 51 :: uint_digits r
  | Decimal.D4 r => 52 :: uint_digits r
  | Decimal.D5 r => 53 :: uint_digits r
  | Decimal.D6 r => 54 :: uint_digits r
  | Decimal.D7 r => 55 :: uint_digits r
  | Decimal.D8 r => 56 :: uint_digits r
  | Decimal.D9 r => 57 :: uint_digits r
  end.

Definition decimal (n : nat) : jsstring := uint_digits (Nat.to_uint n).

(** ** Values and ordinary objects *)

(** The values the program handles: [undefined] and the values
    [JSON.parse] produces.  A number keeps the text of its literal; the
    double it denotes is never inspected by the program. *)
#[local] Set Warnings "-register-all".
Inductive jsval : Type :=
| VUndefined
| VNull
| VBool (b : bool)
| VNum (literal : jsstring)
| VStr (s : jsstring)
| VArr (elements : list jsval)
| VObj (properties : list (jsstring * jsval)).

(** An ordinary object: its own enumerable properties in enumeration
    order (array-index names in ascending numeric order, then the other
    names in creation order); no name occurs twice. *)
Definition Obj := list (jsstring * jsval).

Definition isDigit (c : code_unit) : bool := (48 <=? c) && (c <=? 57).

Definition digits_value (s : jsstring) : N :=
  fold_left (fun acc c => 10 * acc + (c - 48)) s 0.

(** An array index is a canonical numeric string below 2^32 - 1. *)
Definition array_index (k : jsstring) : option N :=
  match k with
  | [] => None
  | c :: r =>
      if forallb isDigit k && ((negb (c =? 48)) || (List.length r =? 0)%nat)
         && (List.length k <=? 10)%nat && (digits_value k <=? 4294967294)
      then Some (digits_value k) else None
  end.

Definition has (k : jsstring) (o : Obj) : bool :=
  existsb (fun p => jseqb (fst p) k) o.

(** The own property [k] of [o], if there is one. *)
Fixpoint lookup (k : jsstring) (o : Obj) : option jsval :=
  match o with
  | [] => None
  | (k', v) :: r => if jseqb k' k then Some v else lookup k r
  end.

Fixpoint overwrite (k : jsstring) (v : jsval) (o : Obj) : Obj :=
  match o with
  | [] => []
  | (k', v') :: r =>
      if jseqb k' k then (k', v) :: r else (k', v') :: overwrite k v r
  end.

Fixpoint insert_index (n : N) (k : jsstring) (v : jsval) (o : Obj) : Obj :=
  match o with
  | [] => [(k, v)]
  | (k', v') :: r =>
      match array_index k' with
      | Some m => if m <=? n then (k', v') :: insert_index n k v r
                  else (k, v) :: o
      | None => (k, v) :: o
      end
  end.

(** CreateDataProperty: an existing property keeps its place and takes
    the new value; a new array index goes after the array indices that do
    not exceed it, any other new name goes last. *)
Definition define (o : Obj) (k : jsstring) (v : jsval) : Obj :=
  if has k o then overwrite k v o
  else match array_index k with
       | Some n => insert_index n k v o
       | None => o ++ [(k, v)]
       end.

Definition PROTO : jsstring := str "__proto__".

(** The assignment [o[k] = v] of a string [v] on an ordinary object.  It
    is CreateDataProperty except for the one accessor that
    [Object.prototype] carries: assigning a string to [__proto__] when
    the object has no own property of that name runs the inherited
    setter, which ignores values that are not objects. *)
Definition assign (o : Obj) (k : jsstring) (v : jsstring) : Obj :=
  if jseqb k PROTO && negb (has k o) then o else define o k (VStr v).

(** [o[k]] *)
Definition get (o : Obj) (k : jsstring) : jsval :=
  match lookup k o with Some v => v | None => VUndefined end.

Definition Object_keys (o : Obj) : list jsstring := map fst o.

(** The own enumerable properties that the spread operator copies out of
    a value: the properties of an object, the elements of an array and
    the code units of a string under their indices, nothing for the other
    primitives. *)
Fixpoint indexed {A : Type} (f : A -> jsval) (i : nat) (l : list A) : Obj :=
  match l with
  | [] => []
  | x :: r => (decimal i, f x) :: indexed f (S i) r
  end.

Definition own_properties (v : jsval) : Obj :=
  match v with
  | VObj o => o
  | VArr l => indexed (fun x => x) 0 l
  | VStr s => indexed (fun c => VStr [c]) 0 s
  | VUndefined | VNull | VBool _ | VNum _ => []
  end.

(** [{...a, ...b}]: a fresh object receiving the properties of [a], then
    those of [b]. *)
Definition copy_into (target src : Obj) : Obj :=
  fold_left (fun o p => define o (fst p) (snd p)) src target.

Definition spread (a : Obj) (b : jsval) : Obj :=
  copy_into (copy_into [] a) (own_properties b).

(** ** [JSON.parse]

    The builtin is not part of the repository; this is the JSON grammar
    of ECMA-404 as ECMAScript's [JSON.parse] reads it.  [None] stands for
    the SyntaxError it throws. *)

Definition isJsonWs (c : code_unit) : bool :=
  (c =? 9) || (c =? 10) || (c =? 13) || (c =? 32).

Fixpoint skip_ws (s : jsstring) : jsstring :=
  match s with
  | c :: r => if isJsonWs c then skip_ws r else s
  | [] => []
  end.

Fixpoint strip_prefix (p s : jsstring) : option jsstring :=
  match p, s with
  | [], _ => Some s
  | x :: p', y :: s' => if x =? y then strip_prefix p' s' else None
  | _ :: _, [] => None
  end.

Fixpoint span_digits (s : jsstring) : jsstring * jsstring :=
  match s with
  | c :: r => if isDigit c then let (ds, r') := span_digits r in (c :: ds, r')
              else ([], s)
  | [] => ([], [])
  end.

Definition hex_value (c : code_unit) : option N :=
  if isDigit c then Some (c - 48)
  else if (97 <=? c) && (c <=? 102) then Some (c - 87)
  else if (65 <=? c) && (c <=? 70) then Some (c - 55)
  else None.

Definition hex4 (a b c d : code_unit) : option code_unit :=
  match hex_value a, hex_value b, hex_value c, hex_value d with
  | Some x, Some y, Some z, Some w => Some (4096 * x + 256 * y + 16 * z + w)
  | _, _, _, _ => None
  end.

Definition escape (e : code_unit) : option code_unit :=
  if (e =? 34) || (e =? 92) || (e =? 47) then Some e
  else if e =? 98 then Some 8
  else if e =? 102 then Some 12
  else if e =? 110 then Some 10
  else if e =? 114 then Some 13
  else if e =? 116 then Some 9
  else None.

Definition consume (c : code_unit) (p : option (jsstring * jsstring))
  : option (jsstring * jsstring) :=
  match p with Some (s, r) => Some (c :: s, r) | None => None end.

(** The characters of a string literal after its opening quote, up to and
    including the closing quote. *)
Fixpoint string_chars (s : jsstring) : option (jsstring * jsstring) :=
  match s with
  | [] => None
  | c :: r =>
      if c =? 34 then Some ([], r)
      else if c =? 92 then
        match r with
        | [] => None
        | e :: r1 =>
            if e =? 117 then
              match r1 with
              | h1 :: h2 :: h3 :: h4 :: r2 =>
                  match hex4 h1 h2 h3 h4 with
                  | Some cu => consume cu (string_chars r2)
                  | None => None
                  end
              | _ => None
              end
            else match escape e with
                 | Some cu => consume cu (string_chars r1)
                 | None => None
                 end
        end
      else if c <? 32 then None
      else consume c (string_chars r)
  end.

(** A number literal: an optional minus sign; a zero, or a non-zero digit
    followed by digits; optionally a point and at least one digit;
    optionally an exponent mark, a sign and at least one digit.  Each
    part gives the characters it reads and the text that follows. *)
Definition minus_sign (s : jsstring) : jsstring * jsstring :=
  match s with
  | c :: r => if c =? 45 then ([c], r) else ([], s)
  | [] => ([], s)
  end.

Definition int_part (s : jsstring) : option (jsstring * jsstring) :=
  match s with
  | c :: r =>
      if c =? 48 then Some ([c], r)
      else if isDigit c then let (ds, r') := span_digits r in Some (c :: ds, r')
      else None
  | [] => None
  end.

Definition frac_part (s : jsstring) : option (jsstring * jsstring) :=
  match s with
  | c :: r =>
      if c =? 46 then
        match span_digits r with
        | ([], _) => None
        | (ds, r') => Some (c :: ds, r')
        end
      else Some ([], s)
  | [] => Some ([], s)
  end.

Definition exp_sign (s : jsstring) : jsstring * jsstring :=
  match s with
  | d :: r => if (d =? 43) || (d =? 45) then ([d], r) else ([], s)
  | [] => ([], s)
  end.

Definition exp_part (s : jsstring) : option (jsstring * jsstring) :=
  match s with
  | c :: r =>
      if (c =? 101) || (c =? 69) then
        let (sg, r0) := exp_sign r in
        match span_digits r0 with
        | ([], _) => None
        | (ds, r') => Some (c :: sg ++ ds, r')
        end
      else Some ([], s)
  | [] => Some ([], s)
  end.

Definition number_literal (s : jsstring) : option (jsstring * jsstring) :=
  let (sign, s1) := minus_sign s in
  match int_part s1 with
  | None => None
  | Some (i, s2) =>
      match frac_part s2 with
      | None => None
      | Some (f, s3) =>
          match exp_part s3 with
          | None => None
          | Some (e, s4) => Some (sign ++ i ++ f ++ e, s4)
          end
      end
  end.

(** Values.  [fuel] bounds the depth of the recursion: one level for
    each value, one for each element of an array and one for each member
    of an object.  A parse never needs more fuel than the number of
    characters it reads (lemma [json_fuel]). *)
Fixpoint value (fuel : nat) (s : jsstring) : option (jsval * jsstring) :=
  match fuel with
  | O => None
  | S f =>
      match skip_ws s with
      | [] => None
      | c :: r =>
          if c =? 123 then
            match skip_ws r with
            | c' :: r' => if c' =? 125 then Some (VObj [], r') else members f r []
            | [] => None
            end
          else if c =? 91 then
            match skip_ws r with
            | c' :: r' => if c' =? 93 then Some (VArr [], r') else elements f r []
            | [] => None
            end
          else if c =? 34 then
            match string_chars r with
            | Some (t, r') => Some (VStr t, r')
            | None => None
            end
          else
            match strip_prefix (str "true") (c :: r),
                  strip_prefix (str "false") (c :: r),
                  strip_prefix (str "null") (c :: r) with
            | Some r', _, _ => Some (VBool true, r')
            | _, Some r', _ => Some (VBool false, r')
            | _, _, Some r' => Some (VNull, r')
            | None, None, None =>
                match number_literal (c :: r) with
                | Some (n, r') => Some (VNum n, r')
                | None => None
                end
            end
      end
  end
with elements (fuel : nat) (s : jsstring) (acc : list jsval)
  : option (jsval * jsstring) :=
  match fuel with
  | O => None
  | S f =>
      match value f s with
      | None => None
      | Some (v, r) =>
          match skip_ws r with
          | c :: r' =>
              if c =? 44 then elements f r' (acc ++ [v])
              else if c =? 93 then Some (VArr (acc ++ [v]), r')
              else None
          | [] => None
          end
      end
  end
with members (fuel : nat) (s : jsstring) (acc : Obj)
  : option (jsval * jsstring) :=
  match fuel with
  | O => None
  | S f =>
      match skip_ws s with
      | q :: r =>
          if q =? 34 then
            match string_chars r with
            | None => None
            | Some (k, r1) =>
                match skip_ws r1 with
                | c1 :: r2 =>
                    if c1 =? 58 then
                      match value f r2 with
                      | None => None
                      | Some (v, r3) =>
                          match skip_ws r3 with
                          | c3 :: r4 =>
                              if c3 =? 44 then members f r4 (define acc k v)
                              else if c3 =? 125 then Some (VObj (define acc k v), r4)
                              else None
                          | [] => None
                          end
                      end
                    else None
                | [] => None
                end
            end
          else None
      | [] => None
      end
  end.

Definition JSON_parse (text : jsstring) : option jsval :=
  match value (S (List.length text)) text with
  | Some (v, r) => match skip_ws r with [] => Some v | _ :: _ => None end
  | None => None
  end.

(** ** The env-format parser and the variable merger *)

(** The regular expression matched against [trimmed] (line 34) is
    anchored at both ends: one or more characters other than the equals
    sign, an equals sign, then any characters.  The first group cannot
    hold an equals sign, so it is the text before the first one and must not be
    empty; the dot does not match a line terminator, so the text after
    the first equals sign must be free of them. *)
Fixpoint break_equals (s : jsstring) : option (jsstring * jsstring) :=
  match s with
  | [] => None
  | c :: r =>
      if c =? EQUALS then Some ([], r)
      else match break_equals r with
           | Some (k, v) => Some (c :: k, v)
           | None => None
           end
  end.

Definition match_key_value (trimmed : jsstring) : option (jsstring * jsstring) :=
  match break_equals trimmed with
  | Some (k, v) =>
      if truthy k && forallb (fun c => negb (isLineTerminator c)) v
      then Some (k, v) else None
  | None => None
  end.

(** Lines 39-43: the surrounding quotes are removed when the value starts
    and ends with a double quote, or starts and ends with a single one. *)
Definition unquote (value : jsstring) : jsstring :=
  if (startsWith value DQUOTE && endsWith value DQUOTE)
     || (startsWith value SQUOTE && endsWith value SQUOTE)
  then slice_1_m1 value else value.

Definition parseEnvLine (result : Obj) (line : jsstring) : Obj :=
  let trimmed := trim line in
  if negb (truthy trimmed) || startsWith trimmed HASH then result
  else match match_key_value trimmed with
       | Some (m1, m2) =>
           let key := trim m1 in
           let value := unquote (trim m2) in
           assign result key value
       | None => result
       end.

Definition parseEnvFile (content : jsstring) : Obj :=
  let lines := split (fun c => c =? LF) content in
  fold_left parseEnvLine lines [].

(** ** The platform and the effects of a run *)

(** What the program reads off a caught error (interface [ApiError]
    joined with [Error]). *)
Record ApiError : Type := mkApiError {
  statusCode : option N;
  body_message : option jsstring;
  message : jsstring
}.

(** [new Error(msg)]. *)
Definition newError (msg : jsstring) : ApiError := mkApiError None None msg.

(** [apiError.body?.message || error.message] *)
Definition describe (e : ApiError) : jsstring :=
  or_else (match body_message e with Some m => m | None => [] end) (message e).

Record Configuration : Type := mkConfiguration {
  basePath : jsstring;
  accessToken : jsstring
}.

Definition createApiConfig (apiKey baseUrl : jsstring) : Configuration :=
  mkConfiguration baseUrl apiKey.

(** The requests of [VariablesApi]; the first three arguments are the
    organisation, the application and the environment. *)
Inductive Call : Type :=
| listEnvironmentVariables (org app env : jsstring)
| bulkSetEnvironmentVariables (org app env : jsstring)
    (environment : list (jsstring * jsval))
| updateEnvironmentVariable (org app env key : jsstring) (value : jsval)
| deleteEnvironmentVariable (org app env key : jsstring).

(** A request resolves (with the [data] of the response, if any) or is
    rejected with an error. *)
Inductive Response : Type :=
| Resolved (data : option Obj)
| Rejected (e : ApiError).

Inductive OutputValue : Type :=
| OutText (s : jsstring)
| OutNumber (n : nat)
| OutJson (o : Obj).   (* [JSON.stringify(o, null, 2)], left unprinted *)

Inductive Effect : Type :=
| Info (msg : jsstring)
| Warning (msg : jsstring)
| LogError (msg : jsstring)
| SetOutput (name : jsstring) (v : OutputValue)
| SetFailed (msg : jsstring)
| Request (c : Call).

(** Everything outside the program.  [rawInput] is the value that the
    runner holds for an input, as [core.getInput] finds it in the
    environment (untrimmed, empty when not supplied); [readFileSync]
    gives the text of a file or the message of the error it throws;
    [syntaxErrorMessage] is the engine's message for a text that
    [JSON.parse] rejects; [api] answers a request, given the client's
    configuration and the requests made before it in this run. *)
Record Platform : Type := mkPlatform {
  rawInput : jsstring -> jsstring;
  readFileSync : jsstring -> jsstring + jsstring;
  syntaxErrorMessage : jsstring -> jsstring;
  api : Configuration -> list Call -> Call -> Response
}.

(** What [core.getInput] returns for a name when it does not throw: the
    value, trimmed. *)
Definition input (P : Platform) (name : jsstring) : jsstring :=
  trim (rawInput P name).

Inductive Result (A : Type) : Type :=
| Value (a : A)
| Thrown (e : ApiError).
Arguments Value {A} a.
Arguments Thrown {A} e.

Definition requests (t : list Effect) : list Call :=
  flat_map (fun e => match e with Request c => [c] | _ => [] end) t.

Definition outputs (t : list Effect) : list (jsstring * OutputValue) :=
  flat_map (fun e => match e with SetOutput n v => [(n, v)] | _ => [] end) t.

Definition failures (t : list Effect) : list jsstring :=
  flat_map (fun e => match e with SetFailed m => [m] | _ => [] end) t.

Definition warnings (t : list Effect) : list jsstring :=
  flat_map (fun e => match e with Warning m => [m] | _ => [] end) t.

(** A computation: given the requests already made, the effects it
    performs in order and how it ends. *)
Definition M (A : Type) : Type := list Call -> list Effect * Result A.

Definition ret {A : Type} (a : A) : M A := fun _ => ([], Value a).

Definition throw {A : Type} (e : ApiError) : M A := fun _ => ([], Thrown e).

Definition bind {A B : Type} (m : M A) (k : A -> M B) : M B :=
  fun h =>
    match m h with
    | (t1, Value a) =>
        let (t2, r) := k a (h ++ requests t1) in (t1 ++ t2, r)
    | (t1, Thrown e) => (t1, Thrown e)
    end.

(** [try { m } catch (error) { handler error }] *)
Definition try_catch {A : Type} (m : M A) (handler : ApiError -> M A) : M A :=
  fun h =>
    match m h with
    | (t1, Value a) => (t1, Value a)
    | (t1, Thrown e) =>
        let (t2, r) := handler e (h ++ requests t1) in (t1 ++ t2, r)
    end.

Definition perform (e : Effect) : M unit := fun _ => ([e], Value tt).

Declare Scope js_scope.
Delimit Scope js_scope with js.
Notation "x <- m ;; k" := (bind m (fun x => k))
  (at level 61, m at next level, right associativity) : js_scope.
Notation "m ;; k" := (bind m (fun _ => k))
  (at level 61, right associativity) : js_scope.
Local Open Scope js_scope.

(** A [for ... of] loop whose body updates the loop's local variables. *)
Fixpoint for_of {A S : Type} (l : list A) (body : S -> A -> M S) (s : S) : M S :=
  match l with
  | [] => ret s
  | x :: r => s' <- body s x ;; for_of r body s'
  end.

(** ** The program *)

Definition CHECK_MARK : code_unit := 10003.
Definition BALLOT_X : code_unit := 10007.

(** The body of the loop over the inline pairs (lines 81-84). *)
Definition setPair (result : Obj) (pair : jsstring) : Obj :=
  match split (fun c => c =? EQUALS) pair with
  | key :: valueParts =>
      if truthy key && (0 <? List.length valueParts)%nat
      then assign result (trim key) (trim (join [EQUALS] valueParts))
      else result
  | [] => result
  end.

(** Lines 79-85. *)
Definition setPairs (result : Obj) (variables : jsstring) : Obj :=
  let pairs := filter (fun p => truthy (trim p))
                 (split (fun c => (c =? LF) || (c =? COMMA)) variables) in
  fold_left setPair pairs result.

(** Line 170. *)
Definition parseKeys (keysInput : jsstring) : list jsstring :=
  filter truthy
    (map trim (split (fun c => (c =? LF) || (c =? COMMA)) keysInput)).

Section Program.

Variable P : Platform.

Definition info (msg : jsstring) : M unit := perform (Info msg).
Definition warning (msg : jsstring) : M unit := perform (Warning msg).
Definition error (msg : jsstring) : M unit := perform (LogError msg).
Definition setOutput (name : jsstring) (v : OutputValue) : M unit :=
  perform (SetOutput name v).
Definition setFailed (msg : jsstring) : M unit := perform (SetFailed msg).

(** [core.getInput(name, { required })]: the test of a required input
    is made on the value as it is, and the value is trimmed
    afterwards. *)
Definition getInput (name : jsstring) (required : bool) : M jsstring :=
  let val := rawInput P name in
  if required && negb (truthy val)
  then throw (newError (str "Input required and not supplied: " ++ name))
  else ret (trim val).

Definition readFile (path : jsstring) : M jsstring :=
  match readFileSync P path with
  | inl content => ret content
  | inr msg => throw (newError msg)
  end.

Definition parseJson (text : jsstring) : M jsval :=
  match JSON_parse text with
  | Some v => ret v
  | None => throw (newError (syntaxErrorMessage P text))
  end.

(** [await client.method(...)] *)
Definition await (client : Configuration) (c : Call) : M (option Obj) :=
  fun h =>
    ([Request c],
     match api P client h c with
     | Resolved data => Value data
     | Rejected e => Thrown e
     end).

Definition parseVariables (envFile jsonVars variables : jsstring) : M Obj :=
  let result : Obj := [] in
  result <-
    (if truthy envFile then
       info (str "Loading variables from .env file: " ++ envFile) ;;
       content <- readFile envFile ;;
       ret (spread result (VObj (parseEnvFile content)))
     else ret result) ;;
  result <-
    (if truthy jsonVars then
       info (str "Loading variables from JSON") ;;
       parsed <- parseJson jsonVars ;;
       ret (spread result parsed)
     else ret result) ;;
  result <-
    (if truthy variables then
       info (str "Loading individual variables") ;;
       ret (setPairs result variables)
     else ret result) ;;
  ret result.

Definition runList (client : Configuration)
    (organisation appName environmentName : jsstring) : M unit :=
  info (str "Listing variables for environment: " ++ environmentName) ;;
  data <- await client
            (listEnvironmentVariables organisation appName environmentName) ;;
  let variables : Obj := match data with Some o => o | None => [] end in
  info (str "Found " ++ decimal (List.length (Object_keys variables))
          ++ str " variable(s)") ;;
  setOutput (str "variables") (OutJson variables) ;;
  setOutput (str "count") (OutNumber (List.length (Object_keys variables))) ;;
  for_of (Object_keys variables)
    (fun _ key => info (str "  - " ++ key)) tt.

Definition runClear (client : Configuration)
    (organisation appName environmentName : jsstring) : M unit :=
  info (str "Clearing all variables for environment: " ++ environmentName) ;;
  try_catch
    (await client
       (bulkSetEnvironmentVariables organisation appName environmentName []) ;;
     info (CHECK_MARK :: str " All variables cleared successfully") ;;
     setOutput (str "deleted_count") (OutText (str "all")) ;;
     setOutput (str "failed_count") (OutNumber 0))
    (fun e =>
       error (str "Failed to clear variables: " ++ describe e) ;;
       throw e).

(** The body of the loop of the delete operation (lines 182-195); the
    loop's variables are the counters [deleted] and [failed]. *)
Definition deleteKey (client : Configuration)
    (organisation appName environmentName : jsstring)
    (counters : nat * nat) (key : jsstring) : M (nat * nat) :=
  let '(deleted, failed) := counters in
  try_catch
    (await client
       (deleteEnvironmentVariable organisation appName environmentName key) ;;
     info (str "  " ++ CHECK_MARK :: str " Deleted: " ++ key) ;;
     ret (S deleted, failed))
    (fun e =>
       if match statusCode e with Some c => c =? 404 | None => false end
       then
         info (str "  - Not found (already deleted): " ++ key) ;;
         ret (S deleted, failed)
       else
         warning (str "  " ++ BALLOT_X :: str " Failed to delete "
                    ++ key ++ str ": " ++ describe e) ;;
         ret (deleted, S failed)).

Definition runDelete (client : Configuration)
    (organisation appName environmentName : jsstring) : M unit :=
  keysInput <- getInput (str "keys") true ;;
  let keys := parseKeys keysInput in
  if (List.length keys =? 0)%nat
  then throw (newError (str "No keys provided for delete operation"))
  else
    info (str "Deleting " ++ decimal (List.length keys) ++ str " variable(s)...") ;;
    counters <-
      for_of keys
        (deleteKey client organisation appName environmentName) (O, O) ;;
    let '(deleted, failed) := counters in
    info (str "Deleted " ++ decimal deleted ++ str " variable(s), "
            ++ decimal failed ++ str " failed") ;;
    setOutput (str "deleted_count") (OutNumber deleted) ;;
    setOutput (str "failed_count") (OutNumber failed).

(** The body of the loop of the merge-mode set (lines 251-260); the
    loop's variables are the counters [updated] and [failed]. *)
Definition updateKey (client : Configuration)
    (organisation appName environmentName : jsstring) (vars : Obj)
    (counters : nat * nat) (key : jsstring) : M (nat * nat) :=
  let '(updated, failed) := counters in
  try_catch
    (await client
       (updateEnvironmentVariable organisation appName environmentName key
          (get vars key)) ;;
     info (str "  " ++ CHECK_MARK :: str " Set: " ++ key) ;;
     ret (S updated, failed))
    (fun e =>
       warning (str "  " ++ BALLOT_X :: str " Failed to set "
                  ++ key ++ str ": " ++ describe e) ;;
       ret (updated, S failed)).

(** Lines 216-279 of the set operation: what is done with the merged
    mapping. *)
Definition applyVariables (client : Configuration)
    (organisation appName environmentName : jsstring) (replace : bool)
    (vars : Obj) : M unit :=
  let keys := Object_keys vars in
  if (List.length keys =? 0)%nat
  then warning (str "No variables to set")
  else
    info (str "Setting " ++ decimal (List.length keys) ++ str " variable(s)..."
            ++ (if replace then str " (replace mode - bulk API)"
                else str " (merge mode - individual updates)")) ;;
    try_catch
      (if replace then
         let bulkRequest := map (fun key => (key, get vars key)) keys in
         await client
           (bulkSetEnvironmentVariables organisation appName
              environmentName bulkRequest) ;;
         info (CHECK_MARK :: str " Successfully replaced all variables with "
                 ++ decimal (List.length keys) ++ str " new variable(s)") ;;
         for_of keys (fun _ key => info (str "  - " ++ key)) tt ;;
         setOutput (str "updated_count") (OutNumber (List.length keys)) ;;
         setOutput (str "failed_count") (OutNumber 0)
       else
         counters <-
           for_of keys
             (updateKey client organisation appName environmentName vars)
             (O, O) ;;
         let '(updated, failed) := counters in
         info (str "Set " ++ decimal updated ++ str " variable(s), "
                 ++ decimal failed ++ str " failed") ;;
         setOutput (str "updated_count") (OutNumber updated) ;;
         setOutput (str "failed_count") (OutNumber failed) ;;
         if (0 <? failed)%nat
         then throw (newError (str "Failed to set " ++ decimal failed
                                 ++ str " variable(s)"))
         else ret tt)
      (fun e =>
         (if replace then
            error (str "Failed to set variables: " ++ describe e) ;;
            setOutput (str "updated_count") (OutNumber 0) ;;
            setOutput (str "failed_count") (OutNumber (List.length keys))
          else ret tt) ;;
         throw e).

(** The set operation (lines 206-282). *)
Definition runSet (client : Configuration)
    (organisation appName environmentName : jsstring) (replace : bool)
  : M unit :=
  envFile <- getInput (str "env_file") false ;;
  jsonVars <- getInput (str "json_vars") false ;;
  variables <- getInput (str "variables") false ;;
  if negb (truthy envFile) && negb (truthy jsonVars) && negb (truthy variables)
  then throw (newError (str
         "At least one of env_file, json_vars, or variables must be provided for set operation"))
  else
    vars <- parseVariables envFile jsonVars variables ;;
    applyVariables client organisation appName environmentName replace vars.

(** The body of the outer [try] of [run]. *)
Definition runBody : M unit :=
  apiKey <- getInput (str "api_key") true ;;
  appName <- getInput (str "app_name") true ;;
  organisation <- getInput (str "organization") true ;;
  environmentName <- getInput (str "environment_name") true ;;
  operationInput <- getInput (str "operation") false ;;
  let operation := or_else operationInput (str "list") in
  replaceInput <- getInput (str "replace") false ;;
  let replace := jseqb replaceInput (str "true") in
  baseUrlInput <- getInput (str "base_url") false ;;
  let baseUrl := or_else baseUrlInput (str "https://dashboard.quantcdn.io/api/v3") in
  let config := createApiConfig apiKey baseUrl in
  let client := config in
  info (str "Quant Cloud Environment Variables Action") ;;
  info (str "Operation: " ++ operation) ;;
  if jseqb operation (str "list") then
    runList client organisation appName environmentName
  else if jseqb operation (str "clear") then
    runClear client organisation appName environmentName
  else if jseqb operation (str "delete") then
    runDelete client organisation appName environmentName
  else if jseqb operation (str "set") then
    runSet client organisation appName environmentName replace
  else
    throw (newError (str "Unknown operation: " ++ operation
             ++ str ". Valid operations are: list, set, clear, delete")).

(** [run()]: the effects of one run, in order. *)
Definition run : list Effect :=
  fst (try_catch runBody
         (fun e => setFailed (or_else (describe e) (str "Unknown error")))
         []).

End Program.

(** ** The frame of a run *)

(** The four inputs every operation requires are supplied: the runner
    holds a value for each that is not empty. *)
Definition supplied (P : Platform) : bool :=
  truthy (rawInput P (str "api_key")) && truthy (rawInput P (str "app_name"))
  && truthy (rawInput P (str "organization"))
  && truthy (rawInput P (str "environment_name")).

Definition operationOf (P : Platform) : jsstring :=
  or_else (input P (str "operation")) (str "list").

Definition replaceOf (P : Platform) : bool :=
  jseqb (input P (str "replace")) (str "true").

Definition clientOf (P : Platform) : Configuration :=
  createApiConfig (input P (str "api_key"))
    (or_else (input P (str "base_url"))
       (str "https://dashboard.quantcdn.io/api/v3")).

Definition organisationOf (P : Platform) := input P (str "organization").
Definition appNameOf (P : Platform) := input P (str "app_name").
Definition environmentNameOf (P : Platform) := input P (str "environment_name").

(** What [setFailed] receives for a caught error (line 288). *)
Definition failureMessage (e : ApiError) : jsstring :=
  or_else (describe e) (str "Unknown error").

Definition banner (P : Platform) : list Effect :=
  [Info (str "Quant Cloud Environment Variables Action");
   Info (str "Operation: " ++ operationOf P)].

Definition dispatch (P : Platform) : M unit :=
  let client := clientOf P in
  let organisation := organisationOf P in
  let appName := appNameOf P in
  let environmentName := environmentNameOf P in
  if jseqb (operationOf P) (str "list") then
    runList P client organisation appName environmentName
  else if jseqb (operationOf P) (str "clear") then
    runClear P client organisation appName environmentName
  else if jseqb (operationOf P) (str "delete") then
    runDelete P client organisation appName environmentName
  else if jseqb (operationOf P) (str "set") then
    runSet P client organisation appName environmentName (replaceOf P)
  else
    throw (newError (str "Unknown operation: " ++ operationOf P
             ++ str ". Valid operations are: list, set, clear, delete")).

(** How the outer [try]/[catch] ends a run. *)
Definition finish (r : list Effect * Result unit) : list Effect :=
  match r with
  | (t, Value _) => t
  | (t, Thrown e) => t ++ [SetFailed (failureMessage e)]
  end.

(** ** Vocabulary of the statements *)

(** The answers of the remote to a sequence of requests made one after
    the other, the first one after the requests [h]. *)
Fixpoint replay (answer : list Call -> Call -> Response) (h : list Call)
    (calls : list Call) : list Response :=
  match calls with
  | [] => []
  | c :: rest => answer h c :: replay answer (h ++ [c]) rest
  end.

Definition resolved (r : Response) : bool :=
  match r with Resolved _ => true | Rejected _ => false end.

Definition rejected (r : Response) : bool := negb (resolved r).

(** A rejection that carries the status code 404. *)
Definition notFound (r : Response) : bool :=
  match r with
  | Rejected e => match statusCode e with Some c => c =? 404 | None => false end
  | Resolved _ => false
  end.

Definition count {A : Type} (f : A -> bool) (l : list A) : nat :=
  List.length (filter f l).

(** [k] may be enumerated before [k']: array indices come first, in
    ascending order. *)
Definition before (k k' : jsstring) : bool :=
  match array_index k, array_index k' with
  | Some n, Some m => n <=? m
  | Some _, None => true
  | None, Some _ => false
  | None, None => true
  end.

(** The representation invariant of [Obj]: no name occurs twice and the
    properties are in enumeration order. *)
Fixpoint canonical (o : Obj) : bool :=
  match o with
  | [] => true
  | (k, _) :: r =>
      negb (has k r) && forallb (fun p => before k (fst p)) r && canonical r
  end.

(** The value that a list of key/value pairs, applied in order, leaves
    for [k]: that of the last pair with this key. *)
Fixpoint last_value (k : jsstring) (pairs : list (jsstring * jsval))
  : option jsval :=
  match pairs with
  | [] => None
  | (k', v) :: r =>
      match last_value k r with
      | Some x => Some x
      | None => if jseqb k' k then Some v else None
      end
  end.

(** [s] between double quotes. *)
Definition quoted (s : jsstring) : jsstring := DQUOTE :: s ++ [DQUOTE].

Definition noneOf (bad : code_unit -> bool) (s : jsstring) : bool :=
  forallb (fun c => negb (bad c)) s.

(** Nothing but white space. *)
Definition blank (s : jsstring) : bool := forallb isWhiteSpace s.

Definition isEquals (c : code_unit) : bool := c =? EQUALS.
Definition isLF (c : code_unit) : bool := c =? LF.
Definition isDelimiter (c : code_unit) : bool := (c =? LF) || (c =? COMMA).

(** The inline source as the specification words it: the text is split on
    line feeds and commas, every fragment is trimmed and the blank ones
    are dropped; a fragment is then split at its first equals sign into a
    key and a value, both trimmed. *)
Definition inlineFragments (variables : jsstring) : list jsstring :=
  filter truthy (map trim (split isDelimiter variables)).

Definition inlineEntry (fragment : jsstring) : option (jsstring * jsstring) :=
  match break_equals fragment with
  | Some (k, v) => Some (trim k, trim v)
  | None => None
  end.

Definition inlineStep (result : Obj) (fragment : jsstring) : Obj :=
  match inlineEntry fragment with
  | Some (k, v) => assign result k v
  | None => result
  end.

(** The merger as the specification words it: the parsed sources are
    applied one after the other, in the order file, JSON, inline, to a
    mapping that starts empty. *)
Inductive Source : Type :=
| FileSource (content : jsstring)
| JsonSource (parsed : jsval)
| InlineSource (raw : jsstring).

Definition applySource (m : Obj) (s : Source) : Obj :=
  match s with
  | FileSource content => spread m (VObj (parseEnvFile content))
  | JsonSource parsed => spread m parsed
  | InlineSource raw => setPairs m raw
  end.

Definition mergeSources (sources : list Source) : Obj :=
  fold_left applySource sources [].

(** The sources that a call of [parseVariables] applies: those whose
    argument is not empty. *)
Definition sourcesOf (envFile jsonVars variables content : jsstring)
    (parsed : jsval) : list Source :=
  (if truthy envFile then [FileSource content] else [])
  ++ (if truthy jsonVars then [JsonSource parsed] else [])
  ++ (if truthy variables then [InlineSource variables] else []).

(** The key/value pairs that the inline source assigns, in order: one
    for every fragment that has an equals sign and at least one
    character before the first one. *)
Definition pairOf (pair : jsstring) : list (jsstring * jsstring) :=
  match break_equals pair with
  | Some (k, v) => if truthy k then [(trim k, trim v)] else []
  | None => []
  end.

Definition inlinePairs (raw : jsstring) : list (jsstring * jsstring) :=
  flat_map pairOf
    (filter (fun p => truthy (trim p)) (split isDelimiter raw)).

(** The key/value pairs that a source brings, in order. *)
Definition entriesOf (s : Source) : list (jsstring * jsval) :=
  match s with
  | FileSource content => parseEnvFile content
  | JsonSource parsed => own_properties parsed
  | InlineSource raw => map (fun p => (fst p, VStr (snd p))) (inlinePairs raw)
  end.

Definition isInline (s : Source) : bool :=
  match s with InlineSource _ => true | _ => false end.

(** The JSON text of an object with the members B and C, whose values are
    the strings 3 and 4. *)
Definition exampleJson : jsstring :=
  str "{" ++ quoted (str "B") ++ str ":" ++ quoted (str "3") ++ str ","
  ++ quoted (str "C") ++ str ":" ++ quoted (str "4") ++ str "}".

(** The text of a value in a line; the values of a parsed env file are
    strings. *)
Definition valueText (v : jsval) : jsstring :=
  match v with VStr s => s | _ => [] end.

(** The line [key=value] of an entry, with the value as it is. *)
Definition envLine (p : jsstring * jsval) : jsstring :=
  fst p ++ [EQUALS] ++ valueText (snd p).

(** The entry whose value is the same text between double quotes. *)
Definition requoted (p : jsstring * jsval) : jsstring * jsval :=
  (fst p, VStr (quoted (valueText (snd p)))).

(** Modelled from the spec: the line of an entry when the mapping is
    serialized, made of the key, an equals sign and the value between
    double quotes. *)
Definition quotedLine (p : jsstring * jsval) : jsstring :=
  fst p ++ [EQUALS] ++ quoted (valueText (snd p)).

(** Modelled from the spec: the repository has no serializer.  Section 8
    of the specification speaks of re-serializing the parsed mapping back
    to [KEY=VALUE] lines, whose quoting is not that of the text parsed:
    one line per entry, in the order of the mapping, every value between
    double quotes, the lines separated by line feeds. *)
Definition serializeEnv (m : Obj) : jsstring := join [LF] (map quotedLine m).

(** What parsing the line [key=value] of an entry makes of it. *)
Definition reparsed (p : jsstring * jsval) : jsstring * jsval :=
  (fst p, VStr (unquote (trim (valueText (snd p))))).

(** The entries that the env-format parser produces: the key is not
    empty, starts with neither white space nor a hash sign, holds no
    equals sign and no line feed, is trimmed and is not [__proto__]; the
    value is a string without line terminators. *)
Definition envEntry (p : jsstring * jsval) : Prop :=
  (exists c r, fst p = c :: r /\ isWhiteSpace c = false /\ c <> HASH)
  /\ noneOf isEquals (fst p) = true
  /\ noneOf isLF (fst p) = true
  /\ trim (fst p) = fst p
  /\ jseqb (fst p) PROTO = false
  /\ exists s, snd p = VStr s /\ noneOf isLineTerminator s = true.

(** A parser that takes fuel has enough of it at [f] when every result it
    gives at [f] has read at least one character of [s] and is also its
    result for any fuel not below the number of characters read. *)
Definition enough {A : Type} (parser : nat -> option (A * jsstring))
    (s : jsstring) (f : nat) : Prop :=
  forall a r, parser f = Some (a, r) ->
    (List.length r < List.length s)%nat
    /\ forall f', (List.length s - List.length r <= f')%nat ->
                   parser f' = Some (a, r).

(** The lines written to the log, whatever their level. *)
Definition logs (t : list Effect) : list jsstring :=
  flat_map (fun e => match e with
                     | Info m | Warning m | LogError m => [m]
                     | _ => []
                     end) t.

(** The platform [P] with another remote. *)
Definition withRemote (P : Platform)
    (remote : Configuration -> list Call -> Call -> Response) : Platform :=
  mkPlatform (rawInput P) (readFileSync P) (syntaxErrorMessage P) remote.

(** The two outputs of an operation, in the order in which they are
    set; none for an unknown operation. *)
Definition outputNames (operation : jsstring) : list jsstring :=
  if jseqb operation (str "list") then [str "variables"; str "count"]
  else if jseqb operation (str "clear") then [str "deleted_count"; str "failed_count"]
  else if jseqb operation (str "delete") then [str "deleted_count"; str "failed_count"]
  else if jseqb operation (str "set") then [str "updated_count"; str "failed_count"]
  else [].

(** The first of the four required inputs that is not supplied. *)
Definition firstMissing (P : Platform) : option jsstring :=
  if negb (truthy (rawInput P (str "api_key"))) then Some (str "api_key")
  else if negb (truthy (rawInput P (str "app_name"))) then Some (str "app_name")
  else if negb (truthy (rawInput P (str "organization")))
       then Some (str "organization")
  else if negb (truthy (rawInput P (str "environment_name")))
       then Some (str "environment_name")
  else None.

(** A line of an env file that is blank, a comment, or without an equals
    sign. *)
Definition skippable (line : jsstring) : bool :=
  negb (truthy (trim line)) || startsWith (trim line) HASH
  || noneOf isEquals line.

Definition isString (v : jsval) : bool :=
  match v with VStr _ => true | _ => false end.

Definition isDefined (v : jsval) : bool :=
  match v with VUndefined => false | _ => true end.

(** The value that a request carries to the remote, if it carries any. *)
Definition sentValues (c : Call) : list jsval :=
  match c with
  | bulkSetEnvironmentVariables _ _ _ l => map snd l
  | updateEnvironmentVariable _ _ _ _ v => [v]
  | _ => []
  end.

(** A key as the delete operation takes it from its list: not empty,
    trimmed, free of commas and line feeds. *)
Definition cleanKey (k : jsstring) : Prop :=
  k <> [] /\ trim k = k /\ noneOf isDelimiter k = true.

(** The lines of a text with Windows line ends, as splitting on line
    feeds shows them: every line but the last ends with a carriage
    return. *)
Fixpoint withCR (lines : list jsstring) : list jsstring :=
  match lines with
  | [] => []
  | [l] => [l]
  | l :: rest => (l ++ [CR]) :: withCR rest
  end.

(** A value that is not [undefined] and, when it is an array or an
    object, holds no [undefined] element or member. *)
Definition holdsNoUndefined (v : jsval) : Prop :=
  isDefined v = true
  /\ match v with
     | VArr l => Forall (fun x => isDefined x = true) l
     | VObj o => Forall (fun p => isDefined (snd p) = true) o
     | _ => True
     end.

(** ** Example platforms *)

Fixpoint exampleInputs (table : list (string * string)) (name : jsstring)
  : jsstring :=
  match table with
  | [] => []
  | (n, v) :: rest => if jseqb (str n) name then str v else exampleInputs rest name
  end.

Definition credentials : list (string * string) :=
  [("api_key", "secret"); ("organization", "acme"); ("app_name", "shop");
   ("environment_name", "production")]%string.

(** One file, [.env], holding [A=1] and [B=2] on two lines. *)
Definition exampleFiles (path : jsstring) : jsstring + jsstring :=
  if jseqb path (str ".env") then inl (str "A=1" ++ [LF] ++ str "B=2")
  else inr (str "ENOENT: no such file or directory").

(** A remote that rejects every update and every delete of [B] with
    status 500, answers 404 to every delete of [C], and accepts the
    rest. *)
Definition exampleRemote (client : Configuration) (h : list Call) (c : Call)
  : Response :=
  match c with
  | updateEnvironmentVariable _ _ _ k _ =>
      if jseqb k (str "B")
      then Rejected (mkApiError (Some 500) (Some (str "Internal error")) (str "HTTP 500"))
      else Resolved None
  | deleteEnvironmentVariable _ _ _ k =>
      if jseqb k (str "B")
      then Rejected (mkApiError (Some 500) None (str "HTTP 500"))
      else if jseqb k (str "C")
      then Rejected (mkApiError (Some 404) None (str "HTTP 404"))
      else Resolved None
  | _ => Resolved None
  end.

(** A remote that answers every request with the variables [X] and [Y]. *)
Definition listingRemote (client : Configuration) (h : list Call) (c : Call)
  : Response :=
  Resolved (Some [(str "X", VStr (str "1")); (str "Y", VStr (str "2"))]).

Definition examplePlatform (table : list (string * string)) : Platform :=
  mkPlatform (exampleInputs (table ++ credentials)) exampleFiles
    (fun _ => str "Unexpected end of JSON input") exampleRemote.

Definition envFileOf (P : Platform) := input P (str "env_file").
Definition jsonVarsOf (P : Platform) := input P (str "json_vars").
Definition variablesOf (P : Platform) := input P (str "variables").

(** At least one of [env_file], [json_vars] and [variables] is supplied. *)
Definition anySource (P : Platform) : bool :=
  truthy (envFileOf P) || truthy (jsonVarsOf P) || truthy (variablesOf P).

(** The call of [parseVariables] that the set operation makes (line 215):
    its log lines and the merged mapping, or the error thrown. *)
Definition mergedOf (P : Platform) : list Effect * Result Obj :=
  parseVariables P (envFileOf P) (jsonVarsOf P) (variablesOf P) [].

(** Where a request of a run comes from: the operation it belongs to,
    with the target named by the inputs; a deletion is that of a key of
    the key list; an update carries a key of the merged mapping with the
    value the mapping holds for it, and a bulk set that is not a clear
    carries all of them. *)
Definition requestFrom (P : Platform) (c : Call) : Prop :=
  let org := organisationOf P in
  let app := appNameOf P in
  let env := environmentNameOf P in
  (operationOf P = str "list" /\ c = listEnvironmentVariables org app env)
  \/ (operationOf P = str "clear"
      /\ c = bulkSetEnvironmentVariables org app env [])
  \/ (operationOf P = str "delete"
      /\ exists k, In k (parseKeys (input P (str "keys")))
                   /\ c = deleteEnvironmentVariable org app env k)
  \/ (operationOf P = str "set"
      /\ exists vars, snd (mergedOf P) = Value vars /\ vars <> []
           /\ ((replaceOf P = false
                /\ exists k, In k (Object_keys vars)
                     /\ c = updateEnvironmentVariable org app env k (get vars k))
               \/ (replaceOf P = true
                   /\ c = bulkSetEnvironmentVariables org app env
                           (map (fun key => (key, get vars key))
                              (Object_keys vars))))).

(** What the body of a run keeps to, whatever the inputs and the
    answers: it does not mark the run failed itself, its requests
    belong to the operation, and it sets either no output or the
    outputs of the operation, each once and in order. *)
Definition disciplined (P : Platform) (t : list Effect) : Prop :=
  failures t = []
  /\ Forall (requestFrom P) (requests t)
  /\ (outputs t = [] \/ map fst (outputs t) = outputNames (operationOf P)).

(** * Properties *)

Arguments str : simpl never.

(** ** Reading a trace *)

Lemma requests_app (t1 t2 : list Effect) :
  requests (t1 ++ t2) = requests t1 ++ requests t2.
Proof. apply flat_map_app. Qed.

Lemma outputs_app (t1 t2 : list Effect) :
  outputs (t1 ++ t2) = outputs t1 ++ outputs t2.
Proof. apply flat_map_app. Qed.

Lemma failures_app (t1 t2 : list Effect) :
  failures (t1 ++ t2) = failures t1 ++ failures t2.
Proof. apply flat_map_app. Qed.

Lemma warnings_app (t1 t2 : list Effect) :
  warnings (t1 ++ t2) = warnings t1 ++ warnings t2.
Proof. apply flat_map_app. Qed.

Lemma requests_cons (e : Effect) (t : list Effect) :
  requests (e :: t)
  = match e with Request c => c :: requests t | _ => requests t end.
Proof. now destruct e. Qed.

Lemma outputs_cons (e : Effect) (t : list Effect) :
  outputs (e :: t)
  = match e with SetOutput n v => (n, v) :: outputs t | _ => outputs t end.
Proof. now destruct e. Qed.

Lemma failures_cons (e : Effect) (t : list Effect) :
  failures (e :: t)
  = match e with SetFailed m => m :: failures t | _ => failures t end.
Proof. now destruct e. Qed.

Lemma warnings_cons (e : Effect) (t : list Effect) :
  warnings (e :: t)
  = match e with Warning m => m :: warnings t | _ => warnings t end.
Proof. now destruct e. Qed.

(** Reads the requests, outputs, failures and warnings off a trace built
    from known effects and sub-traces. *)
Ltac read_trace :=
  repeat (first
    [ rewrite requests_app | rewrite outputs_app | rewrite failures_app
    | rewrite warnings_app | rewrite requests_cons | rewrite outputs_cons
    | rewrite failures_cons | rewrite warnings_cons ]; cbv iota);
  change (requests []) with (@nil Call);
  change (outputs []) with (@nil (jsstring * OutputValue));
  change (failures []) with (@nil jsstring);
  change (warnings []) with (@nil jsstring).

(** ** Laws of the computations, pointwise in the request history *)

Section Laws.

Variable P : Platform.
Context {A B : Type}.

Lemma bind_ret (a : A) (k : A -> M B) h : bind (ret a) k h = k a h.
Proof.
  unfold bind, ret. cbn. rewrite app_nil_r. now destruct (k a h).
Qed.

Lemma bind_value (m : M A) (k : A -> M B) h t a :
  m h = (t, Value a) ->
  bind m k h = (t ++ fst (k a (h ++ requests t)), snd (k a (h ++ requests t))).
Proof. intros E. unfold bind. rewrite E. now destruct (k a _). Qed.

Lemma bind_thrown (m : M A) (k : A -> M B) h t e :
  m h = (t, Thrown e) -> bind m k h = (t, Thrown e).
Proof. intros E. unfold bind. now rewrite E. Qed.

Lemma bind_throw (e : ApiError) (k : A -> M B) h :
  bind (throw e) k h = ([], Thrown e).
Proof. reflexivity. Qed.

Lemma bind_perform (e : Effect) (k : unit -> M B) h :
  bind (perform e) k h
  = (e :: fst (k tt (h ++ requests [e])), snd (k tt (h ++ requests [e]))).
Proof. unfold bind, perform. now destruct (k tt _). Qed.

Lemma bind_info (m : jsstring) (k : unit -> M B) h :
  bind (info m) k h = (Info m :: fst (k tt h), snd (k tt h)).
Proof. unfold info. rewrite bind_perform. cbn. now rewrite app_nil_r. Qed.

Lemma bind_warning (m : jsstring) (k : unit -> M B) h :
  bind (warning m) k h = (Warning m :: fst (k tt h), snd (k tt h)).
Proof. unfold warning. rewrite bind_perform. cbn. now rewrite app_nil_r. Qed.

Lemma bind_error (m : jsstring) (k : unit -> M B) h :
  bind (error m) k h = (LogError m :: fst (k tt h), snd (k tt h)).
Proof. unfold error. rewrite bind_perform. cbn. now rewrite app_nil_r. Qed.

Lemma bind_setOutput (n : jsstring) (v : OutputValue) (k : unit -> M B) h :
  bind (setOutput n v) k h = (SetOutput n v :: fst (k tt h), snd (k tt h)).
Proof. unfold setOutput. rewrite bind_perform. cbn. now rewrite app_nil_r. Qed.

Lemma bind_await (client : Configuration) (c : Call)
    (k : option Obj -> M B) h :
  bind (await P client c) k h
  = match api P client h c with
    | Resolved data =>
        (Request c :: fst (k data (h ++ [c])), snd (k data (h ++ [c])))
    | Rejected e => ([Request c], Thrown e)
    end.
Proof.
  unfold bind, await. destruct (api P client h c); cbn; trivial.
  now destruct (k data _).
Qed.

End Laws.

Lemma bind_getInput_optional {B : Type} (P : Platform) (name : jsstring) (k : jsstring -> M B) h :
  bind (getInput P name false) k h = k (input P name) h.
Proof. exact (bind_ret (input P name) k h). Qed.

Lemma bind_getInput_required {B : Type} (P : Platform) (name : jsstring) (k : jsstring -> M B) h :
  truthy (rawInput P name) = true ->
  bind (getInput P name true) k h = k (input P name) h.
Proof.
  intros H. unfold getInput. rewrite H.
  exact (bind_ret (input P name) k h).
Qed.

(** An input that is not empty once trimmed was not empty. *)
Lemma truthy_trim (s : jsstring) : truthy (trim s) = true -> truthy s = true.
Proof. destruct s; [discriminate | reflexivity]. Qed.


(** ** The frame of a run *)

Lemma run_finish (P : Platform) : run P = finish (runBody P []).
Proof.
  unfold run, try_catch, finish.
  destruct (runBody P []) as [t [a | e]]; reflexivity.
Qed.

Lemma runBody_supplied (P : Platform) h :
  supplied P = true ->
  runBody P h = (banner P ++ fst (dispatch P h), snd (dispatch P h)).
Proof.
  unfold supplied. intros H.
  apply andb_prop in H as [H He]. apply andb_prop in H as [H Ho].
  apply andb_prop in H as [Hk Ha].
  unfold runBody.
  rewrite (bind_getInput_required P _ _ _ Hk), (bind_getInput_required P _ _ _ Ha),
    (bind_getInput_required P _ _ _ Ho), (bind_getInput_required P _ _ _ He).
  rewrite !bind_getInput_optional, !bind_info.
  reflexivity.
Qed.

Lemma run_supplied (P : Platform) :
  supplied P = true ->
  run P = finish (banner P ++ fst (dispatch P []), snd (dispatch P [])).
Proof. intros H. now rewrite run_finish, runBody_supplied. Qed.

(** ** Clear *)

Lemma runClear_run (P : Platform) client organisation appName environmentName h :
  let call := bulkSetEnvironmentVariables organisation appName environmentName [] in
  runClear P client organisation appName environmentName h
  = match api P client h call with
    | Resolved _ =>
        ([Info (str "Clearing all variables for environment: " ++ environmentName);
          Request call;
          Info (CHECK_MARK :: str " All variables cleared successfully");
          SetOutput (str "deleted_count") (OutText (str "all"));
          SetOutput (str "failed_count") (OutNumber 0)], Value tt)
    | Rejected e =>
        ([Info (str "Clearing all variables for environment: " ++ environmentName);
          Request call;
          LogError (str "Failed to clear variables: " ++ describe e)], Thrown e)
    end.
Proof.
  intros call. unfold runClear. rewrite bind_info.
  unfold try_catch. rewrite bind_await. fold call.
  destruct (api P client h call) as [data | e].
  - rewrite bind_info, bind_setOutput. reflexivity.
  - cbn [fst snd]. rewrite bind_error. reflexivity.
Qed.

(** C7.  The clear operation makes exactly one request, a bulk set with an
    empty list of variables.  When the request succeeds the run reports
    [deleted_count = "all"] and [failed_count = 0], whatever the remote
    holds, and is not marked failed.  When the request is rejected the
    error is not recovered from: no request follows, no output is set and
    the run is marked failed with the message of the error. *)
Theorem clear_reports_all (P : Platform) :
  supplied P = true ->
  operationOf P = str "clear" ->
  let call := bulkSetEnvironmentVariables
                (organisationOf P) (appNameOf P) (environmentNameOf P) [] in
  requests (run P) = [call]
  /\ (forall data, api P (clientOf P) [] call = Resolved data ->
        outputs (run P) = [(str "deleted_count", OutText (str "all"));
                           (str "failed_count", OutNumber 0)]
        /\ failures (run P) = [])
  /\ (forall e, api P (clientOf P) [] call = Rejected e ->
        outputs (run P) = [] /\ failures (run P) = [failureMessage e]).
Proof.
  intros Hs Hop call.
  rewrite (run_supplied P Hs). unfold dispatch. rewrite Hop.
  change (jseqb (str "clear") (str "list")) with false.
  change (jseqb (str "clear") (str "clear")) with true.
  cbv iota. rewrite runClear_run. fold call.
  destruct (api P (clientOf P) [] call) as [data | e];
    (split; [reflexivity | split; intros x Hx; inversion Hx; subst; split; reflexivity]).
Qed.

Lemma clear_reports_all_witness :
  outputs (run (examplePlatform [("operation", "clear")]%string))
  = [(str "deleted_count", OutText (str "all")); (str "failed_count", OutNumber 0)]
  /\ failures (run (examplePlatform [("operation", "clear")]%string)) = [].
Proof.
  exact (proj1 (proj2 (clear_reports_all
           (examplePlatform [("operation", "clear")]%string)
           eq_refl eq_refl)) None eq_refl).
Defined.

(** ** Delete *)

Lemma count_split {A : Type} (f : A -> bool) (l : list A) :
  (count f l + count (fun x => negb (f x)) l)%nat = List.length l.
Proof.
  unfold count. induction l as [| x l IH]; cbn; trivial.
  destruct (f x); cbn; lia.
Qed.

Lemma replay_length answer h calls :
  List.length (replay answer h calls) = List.length calls.
Proof.
  revert h. induction calls as [| c r IH]; intros h; cbn; trivial.
  now rewrite IH.
Qed.

Lemma for_of_cons {A S : Type} (x : A) (l : list A) (body : S -> A -> M S) s h :
  for_of (x :: l) body s h = bind (body s x) (fun s' => for_of l body s') h.
Proof. reflexivity. Qed.

Section DeleteLoop.

Variable P : Platform.
Variables (client : Configuration) (organisation appName environmentName : jsstring).

Lemma deleteKey_run deleted failed key h :
  let c := deleteEnvironmentVariable organisation appName environmentName key in
  exists t,
    deleteKey P client organisation appName environmentName (deleted, failed) key h
    = (Request c :: t,
       if resolved (api P client h c) || notFound (api P client h c)
       then Value (S deleted, failed) else Value (deleted, S failed))
    /\ requests t = [] /\ outputs t = [] /\ failures t = [].
Proof.
  intros c. unfold deleteKey, try_catch. rewrite bind_await. fold c.
  destruct (api P client h c) as [data | e]; cbn [resolved notFound orb fst snd].
  - rewrite bind_info. eexists. split; [reflexivity | now cbn].
  - destruct (match statusCode e with Some c => c =? 404 | None => false end).
    + rewrite bind_info. eexists. split; [reflexivity | now cbn].
    + rewrite bind_warning. eexists. split; [reflexivity | now cbn].
Qed.

(** The loop requests the deletion of every key in turn, whatever the
    answers, and counts each answer once. *)
Lemma delete_loop keys : forall deleted failed h,
  let calls := map (deleteEnvironmentVariable organisation appName environmentName) keys in
  let rs := replay (api P client) h calls in
  exists t,
    for_of keys (deleteKey P client organisation appName environmentName)
      (deleted, failed) h
    = (t, Value ((deleted + count (fun r => resolved r || notFound r) rs)%nat,
                 (failed + count (fun r => negb (resolved r || notFound r)) rs)%nat))
    /\ requests t = calls /\ outputs t = [] /\ failures t = [].
Proof.
  induction keys as [| key rest IH]; intros deleted failed h calls rs.
  - exists []. cbn. now rewrite !Nat.add_0_r.
  - rewrite for_of_cons.
    destruct (deleteKey_run deleted failed key h) as (t1 & E1 & R1 & O1 & F1).
    subst rs calls. cbn [map replay].
    set (c := deleteEnvironmentVariable organisation appName environmentName key) in *.
    assert (Hh : h ++ requests (Request c :: t1) = h ++ [c])
      by (change (h ++ c :: requests t1 = h ++ [c]); now rewrite R1).
    destruct (resolved (api P client h c) || notFound (api P client h c)) eqn:Hr;
      rewrite (bind_value _ _ _ _ _ E1), Hh.
    + destruct (IH (S deleted) failed (h ++ [c])) as (t2 & E2 & R2 & O2 & F2).
      rewrite E2. eexists. split.
      * cbn [fst snd]. f_equal. f_equal. unfold count. cbn [filter]. rewrite Hr.
        cbn [negb]. f_equal; cbn [List.length]; lia.
      * cbn [fst].
        change (Request c :: t1) with ([Request c] ++ t1).
        rewrite !requests_app, !outputs_app, !failures_app, R1, R2, O1, O2, F1, F2.
        now cbn.
    + destruct (IH deleted (S failed) (h ++ [c])) as (t2 & E2 & R2 & O2 & F2).
      rewrite E2. eexists. split.
      * cbn [fst snd]. f_equal. f_equal. unfold count. cbn [filter]. rewrite Hr.
        cbn [negb]. f_equal; cbn [List.length]; lia.
      * cbn [fst].
        change (Request c :: t1) with ([Request c] ++ t1).
        rewrite !requests_app, !outputs_app, !failures_app, R1, R2, O1, O2, F1, F2.
        now cbn.
Qed.

End DeleteLoop.

Lemma truthy_nonempty (s : jsstring) : s <> [] -> truthy s = true.
Proof. destruct s; [congruence | reflexivity]. Qed.

Lemma length_eqb_nonempty {A : Type} (l : list A) :
  l <> [] -> (List.length l =? 0)%nat = false.
Proof. destruct l; [congruence | reflexivity]. Qed.

(** C4.  The delete operation requests the deletion of every key of the
    key list, in order and whatever the earlier answers were.  An answer
    counts toward [deleted_count] when the request succeeded or was
    rejected with status 404, and toward [failed_count] otherwise; both
    counts are set after the last key and add up to the number of keys.
    The run is never marked failed, also when [failed_count] is positive:
    with three keys of which one fails otherwise than by a 404, the
    outputs are [deleted_count = 2] and [failed_count = 1]. *)
Theorem delete_counts_and_succeeds (P : Platform) :
  supplied P = true ->
  operationOf P = str "delete" ->
  let keys := parseKeys (input P (str "keys")) in
  keys <> [] ->
  let calls := map (deleteEnvironmentVariable
                      (organisationOf P) (appNameOf P) (environmentNameOf P)) keys in
  let answers := replay (api P (clientOf P)) [] calls in
  let deleted := count (fun r => resolved r || notFound r) answers in
  let failed := count (fun r => negb (resolved r || notFound r)) answers in
  requests (run P) = calls
  /\ outputs (run P) = [(str "deleted_count", OutNumber deleted);
                        (str "failed_count", OutNumber failed)]
  /\ failures (run P) = []
  /\ (deleted + failed)%nat = List.length keys
  /\ (List.length keys = 3%nat -> failed = 1%nat ->
      outputs (run P) = [(str "deleted_count", OutNumber 2);
                         (str "failed_count", OutNumber 1)]
      /\ failures (run P) = []).
Proof.
  intros Hs Hop keys Hkeys calls answers deleted failed.
  assert (Hsum : (deleted + failed)%nat = List.length keys).
  { unfold deleted, failed. rewrite count_split. unfold answers.
    rewrite replay_length. apply length_map. }
  assert (Hin : truthy (rawInput P (str "keys")) = true).
  { apply truthy_trim. fold (input P (str "keys")).
    apply truthy_nonempty. intros E. apply Hkeys. unfold keys. now rewrite E. }
  assert (Hrun : requests (run P) = calls
                 /\ outputs (run P) = [(str "deleted_count", OutNumber deleted);
                                       (str "failed_count", OutNumber failed)]
                 /\ failures (run P) = []).
  { rewrite (run_supplied P Hs). unfold dispatch. rewrite Hop.
    change (jseqb (str "delete") (str "list")) with false.
    change (jseqb (str "delete") (str "clear")) with false.
    change (jseqb (str "delete") (str "delete")) with true.
    cbv iota. unfold runDelete.
    rewrite (bind_getInput_required P _ _ _ Hin). fold keys.
    rewrite (length_eqb_nonempty keys Hkeys), bind_info.
    destruct (delete_loop P (clientOf P) (organisationOf P) (appNameOf P)
                (environmentNameOf P) keys 0%nat 0%nat [])
      as (t & E & R & O & F).
    rewrite (bind_value _ _ _ _ _ E). cbn beta iota zeta.
    rewrite bind_info, bind_setOutput. cbn [fst snd finish setOutput perform].
    fold calls in R. cbn [Nat.add].
    unfold banner.
    repeat split; read_trace; rewrite ?R, ?O, ?F; cbn [app];
      rewrite ?app_nil_r; reflexivity. }
  destruct Hrun as (R & O & F).
  split; [exact R |]. split; [exact O |]. split; [exact F |].
  split; [exact Hsum |].
  intros H3 H1. rewrite H3, H1 in Hsum. split; [| exact F].
  rewrite O, H1. now replace deleted with 2%nat by lia.
Qed.

Lemma delete_counts_and_succeeds_witness :
  outputs (run (examplePlatform
                  [("operation", "delete"); ("keys", "A,B,C")]%string))
  = [(str "deleted_count", OutNumber 2); (str "failed_count", OutNumber 1)]
  /\ failures (run (examplePlatform
                      [("operation", "delete"); ("keys", "A,B,C")]%string)) = [].
Proof.
  refine (proj2 (proj2 (proj2 (proj2 (delete_counts_and_succeeds
            (examplePlatform [("operation", "delete"); ("keys", "A,B,C")]%string)
            eq_refl eq_refl _)))) eq_refl eq_refl).
  discriminate.
Defined.

(** ** The merger as a computation *)

Section MergerEffects.

Variable P : Platform.
Variables envFile jsonVars variables : jsstring.

(** [parseVariables] makes no request and does not depend on the requests
    made before it. *)
Lemma parseVariables_history h :
  parseVariables P envFile jsonVars variables h
  = parseVariables P envFile jsonVars variables [].
Proof.
  unfold parseVariables, bind, readFile, parseJson, info, perform, ret, throw.
  destruct (truthy envFile), (readFileSync P envFile), (truthy jsonVars),
    (JSON_parse jsonVars), (truthy variables); reflexivity.
Qed.

(** It only writes to the log. *)
Lemma parseVariables_quiet h :
  let t := fst (parseVariables P envFile jsonVars variables h) in
  requests t = [] /\ outputs t = [] /\ failures t = [] /\ warnings t = [].
Proof.
  unfold parseVariables, bind, readFile, parseJson, info, perform, ret, throw.
  destruct (truthy envFile), (readFileSync P envFile), (truthy jsonVars),
    (JSON_parse jsonVars), (truthy variables); cbn; auto.
Qed.

End MergerEffects.

Lemma parseVariables_no_source (P : Platform) h :
  parseVariables P [] [] [] h = ([], Value []).
Proof. reflexivity. Qed.

(** ** Set, merge mode *)

Section UpdateLoop.

Variable P : Platform.
Variables (client : Configuration) (organisation appName environmentName : jsstring).
Variable vars : Obj.

Lemma updateKey_run updated failed key h :
  let c := updateEnvironmentVariable organisation appName environmentName key
             (get vars key) in
  exists t,
    updateKey P client organisation appName environmentName vars
      (updated, failed) key h
    = (Request c :: t,
       if resolved (api P client h c)
       then Value (S updated, failed) else Value (updated, S failed))
    /\ requests t = [] /\ outputs t = [] /\ failures t = [].
Proof.
  intros c. unfold updateKey, try_catch. rewrite bind_await. fold c.
  destruct (api P client h c) as [data | e]; cbn [resolved fst snd].
  - rewrite bind_info. eexists. split; [reflexivity | now cbn].
  - rewrite bind_warning. eexists. split; [reflexivity | now cbn].
Qed.

(** The loop requests an update for every key in turn, whatever the
    answers, and counts each answer once. *)
Lemma update_loop keys : forall updated failed h,
  let calls := map (fun key => updateEnvironmentVariable organisation appName
                                 environmentName key (get vars key)) keys in
  let rs := replay (api P client) h calls in
  exists t,
    for_of keys (updateKey P client organisation appName environmentName vars)
      (updated, failed) h
    = (t, Value ((updated + count resolved rs)%nat,
                 (failed + count rejected rs)%nat))
    /\ requests t = calls /\ outputs t = [] /\ failures t = [].
Proof.
  induction keys as [| key rest IH]; intros updated failed h calls rs.
  - exists []. cbn. now rewrite !Nat.add_0_r.
  - rewrite for_of_cons.
    destruct (updateKey_run updated failed key h) as (t1 & E1 & R1 & O1 & F1).
    subst rs calls. cbn [map replay].
    set (c := updateEnvironmentVariable organisation appName environmentName key
                (get vars key)) in *.
    assert (Hh : h ++ requests (Request c :: t1) = h ++ [c])
      by (rewrite requests_cons, R1; reflexivity).
    destruct (resolved (api P client h c)) eqn:Hr;
      rewrite (bind_value _ _ _ _ _ E1), Hh.
    + destruct (IH (S updated) failed (h ++ [c])) as (t2 & E2 & R2 & O2 & F2).
      rewrite E2. eexists. split.
      * cbn [fst snd]. f_equal. f_equal. unfold count, rejected. cbn [filter].
        rewrite Hr. cbn [negb]. f_equal; cbn [List.length]; lia.
      * cbn [fst]. read_trace. now rewrite R1, R2, O1, O2, F1, F2.
    + destruct (IH updated (S failed) (h ++ [c])) as (t2 & E2 & R2 & O2 & F2).
      rewrite E2. eexists. split.
      * cbn [fst snd]. f_equal. f_equal. unfold count, rejected. cbn [filter].
        rewrite Hr. cbn [negb]. f_equal; cbn [List.length]; lia.
      * cbn [fst]. read_trace. now rewrite R1, R2, O1, O2, F1, F2.
Qed.

End UpdateLoop.

Lemma anySource_of_merged (P : Platform) (vars : Obj) :
  snd (mergedOf P) = Value vars -> vars <> [] -> anySource P = true.
Proof.
  intros E Hne. unfold anySource.
  destruct (envFileOf P) eqn:Ef; [| reflexivity].
  destruct (jsonVarsOf P) eqn:Ej; [| reflexivity].
  destruct (variablesOf P) eqn:Ev; [| reflexivity].
  unfold mergedOf in E. rewrite Ef, Ej, Ev in E. cbn in E. congruence.
Qed.

(** The set operation up to the point where the merged mapping is known. *)
Lemma runSet_merged (P : Platform) client organisation appName environmentName
    replace (vars : Obj) :
  anySource P = true ->
  snd (mergedOf P) = Value vars ->
  let rest := applyVariables P client organisation appName environmentName
                replace vars [] in
  exists t0,
    requests t0 = [] /\ outputs t0 = [] /\ failures t0 = [] /\ warnings t0 = []
    /\ runSet P client organisation appName environmentName replace []
       = (t0 ++ fst rest, snd rest).
Proof.
  intros Hany E rest.
  destruct (parseVariables_quiet P (envFileOf P) (jsonVarsOf P) (variablesOf P) [])
    as (R & O & F & W).
  exists (fst (mergedOf P)). repeat (split; [assumption |]).
  subst rest. unfold runSet. rewrite !bind_getInput_optional.
  fold (envFileOf P) (jsonVarsOf P) (variablesOf P).
  assert (Hm : parseVariables P (envFileOf P) (jsonVarsOf P) (variablesOf P) []
               = (fst (mergedOf P), Value vars))
    by (rewrite <- E; apply surjective_pairing).
  unfold anySource in Hany.
  destruct (truthy (envFileOf P)), (truthy (jsonVarsOf P)), (truthy (variablesOf P));
    try discriminate Hany; cbn [negb andb];
    rewrite (bind_value _ _ _ _ _ Hm); unfold mergedOf; rewrite R; reflexivity.
Qed.

Lemma try_catch_value {A : Type} (m : M A) (handler : ApiError -> M A) h t a :
  m h = (t, Value a) -> try_catch m handler h = (t, Value a).
Proof. intros E. unfold try_catch. now rewrite E. Qed.

Lemma try_catch_thrown {A : Type} (m : M A) (handler : ApiError -> M A) h t e :
  m h = (t, Thrown e) ->
  try_catch m handler h
  = (t ++ fst (handler e (h ++ requests t)), snd (handler e (h ++ requests t))).
Proof. intros E. unfold try_catch. rewrite E. now destruct (handler e _). Qed.

(** A loop that only logs one line per key. *)
Lemma log_loop (f : jsstring -> jsstring) (keys : list jsstring) h :
  for_of keys (fun (_ : unit) key => info (f key)) tt h
  = (map (fun key => Info (f key)) keys, Value tt).
Proof.
  revert h. induction keys as [| key rest IH]; intros h; [reflexivity |].
  rewrite for_of_cons, bind_info, IH. reflexivity.
Qed.

Lemma requests_infos (f : jsstring -> jsstring) (keys : list jsstring) :
  requests (map (fun key => Info (f key)) keys) = []
  /\ outputs (map (fun key => Info (f key)) keys) = []
  /\ failures (map (fun key => Info (f key)) keys) = [].
Proof. induction keys; cbn; auto. Qed.

Section ApplyVariables.

Variable P : Platform.
Variables (client : Configuration) (organisation appName environmentName : jsstring).

Lemma applyVariables_empty replace h :
  applyVariables P client organisation appName environmentName replace [] h
  = ([Warning (str "No variables to set")], Value tt).
Proof. reflexivity. Qed.

Lemma applyVariables_merge (vars : Obj) h :
  vars <> [] ->
  let calls := map (fun key => updateEnvironmentVariable organisation appName
                                 environmentName key (get vars key))
                 (Object_keys vars) in
  let answers := replay (api P client) h calls in
  let updated := count resolved answers in
  let failed := count rejected answers in
  exists t,
    applyVariables P client organisation appName environmentName false vars h
    = (t, if (0 <? failed)%nat
          then Thrown (newError (str "Failed to set " ++ decimal failed
                                   ++ str " variable(s)"))
          else Value tt)
    /\ requests t = calls
    /\ outputs t = [(str "updated_count", OutNumber updated);
                    (str "failed_count", OutNumber failed)]
    /\ failures t = [].
Proof.
  intros Hne calls answers updated failed.
  unfold applyVariables.
  assert (Hk : Object_keys vars <> [])
    by (destruct vars; [congruence | discriminate]).
  rewrite (length_eqb_nonempty _ Hk), bind_info.
  destruct (update_loop P client organisation appName environmentName vars
              (Object_keys vars) 0%nat 0%nat h) as (t & E & R & O & F).
  cbn [Nat.add] in E. fold calls answers updated failed in E, R.
  set (body := bind (for_of _ _ _) _).
  assert (Hbody : body h
            = (t ++ [Info (str "Set " ++ decimal updated ++ str " variable(s), "
                            ++ decimal failed ++ str " failed");
                     SetOutput (str "updated_count") (OutNumber updated);
                     SetOutput (str "failed_count") (OutNumber failed)],
               if (0 <? failed)%nat
               then Thrown (newError (str "Failed to set " ++ decimal failed
                                        ++ str " variable(s)"))
               else Value tt)).
  { subst body. rewrite (bind_value _ _ _ _ _ E). cbn beta iota zeta.
    rewrite bind_info, bind_setOutput. unfold bind, setOutput, perform.
    destruct (0 <? failed)%nat; reflexivity. }
  destruct (0 <? failed)%nat.
  - rewrite (try_catch_thrown _ _ _ _ _ Hbody). cbn [fst snd].
    eexists. split; [reflexivity |].
    read_trace. rewrite R, O, F, !app_nil_r. auto.
  - rewrite (try_catch_value _ _ _ _ _ Hbody). cbn [fst snd].
    eexists. split; [reflexivity |].
    read_trace. rewrite R, O, F, !app_nil_r. auto.
Qed.

Lemma applyVariables_replace (vars : Obj) h :
  vars <> [] ->
  let keys := Object_keys vars in
  let call := bulkSetEnvironmentVariables organisation appName environmentName
                (map (fun key => (key, get vars key)) keys) in
  exists t,
    applyVariables P client organisation appName environmentName true vars h
    = (t, match api P client h call with
          | Resolved _ => Value tt
          | Rejected e => Thrown e
          end)
    /\ requests t = [call]
    /\ outputs t
       = match api P client h call with
         | Resolved _ => [(str "updated_count", OutNumber (List.length keys));
                          (str "failed_count", OutNumber 0)]
         | Rejected _ => [(str "updated_count", OutNumber 0);
                          (str "failed_count", OutNumber (List.length keys))]
         end
    /\ failures t = [].
Proof.
  intros Hne keys call.
  unfold applyVariables. fold keys.
  assert (Hk : keys <> []) by (destruct vars; [congruence | discriminate]).
  rewrite (length_eqb_nonempty _ Hk), bind_info.
  set (body := bind (await _ _ _) _).
  destruct (api P client h call) as [data | e] eqn:Hapi.
  - assert (Hbody : body h
              = (Request call
                 :: Info (CHECK_MARK :: str " Successfully replaced all variables with "
                            ++ decimal (List.length keys) ++ str " new variable(s)")
                 :: map (fun key => Info (str "  - " ++ key)) keys
                 ++ [SetOutput (str "updated_count") (OutNumber (List.length keys));
                     SetOutput (str "failed_count") (OutNumber 0)],
                 Value tt)).
    { subst body. rewrite bind_await. fold call. rewrite Hapi.
      rewrite bind_info.
      rewrite (bind_value _ _ _ _ _ (log_loop (fun key => str "  - " ++ key) keys _)).
      rewrite bind_setOutput. reflexivity. }
    rewrite (try_catch_value _ _ _ _ _ Hbody). cbn [fst snd].
    eexists. split; [reflexivity |].
    destruct (requests_infos (fun key => str "  - " ++ key) keys) as (R & O & F).
    cbv beta in R, O, F. unfold jsstring in R, O, F. read_trace. rewrite R, O, F. auto.
  - assert (Hbody : body h = ([Request call], Thrown e)).
    { subst body. rewrite bind_await. fold call. now rewrite Hapi. }
    rewrite (try_catch_thrown _ _ _ _ _ Hbody). cbn [fst snd].
    rewrite bind_value with (t := [LogError (str "Failed to set variables: " ++ describe e);
                                   SetOutput (str "updated_count") (OutNumber 0);
                                   SetOutput (str "failed_count") (OutNumber (List.length keys))])
                            (a := tt)
      by (rewrite bind_error, bind_setOutput; reflexivity).
    cbn [fst snd throw app].
    eexists. split; [reflexivity |]. read_trace. auto.
Qed.

End ApplyVariables.

Ltac enter_set Hs Hop :=
  rewrite (run_supplied _ Hs); unfold dispatch; rewrite Hop;
  change (jseqb (str "set") (str "list")) with false;
  change (jseqb (str "set") (str "clear")) with false;
  change (jseqb (str "set") (str "delete")) with false;
  change (jseqb (str "set") (str "set")) with true;
  cbv iota.

(** C3.  In merge mode the set operation requests an update for every key
    of the merged mapping, in order and whatever the earlier answers were.
    After the last key it sets [updated_count] to the number of accepted
    updates and [failed_count] to the number of rejected ones; the two add
    up to the number of keys.  The run is marked failed exactly when
    [failed_count] is positive: with three keys and one rejection the
    outputs are [updated_count = 2] and [failed_count = 1] and the run is
    marked failed. *)
Theorem set_merge_counts_and_fails (P : Platform) (vars : Obj) :
  supplied P = true ->
  operationOf P = str "set" ->
  replaceOf P = false ->
  snd (mergedOf P) = Value vars ->
  vars <> [] ->
  let keys := Object_keys vars in
  let calls := map (fun key => updateEnvironmentVariable
                                 (organisationOf P) (appNameOf P)
                                 (environmentNameOf P) key (get vars key)) keys in
  let answers := replay (api P (clientOf P)) [] calls in
  let updated := count resolved answers in
  let failed := count rejected answers in
  requests (run P) = calls
  /\ outputs (run P) = [(str "updated_count", OutNumber updated);
                        (str "failed_count", OutNumber failed)]
  /\ (updated + failed)%nat = List.length keys
  /\ (failures (run P) <> [] <-> (0 < failed)%nat)
  /\ (List.length keys = 3%nat -> failed = 1%nat ->
      outputs (run P) = [(str "updated_count", OutNumber 2);
                         (str "failed_count", OutNumber 1)]
      /\ failures (run P) = [str "Failed to set 1 variable(s)"]).
Proof.
  intros Hs Hop Hrep E Hne keys calls answers updated failed.
  assert (Hsum : (updated + failed)%nat = List.length keys).
  { unfold updated, failed, rejected. rewrite count_split. unfold answers.
    rewrite replay_length. apply length_map. }
  assert (Hrun : requests (run P) = calls
                 /\ outputs (run P) = [(str "updated_count", OutNumber updated);
                                       (str "failed_count", OutNumber failed)]
                 /\ failures (run P)
                    = if (0 <? failed)%nat
                      then [str "Failed to set " ++ decimal failed ++ str " variable(s)"]
                      else []).
  { enter_set Hs Hop. rewrite Hrep.
    destruct (runSet_merged P (clientOf P) (organisationOf P) (appNameOf P)
                (environmentNameOf P) false vars
                (anySource_of_merged P vars E Hne) E)
      as (t0 & R0 & O0 & F0 & _ & Erun).
    rewrite Erun.
    destruct (applyVariables_merge P (clientOf P) (organisationOf P) (appNameOf P)
                (environmentNameOf P) vars [] Hne) as (t & Eapp & R & O & F).
    fold keys calls answers updated failed in Eapp, R, O.
    rewrite Eapp. cbn [fst snd]. unfold banner.
    destruct (0 <? failed)%nat; cbn [finish]; read_trace;
      rewrite R0, O0, F0, R, O, F, ?app_nil_r; auto. }
  destruct Hrun as (R & O & F).
  split; [exact R |]. split; [exact O |]. split; [exact Hsum |]. split.
  - rewrite F. destruct (0 <? failed)%nat eqn:Hf.
    + apply Nat.ltb_lt in Hf. split; [trivial | discriminate].
    + apply Nat.ltb_ge in Hf. split; [congruence | lia].
  - intros H3 H1. rewrite H3, H1 in Hsum. rewrite O, F, H1.
    now replace updated with 2%nat by lia.
Qed.

Lemma set_merge_counts_and_fails_witness :
  outputs (run (examplePlatform
                  [("operation", "set"); ("variables", "A=1,B=2,C=3")]%string))
  = [(str "updated_count", OutNumber 2); (str "failed_count", OutNumber 1)]
  /\ failures (run (examplePlatform
                      [("operation", "set"); ("variables", "A=1,B=2,C=3")]%string))
     = [str "Failed to set 1 variable(s)"].
Proof.
  refine (proj2 (proj2 (proj2 (proj2 (set_merge_counts_and_fails
            (examplePlatform [("operation", "set"); ("variables", "A=1,B=2,C=3")]%string)
            [(str "A", VStr (str "1")); (str "B", VStr (str "2"));
             (str "C", VStr (str "3"))]
            eq_refl eq_refl eq_refl eq_refl _)))) eq_refl eq_refl).
  discriminate.
Defined.

(** ** Set, replace mode *)

Lemma jseqb_refl (a : jsstring) : jseqb a a = true.
Proof. induction a as [| x a IH]; cbn; [trivial |]. now rewrite N.eqb_refl. Qed.

Lemma jseqb_eq (a b : jsstring) : jseqb a b = true -> a = b.
Proof.
  revert b. induction a as [| x a IH]; intros [| y b] H; cbn in H;
    try discriminate; trivial.
  apply andb_prop in H as [Hx Hab]. apply N.eqb_eq in Hx.
  now rewrite Hx, (IH b Hab).
Qed.

Lemma lookup_In (k : jsstring) (o : Obj) (v : jsval) :
  lookup k o = Some v -> In k (Object_keys o).
Proof.
  induction o as [| [k' v'] o IH]; cbn; [discriminate |].
  destruct (jseqb k' k) eqn:Hk; [left; now apply jseqb_eq | auto].
Qed.

Lemma get_lookup (k : jsstring) (o : Obj) (v : jsval) :
  lookup k o = Some v -> get o k = v.
Proof. unfold get. now intros ->. Qed.

(** C5.  In replace mode the set operation makes exactly one request, a
    bulk set whose entries are the keys of the merged mapping, each with
    the value the mapping holds for it, so that the whole mapping is
    sent.  When the request succeeds the outputs are [updated_count] =
    the size of the mapping and [failed_count = 0], and the run is not
    marked failed.  When it is rejected the outputs are
    [updated_count = 0] and [failed_count] = the size of the mapping, and
    the run is marked failed with the message of the error. *)
Theorem set_replace_single_bulk (P : Platform) (vars : Obj) :
  supplied P = true ->
  operationOf P = str "set" ->
  replaceOf P = true ->
  snd (mergedOf P) = Value vars ->
  vars <> [] ->
  let keys := Object_keys vars in
  let entries := map (fun key => (key, get vars key)) keys in
  let call := bulkSetEnvironmentVariables
                (organisationOf P) (appNameOf P) (environmentNameOf P) entries in
  requests (run P) = [call]
  /\ (forall k v, lookup k vars = Some v -> In (k, v) entries)
  /\ List.length entries = List.length vars
  /\ (forall data, api P (clientOf P) [] call = Resolved data ->
        outputs (run P) = [(str "updated_count", OutNumber (List.length vars));
                           (str "failed_count", OutNumber 0)]
        /\ failures (run P) = [])
  /\ (forall e, api P (clientOf P) [] call = Rejected e ->
        outputs (run P) = [(str "updated_count", OutNumber 0);
                           (str "failed_count", OutNumber (List.length vars))]
        /\ failures (run P) = [failureMessage e]).
Proof.
  intros Hs Hop Hrep E Hne keys entries call.
  assert (Hlen : List.length keys = List.length vars) by apply length_map.
  assert (Hrun : requests (run P) = [call]
            /\ outputs (run P)
               = match api P (clientOf P) [] call with
                 | Resolved _ => [(str "updated_count", OutNumber (List.length vars));
                                  (str "failed_count", OutNumber 0)]
                 | Rejected _ => [(str "updated_count", OutNumber 0);
                                  (str "failed_count", OutNumber (List.length vars))]
                 end
            /\ failures (run P)
               = match api P (clientOf P) [] call with
                 | Resolved _ => []
                 | Rejected e => [failureMessage e]
                 end).
  { enter_set Hs Hop. rewrite Hrep.
    destruct (runSet_merged P (clientOf P) (organisationOf P) (appNameOf P)
                (environmentNameOf P) true vars
                (anySource_of_merged P vars E Hne) E)
      as (t0 & R0 & O0 & F0 & _ & Erun).
    rewrite Erun.
    destruct (applyVariables_replace P (clientOf P) (organisationOf P) (appNameOf P)
                (environmentNameOf P) vars [] Hne) as (t & Eapp & R & O & F).
    fold keys entries call in Eapp, R, O. rewrite Hlen in O.
    rewrite Eapp. cbn [fst snd]. unfold banner.
    destruct (api P (clientOf P) [] call); cbn [finish]; read_trace;
      rewrite R0, O0, F0, R, O, F, ?app_nil_r; auto. }
  destruct Hrun as (R & O & F).
  split; [exact R |]. split; [| split; [| split]].
  - intros k v Hk. unfold entries. apply in_map_iff. exists k. split.
    + now rewrite (get_lookup k vars v Hk).
    + now apply lookup_In with v.
  - unfold entries. now rewrite length_map.
  - intros data H. rewrite O, F, H. auto.
  - intros e H. rewrite O, F, H. auto.
Qed.

Lemma set_replace_single_bulk_witness :
  outputs (run (examplePlatform
                  [("operation", "set"); ("replace", "true");
                   ("variables", "A=1,B=2,C=3")]%string))
  = [(str "updated_count", OutNumber 3); (str "failed_count", OutNumber 0)]
  /\ failures (run (examplePlatform
                      [("operation", "set"); ("replace", "true");
                       ("variables", "A=1,B=2,C=3")]%string)) = [].
Proof.
  refine (proj1 (proj2 (proj2 (proj2 (set_replace_single_bulk
            (examplePlatform [("operation", "set"); ("replace", "true");
                              ("variables", "A=1,B=2,C=3")]%string)
            [(str "A", VStr (str "1")); (str "B", VStr (str "2"));
             (str "C", VStr (str "3"))]
            eq_refl eq_refl eq_refl eq_refl _)))) None eq_refl).
  discriminate.
Defined.

(** ** Set with an empty merged mapping *)

Lemma runSet_no_source (P : Platform) client organisation appName environmentName
    replace h :
  anySource P = false ->
  exists e,
    runSet P client organisation appName environmentName replace h = ([], Thrown e).
Proof.
  intros Hany. unfold runSet. rewrite !bind_getInput_optional.
  fold (envFileOf P) (jsonVarsOf P) (variablesOf P).
  unfold anySource in Hany.
  destruct (truthy (envFileOf P)), (truthy (jsonVarsOf P)), (truthy (variablesOf P));
    try discriminate Hany.
  eexists. reflexivity.
Qed.

Lemma runSet_parse_error (P : Platform) client organisation appName environmentName
    replace e :
  anySource P = true ->
  snd (mergedOf P) = Thrown e ->
  runSet P client organisation appName environmentName replace []
  = (fst (mergedOf P), Thrown e).
Proof.
  intros Hany E. unfold runSet. rewrite !bind_getInput_optional.
  fold (envFileOf P) (jsonVarsOf P) (variablesOf P).
  assert (Hm : parseVariables P (envFileOf P) (jsonVarsOf P) (variablesOf P) []
               = (fst (mergedOf P), Thrown e))
    by (rewrite <- E; apply surjective_pairing).
  unfold anySource in Hany.
  destruct (truthy (envFileOf P)), (truthy (jsonVarsOf P)), (truthy (variablesOf P));
    try discriminate Hany; cbn [negb andb];
    now rewrite (bind_thrown _ _ _ _ _ Hm).
Qed.

Lemma runBody_unsupplied (P : Platform) h :
  supplied P = false -> exists e, runBody P h = ([], Thrown e).
Proof.
  unfold supplied, runBody. intros H.
  destruct (truthy (rawInput P (str "api_key"))) eqn:Hk.
  2:{ unfold getInput at 1. rewrite Hk. eexists. reflexivity. }
  rewrite (bind_getInput_required P _ _ _ Hk).
  destruct (truthy (rawInput P (str "app_name"))) eqn:Ha.
  2:{ unfold getInput at 1. rewrite Ha. eexists. reflexivity. }
  rewrite (bind_getInput_required P _ _ _ Ha).
  destruct (truthy (rawInput P (str "organization"))) eqn:Ho.
  2:{ unfold getInput at 1. rewrite Ho. eexists. reflexivity. }
  rewrite (bind_getInput_required P _ _ _ Ho).
  destruct (truthy (rawInput P (str "environment_name"))) eqn:He.
  2:{ unfold getInput at 1. rewrite He. eexists. reflexivity. }
  discriminate H.
Qed.

(** C10.  When the set operation is given at least one source and the
    merged mapping has no key, the run logs the warning
    [No variables to set] and stops: it makes no request, sets no output
    and is not marked failed, in replace mode as in merge mode.  Hence no
    run of the set operation, whatever its inputs and whatever the
    platform answers, sends a bulk set with an empty list of variables. *)
Theorem set_empty_mapping_is_silent (P : Platform) :
  (supplied P = true ->
   operationOf P = str "set" ->
   anySource P = true ->
   snd (mergedOf P) = Value [] ->
   requests (run P) = [] /\ outputs (run P) = [] /\ failures (run P) = []
   /\ warnings (run P) = [str "No variables to set"])
  /\ (operationOf P = str "set" ->
      forall organisation appName environmentName,
        ~ In (bulkSetEnvironmentVariables organisation appName environmentName [])
             (requests (run P))).
Proof.
  split.
  - intros Hs Hop Hany E. enter_set Hs Hop.
    destruct (runSet_merged P (clientOf P) (organisationOf P) (appNameOf P)
                (environmentNameOf P) (replaceOf P) [] Hany E)
      as (t0 & R0 & O0 & F0 & W0 & Erun).
    rewrite Erun, applyVariables_empty. cbn [fst snd finish]. unfold banner.
    read_trace. rewrite R0, O0, F0, W0. auto.
  - intros Hop organisation appName environmentName.
    destruct (supplied P) eqn:Hs.
    2:{ rewrite run_finish.
        destruct (runBody_unsupplied P [] Hs) as (e & ->). cbn. tauto. }
    enter_set Hs Hop.
    destruct (anySource P) eqn:Hany.
    2:{ destruct (runSet_no_source P (clientOf P) (organisationOf P) (appNameOf P)
                    (environmentNameOf P) (replaceOf P) [] Hany) as (e & ->).
        cbn [fst snd finish]. unfold banner. read_trace. cbn. tauto. }
    destruct (parseVariables_quiet P (envFileOf P) (jsonVarsOf P) (variablesOf P) [])
      as (Rq & _).
    fold (mergedOf P) in Rq.
    destruct (snd (mergedOf P)) as [vars | e] eqn:E.
    2:{ rewrite (runSet_parse_error P _ _ _ _ _ e Hany E).
        cbn [fst snd finish]. unfold banner. read_trace. rewrite Rq. cbn. tauto. }
    destruct (runSet_merged P (clientOf P) (organisationOf P) (appNameOf P)
                (environmentNameOf P) (replaceOf P) vars Hany E)
      as (t0 & R0 & _ & _ & _ & Erun).
    rewrite Erun.
    destruct vars as [| p vars'].
    { rewrite applyVariables_empty. cbn [fst snd finish]. unfold banner.
      read_trace. rewrite R0. cbn. tauto. }
    assert (Hne : p :: vars' <> []) by discriminate.
    destruct (replaceOf P).
    + destruct (applyVariables_replace P (clientOf P) (organisationOf P) (appNameOf P)
                  (environmentNameOf P) (p :: vars') [] Hne) as (t & Eapp & R & _).
      rewrite Eapp. cbn [fst snd]. unfold banner.
      destruct (api P (clientOf P) [] _); cbn [finish]; read_trace;
        rewrite R0, R; cbn; intros [H | []]; discriminate H.
    + destruct (applyVariables_merge P (clientOf P) (organisationOf P) (appNameOf P)
                  (environmentNameOf P) (p :: vars') [] Hne) as (t & Eapp & R & _).
      rewrite Eapp. cbn [fst snd]. unfold banner.
      destruct (0 <? _)%nat; cbn [finish]; read_trace;
        rewrite R0, R, ?app_nil_r; cbn [app];
        (intros H; apply in_map_iff in H as (k & Hk & _); discriminate Hk).
Qed.

Lemma set_empty_mapping_is_silent_witness :
  requests (run (examplePlatform
                   [("operation", "set"); ("replace", "true");
                    ("json_vars", "{}")]%string)) = []
  /\ warnings (run (examplePlatform
                      [("operation", "set"); ("replace", "true");
                       ("json_vars", "{}")]%string))
     = [str "No variables to set"].
Proof.
  pose proof (proj1 (set_empty_mapping_is_silent
                (examplePlatform [("operation", "set"); ("replace", "true");
                                  ("json_vars", "{}")]%string))
              eq_refl eq_refl eq_refl eq_refl) as H.
  exact (conj (proj1 H) (proj2 (proj2 (proj2 H)))).
Defined.

(** * The parsers *)

(** ** Trimming *)

Lemma trimStart_blank_app (a s : jsstring) :
  blank a = true -> trimStart (a ++ s) = trimStart s.
Proof.
  induction a as [| c a IH]; cbn; [trivial |].
  intros H. apply andb_prop in H as [Hc Ha]. rewrite Hc. auto.
Qed.

Lemma trimStart_blank (a : jsstring) : blank a = true -> trimStart a = [].
Proof. intros H. rewrite <- (app_nil_r a). now rewrite trimStart_blank_app. Qed.

Lemma trimStart_solid (c : code_unit) (r : jsstring) :
  isWhiteSpace c = false -> trimStart (c :: r) = c :: r.
Proof. intros H. cbn. now rewrite H. Qed.

Lemma trimStart_split (s : jsstring) :
  exists a, s = a ++ trimStart s /\ blank a = true.
Proof.
  induction s as [| c s (a & E & Ha)].
  - now exists [].
  - cbn. destruct (isWhiteSpace c) eqn:Hc.
    + exists (c :: a). split; [cbn; now f_equal |].
      unfold blank in *. cbn. now rewrite Hc.
    + now exists [].
Qed.

Lemma trimStart_shape (s : jsstring) :
  trimStart s = []
  \/ exists c r, trimStart s = c :: r /\ isWhiteSpace c = false.
Proof.
  induction s as [| c s IH]; cbn; [now left |].
  destruct (isWhiteSpace c) eqn:Hc; [exact IH | right; eauto].
Qed.

Lemma blank_rev (a : jsstring) : blank (rev a) = blank a.
Proof.
  unfold blank. induction a as [| c a IH]; cbn; [trivial |].
  rewrite forallb_app, IH. cbn. rewrite andb_true_r. apply andb_comm.
Qed.

Lemma trimEnd_app_blank (s b : jsstring) :
  blank b = true -> trimEnd (s ++ b) = trimEnd s.
Proof.
  intros H. unfold trimEnd. rewrite rev_app_distr, trimStart_blank_app; trivial.
  now rewrite blank_rev.
Qed.

Lemma trimEnd_solid (s : jsstring) (c : code_unit) :
  isWhiteSpace c = false -> trimEnd (s ++ [c]) = s ++ [c].
Proof.
  intros H. unfold trimEnd. rewrite rev_app_distr. cbn. rewrite H. cbn.
  now rewrite rev_involutive.
Qed.

Lemma trimEnd_split (s : jsstring) :
  exists b, s = trimEnd s ++ b /\ blank b = true.
Proof.
  destruct (trimStart_split (rev s)) as (a & E & Ha).
  exists (rev a). split; [| now rewrite blank_rev].
  unfold trimEnd. rewrite <- rev_app_distr, <- E. now rewrite rev_involutive.
Qed.

Lemma trimEnd_shape (s : jsstring) :
  trimEnd s = []
  \/ exists r c, trimEnd s = r ++ [c] /\ isWhiteSpace c = false.
Proof.
  unfold trimEnd. destruct (trimStart_shape (rev s)) as [-> | (c & r & -> & Hc)].
  - now left.
  - right. exists (rev r), c. now cbn.
Qed.

Lemma trimEnd_idem (s : jsstring) : trimEnd (trimEnd s) = trimEnd s.
Proof.
  destruct (trimEnd_shape s) as [-> | (r & c & -> & Hc)]; [reflexivity |].
  now apply trimEnd_solid.
Qed.

Lemma trimEnd_cons (c : code_unit) (r : jsstring) :
  isWhiteSpace c = false -> trimEnd (c :: r) = c :: trimEnd r.
Proof.
  intros Hc. destruct (trimEnd_split r) as (b & E & Hb).
  rewrite E at 1. change (c :: trimEnd r ++ b) with ((c :: trimEnd r) ++ b).
  rewrite trimEnd_app_blank by exact Hb.
  destruct (trimEnd_shape r) as [-> | (r' & d & -> & Hd)].
  - now apply (trimEnd_solid [] c).
  - now apply (trimEnd_solid (c :: r') d).
Qed.

Lemma trim_blank (s : jsstring) : blank s = true -> trim s = [].
Proof. intros H. unfold trim. now rewrite trimStart_blank. Qed.

Lemma trim_cons_solid (c : code_unit) (r : jsstring) :
  isWhiteSpace c = false -> trim (c :: r) = c :: trimEnd r.
Proof.
  intros H. unfold trim. rewrite trimStart_solid by exact H.
  now apply trimEnd_cons.
Qed.

(** A trimmed string is empty or starts with a code unit that is not
    white space. *)
Lemma trim_shape (s : jsstring) :
  trim s = []
  \/ exists c r, trim s = c :: trimEnd r /\ isWhiteSpace c = false
                 /\ trimStart s = c :: r.
Proof.
  unfold trim. destruct (trimStart_shape s) as [-> | (c & r & E & Hc)].
  - now left.
  - right. exists c, r. rewrite E. split; [now apply trimEnd_cons | auto].
Qed.

Lemma trim_idem (s : jsstring) : trim (trim s) = trim s.
Proof.
  destruct (trim_shape s) as [-> | (c & r & -> & Hc & _)]; [reflexivity |].
  rewrite trim_cons_solid by exact Hc. now rewrite trimEnd_idem.
Qed.

Lemma trim_blank_app (a s : jsstring) : blank a = true -> trim (a ++ s) = trim s.
Proof. intros H. unfold trim. now rewrite trimStart_blank_app. Qed.

Lemma trim_app_blank (s b : jsstring) : blank b = true -> trim (s ++ b) = trim s.
Proof.
  intros Hb. destruct (trimStart_split s) as (a & E & Ha).
  rewrite E at 1. rewrite <- app_assoc, trim_blank_app by exact Ha.
  destruct (trimStart_shape s) as [E0 | (c & r & E0 & Hc)]; rewrite E0.
  - cbn [app]. rewrite trim_blank by exact Hb. unfold trim. now rewrite E0.
  - change ((c :: r) ++ b) with (c :: r ++ b).
    rewrite trim_cons_solid by exact Hc. rewrite trimEnd_app_blank by exact Hb.
    unfold trim. rewrite E0. symmetry. now apply trimEnd_cons.
Qed.

Lemma trim_trimEnd (s : jsstring) : trim (trimEnd s) = trim s.
Proof.
  destruct (trimEnd_split s) as (b & E & Hb).
  rewrite E at 2. now rewrite trim_app_blank.
Qed.

Lemma trim_split (s : jsstring) :
  exists a b, s = a ++ trim s ++ b /\ blank a = true /\ blank b = true.
Proof.
  destruct (trimStart_split s) as (a & E & Ha).
  destruct (trimEnd_split (trimStart s)) as (b & E' & Hb).
  exists a, b. unfold trim. rewrite <- E'. auto.
Qed.

(** ** Splitting *)

Lemma split_nonempty (sep : code_unit -> bool) (s : jsstring) :
  exists h t, split sep s = h :: t.
Proof.
  induction s as [| c s (h & t & E)]; cbn; [now eauto |].
  destruct (sep c); [now eauto |]. rewrite E. eauto.
Qed.

Lemma split_none (sep : code_unit -> bool) (s : jsstring) :
  noneOf sep s = true -> split sep s = [s].
Proof.
  induction s as [| c s IH]; cbn; [trivial |].
  intros H. apply andb_prop in H as [Hc Hs].
  destruct (sep c); [discriminate |]. now rewrite IH.
Qed.

Lemma split_app (sep : code_unit -> bool) (s r : jsstring) (c : code_unit) :
  noneOf sep s = true -> sep c = true ->
  split sep (s ++ c :: r) = s :: split sep r.
Proof.
  intros Hs Hc. induction s as [| x s IH]; cbn.
  - now rewrite Hc.
  - cbn in Hs. apply andb_prop in Hs as [Hx Hs].
    destruct (sep x); [discriminate |]. now rewrite IH.
Qed.

Lemma split_pieces (sep : code_unit -> bool) (s : jsstring) :
  Forall (fun p => noneOf sep p = true) (split sep s).
Proof.
  induction s as [| c s IH]; cbn; [now repeat constructor |].
  destruct (sep c) eqn:Hc; [now constructor |].
  destruct (split sep s) as [| h t]; [repeat constructor; cbn; now rewrite Hc |].
  inversion IH; subst. constructor; trivial. cbn. now rewrite Hc.
Qed.

Lemma join_cons (sep p : jsstring) (h : jsstring) (t : list jsstring) :
  join sep (p :: h :: t) = p ++ sep ++ join sep (h :: t).
Proof. reflexivity. Qed.

(** Splitting the lines joined by line feeds gives the lines back. *)
Lemma split_join (sep : code_unit -> bool) (c : code_unit)
    (l : jsstring) (ls : list jsstring) :
  sep c = true ->
  Forall (fun p => noneOf sep p = true) (l :: ls) ->
  split sep (join [c] (l :: ls)) = l :: ls.
Proof.
  intros Hc. revert l. induction ls as [| l' ls IH]; intros l H.
  - cbn. apply split_none. now inversion H.
  - rewrite join_cons. inversion H; subst. cbn [app].
    rewrite split_app; trivial. now rewrite IH.
Qed.

Lemma join_split (c : code_unit) (s : jsstring) :
  join [c] (split (fun x => x =? c) s) = s.
Proof.
  induction s as [| x s IH]; [reflexivity |]. cbn [split].
  destruct (split_nonempty (fun x => x =? c) s) as (h & t & E).
  rewrite E in *. destruct (x =? c) eqn:Hx.
  - apply N.eqb_eq in Hx. subst x. rewrite join_cons, IH. reflexivity.
  - destruct t as [| h' t]; cbn in *; now rewrite IH.
Qed.

(** ** The first equals sign *)

Lemma break_equals_some (s k v : jsstring) :
  break_equals s = Some (k, v) ->
  s = k ++ EQUALS :: v /\ noneOf isEquals k = true.
Proof.
  revert k. induction s as [| c s IH]; intros k; cbn; [discriminate |].
  destruct (c =? EQUALS) eqn:Hc.
  - intros [= <- <-]. apply N.eqb_eq in Hc. now subst c.
  - destruct (break_equals s) as [[k' v'] |]; [| discriminate].
    intros [= <- <-]. destruct (IH k' eq_refl) as [-> Hk].
    split; [reflexivity |]. cbn. unfold isEquals at 1. now rewrite Hc.
Qed.

Lemma break_equals_app (k v : jsstring) :
  noneOf isEquals k = true -> break_equals (k ++ EQUALS :: v) = Some (k, v).
Proof.
  induction k as [| c k IH]; cbn; [trivial |].
  intros H. apply andb_prop in H as [Hc Hk]. unfold isEquals in Hc.
  destruct (c =? EQUALS); [discriminate |]. now rewrite IH.
Qed.

Lemma break_equals_none (s : jsstring) :
  break_equals s = None -> noneOf isEquals s = true.
Proof.
  induction s as [| c s IH]; cbn; [trivial |]. unfold isEquals at 1.
  destruct (c =? EQUALS); [discriminate |].
  destruct (break_equals s) as [[k v] |]; [discriminate | auto].
Qed.

Lemma split_break_equals (s : jsstring) :
  split (fun c => c =? EQUALS) s
  = match break_equals s with
    | Some (k, v) => k :: split (fun c => c =? EQUALS) v
    | None => [s]
    end.
Proof.
  induction s as [| c s IH]; [reflexivity |]. cbn.
  destruct (c =? EQUALS); [reflexivity |]. rewrite IH.
  now destruct (break_equals s) as [[k v] |].
Qed.

(** ** The inline source *)

Lemma whitespace_not_equals (c : code_unit) :
  isWhiteSpace c = true -> isEquals c = false.
Proof.
  intros H. unfold isEquals. destruct (c =? EQUALS) eqn:E; [| reflexivity].
  apply N.eqb_eq in E. subst c. discriminate H.
Qed.

Lemma blank_no_equals (a : jsstring) : blank a = true -> noneOf isEquals a = true.
Proof.
  unfold blank, noneOf. induction a as [| c a IH]; cbn; [trivial |].
  intros H. apply andb_prop in H as [Hc Ha].
  now rewrite (whitespace_not_equals c Hc), IH.
Qed.

Lemma noneOf_app (bad : code_unit -> bool) (a b : jsstring) :
  noneOf bad (a ++ b) = noneOf bad a && noneOf bad b.
Proof. apply forallb_app. Qed.

Lemma noneOf_cons (bad : code_unit -> bool) (c : code_unit) (s : jsstring) :
  noneOf bad (c :: s) = negb (bad c) && noneOf bad s.
Proof. reflexivity. Qed.

Lemma break_equals_absent (s : jsstring) :
  noneOf isEquals s = true -> break_equals s = None.
Proof.
  induction s as [| c s IH]; cbn; [trivial |].
  intros H. apply andb_prop in H as [Hc Hs]. unfold isEquals in Hc.
  destruct (c =? EQUALS); [discriminate |]. now rewrite IH.
Qed.

(** What the loop body does with a pair, in terms of its first equals
    sign: [split] and [join] undo each other on the value. *)
Lemma setPair_first_equals (result : Obj) (pair : jsstring) :
  setPair result pair
  = match break_equals pair with
    | Some (k, v) => if truthy k then assign result (trim k) (trim v) else result
    | None => result
    end.
Proof.
  unfold setPair. rewrite split_break_equals.
  destruct (break_equals pair) as [[k v] |].
  - cbv iota. rewrite join_split.
    destruct (split_nonempty (fun c => c =? EQUALS) v) as (h & t & E).
    rewrite E. cbn [List.length Nat.ltb Nat.leb]. now rewrite andb_true_r.
  - cbn. now rewrite andb_false_r.
Qed.

(** Trimming the fragment first, as the specification does, or the key
    and the value afterwards, as the code does, comes to the same when
    the fragment has a key. *)
Lemma setPair_trimmed (result : Obj) (pair k v : jsstring) :
  break_equals (trim pair) = Some (k, v) ->
  truthy k = true ->
  setPair result pair = assign result (trim k) (trim v).
Proof.
  intros E Hk. destruct (trim_split pair) as (a & b & Ep & Ha & Hb).
  destruct (break_equals_some _ _ _ E) as [Et Hnk].
  rewrite setPair_first_equals, Ep, Et.
  replace (a ++ (k ++ EQUALS :: v) ++ b) with ((a ++ k) ++ EQUALS :: (v ++ b))
    by (now rewrite <- !app_assoc).
  rewrite break_equals_app
    by (rewrite noneOf_app, (blank_no_equals a Ha), Hnk; reflexivity).
  replace (truthy (a ++ k)) with true by (destruct a, k; trivial; discriminate).
  now rewrite trim_blank_app, trim_app_blank.
Qed.

Lemma setPair_no_equals (result : Obj) (pair : jsstring) :
  break_equals (trim pair) = None -> setPair result pair = result.
Proof.
  intros E. destruct (trim_split pair) as (a & b & Ep & Ha & Hb).
  rewrite setPair_first_equals, Ep, break_equals_absent; [reflexivity |].
  now rewrite !noneOf_app, (blank_no_equals a Ha), (blank_no_equals b Hb),
    (break_equals_none _ E).
Qed.

Lemma inline_refines (pieces : list jsstring) : forall result,
  Forall (fun f => startsWith f EQUALS = false) (filter truthy (map trim pieces)) ->
  fold_left setPair (filter (fun p => truthy (trim p)) pieces) result
  = fold_left inlineStep (filter truthy (map trim pieces)) result.
Proof.
  induction pieces as [| p pieces IH]; intros result H; [reflexivity |].
  cbn [map filter] in *. destruct (truthy (trim p)) eqn:Hp; [| now apply IH].
  inversion H as [| ? ? Hkey H']; subst. cbn [fold_left]. rewrite <- IH by exact H'.
  f_equal. unfold inlineStep, inlineEntry.
  destruct (break_equals (trim p)) as [[k v] |] eqn:E.
  - apply setPair_trimmed; trivial.
    destruct (break_equals_some _ _ _ E) as [Et _]. rewrite Et in Hkey.
    destruct k; [| reflexivity]. cbn in Hkey. discriminate Hkey.
  - now apply setPair_no_equals.
Qed.

Lemma setPair_pairOf (result : Obj) (pair : jsstring) :
  setPair result pair
  = fold_left (fun o p => assign o (fst p) (snd p)) (pairOf pair) result.
Proof.
  rewrite setPair_first_equals. unfold pairOf.
  destruct (break_equals pair) as [[k v] |]; [| reflexivity].
  now destruct (truthy k).
Qed.

Lemma setPairs_inlinePairs (raw : jsstring) (result : Obj) :
  setPairs result raw
  = fold_left (fun o p => assign o (fst p) (snd p)) (inlinePairs raw) result.
Proof.
  unfold setPairs, inlinePairs.
  change (fun c => (c =? LF) || (c =? COMMA)) with isDelimiter.
  generalize (filter (fun p => truthy (trim p)) (split isDelimiter raw)).
  intros frags. revert result.
  induction frags as [| f frags IH]; intros result; [reflexivity |].
  cbn [fold_left flat_map]. now rewrite fold_left_app, <- setPair_pairOf, IH.
Qed.

(** C9.  The inline source is split on line feeds and commas and the
    fragments that are blank once trimmed are skipped.  Every remaining
    fragment that has an equals sign and at least one character before
    its first equals sign is split there only; key and value are
    trimmed and the value is assigned to the key, so that the value
    keeps any further equals sign.  A fragment without an equals sign,
    or whose first character is the equals sign, sets nothing.  Where no
    trimmed fragment starts with an equals sign this is the procedure
    that trims the fragments first.  [A=1,B=2=3] gives [A] the value [1]
    and [B] the value [2=3]. *)
Theorem inline_split_at_first_equals :
  (forall (result : Obj) (variables : jsstring),
     setPairs result variables
     = fold_left (fun o p => assign o (fst p) (snd p))
         (inlinePairs variables) result)
  /\ (forall (result : Obj) (variables : jsstring),
        Forall (fun f => startsWith f EQUALS = false) (inlineFragments variables) ->
        setPairs result variables
        = fold_left inlineStep (inlineFragments variables) result)
  /\ (forall (result : Obj) (pair k v : jsstring),
        break_equals pair = Some (k, v) -> truthy k = true ->
        setPair result pair = assign result (trim k) (trim v))
  /\ (forall (result : Obj) (pair : jsstring),
        break_equals pair = None -> setPair result pair = result)
  /\ (forall (result : Obj) (v : jsstring),
        setPair result (EQUALS :: v) = result)
  /\ (forall (P : Platform) h,
        snd (parseVariables P [] [] (str "A=1,B=2=3") h)
        = Value [(str "A", VStr (str "1")); (str "B", VStr (str "2=3"))])
  /\ (forall (P : Platform) h,
        snd (parseVariables P [] [] (str "KEY1=value1" ++ [LF] ++ str "KEY2=value2") h)
        = Value [(str "KEY1", VStr (str "value1"));
                 (str "KEY2", VStr (str "value2"))]).
Proof.
  split; [| split; [| split; [| split; [| split; [| split; reflexivity]]]]].
  - intros result variables. apply setPairs_inlinePairs.
  - intros result variables H. apply inline_refines. exact H.
  - intros result pair k v E Hk. now rewrite setPair_first_equals, E, Hk.
  - intros result pair E. now rewrite setPair_first_equals, E.
  - intros result v. rewrite setPair_first_equals.
    cbn [break_equals]. now rewrite N.eqb_refl.
Qed.

Lemma inline_split_at_first_equals_witness :
  setPairs [] (str "A=1,B=2=3")
  = fold_left inlineStep [str "A=1"; str "B=2=3"] [].
Proof.
  refine (proj1 (proj2 inline_split_at_first_equals) [] (str "A=1,B=2=3") _).
  repeat constructor.
Defined.

(** The fragment [=x] has no key: the procedure that splits every
    fragment at its first equals sign gives the empty name the value
    [x], whereas the code sets nothing. *)
Lemma inline_fragment_without_key_is_skipped :
  fold_left inlineStep (inlineFragments (str "=x")) [] = [([], VStr (str "x"))]
  /\ setPairs [] (str "=x") = []
  /\ setPairs [] (str "=x")
     <> fold_left inlineStep (inlineFragments (str "=x")) [].
Proof.
  split; [reflexivity |]. split; [reflexivity |]. discriminate.
Qed.

(** ** Quotes in the env format *)

Lemma endsWith_last (s : jsstring) (q c : code_unit) :
  endsWith (s ++ [q]) c = (q =? c).
Proof. unfold endsWith. now rewrite rev_app_distr. Qed.

Lemma isQuote_cases (q : code_unit) :
  q = DQUOTE \/ q = SQUOTE ->
  ((q =? DQUOTE) && (q =? DQUOTE)) || ((q =? SQUOTE) && (q =? SQUOTE)) = true
  /\ isWhiteSpace q = false /\ isLineTerminator q = false.
Proof. intros [-> | ->]; repeat split. Qed.

Lemma unquote_wrapped (q : code_unit) (inner : jsstring) :
  q = DQUOTE \/ q = SQUOTE -> unquote (q :: inner ++ [q]) = inner.
Proof.
  intros Hq. unfold unquote.
  change (q :: inner ++ [q]) with ((q :: inner) ++ [q]) at 2 4.
  rewrite !endsWith_last. cbn [startsWith].
  rewrite (proj1 (isQuote_cases q Hq)). unfold slice_1_m1. cbn [tl].
  apply removelast_last.
Qed.

Lemma trim_wrapped (q : code_unit) (inner : jsstring) :
  isWhiteSpace q = false -> trim (q :: inner ++ [q]) = q :: inner ++ [q].
Proof.
  intros Hq. rewrite trim_cons_solid by exact Hq.
  now rewrite trimEnd_solid.
Qed.

Lemma parseEnvLine_quoted (result : Obj) (line m1 m2 : jsstring)
    (q : code_unit) (inner : jsstring) :
  truthy (trim line) = true ->
  startsWith (trim line) HASH = false ->
  match_key_value (trim line) = Some (m1, m2) ->
  trim m2 = q :: inner ++ [q] ->
  q = DQUOTE \/ q = SQUOTE ->
  parseEnvLine result line = assign result (trim m1) inner.
Proof.
  intros Ht Hh Hm Hv Hq. unfold parseEnvLine.
  rewrite Ht, Hh, Hm, Hv. cbn [negb orb]. now rewrite unquote_wrapped.
Qed.

Lemma parseEnvFile_one_line (line : jsstring) :
  noneOf isLF line = true -> parseEnvFile line = parseEnvLine [] line.
Proof.
  intros H. unfold parseEnvFile. change (fun c => c =? LF) with isLF.
  now rewrite split_none.
Qed.

Lemma lineTerminator_free_no_LF (s : jsstring) :
  noneOf isLineTerminator s = true -> noneOf isLF s = true.
Proof.
  unfold noneOf. induction s as [| c s IH]; cbn; [trivial |].
  intros H. apply andb_prop in H as [Hc Hs]. rewrite IH by exact Hs.
  unfold isLineTerminator in Hc. unfold isLF, LF.
  destruct (c =? 10); [discriminate | reflexivity].
Qed.

(** C8.  When the trimmed value of a line of the env format starts and
    ends with the same quote, double or single, and so is an inner text
    between a pair of quotes, that pair and nothing else is removed: the
    value assigned is the inner text as it stands, whatever it contains
    (backslashes, further quotes).  [KEY="hello world"] gives
    [hello world], [KEY='it''s'] gives [it''s]. *)
Theorem env_quotes_stripped :
  (forall (q : code_unit) (inner : jsstring),
     q = DQUOTE \/ q = SQUOTE -> unquote (q :: inner ++ [q]) = inner)
  /\ (forall (result : Obj) (line m1 m2 : jsstring) (q : code_unit)
             (inner : jsstring),
        truthy (trim line) = true ->
        startsWith (trim line) HASH = false ->
        match_key_value (trim line) = Some (m1, m2) ->
        trim m2 = q :: inner ++ [q] ->
        q = DQUOTE \/ q = SQUOTE ->
        parseEnvLine result line = assign result (trim m1) inner)
  /\ (forall (c : code_unit) (key' inner : jsstring) (q : code_unit),
        isWhiteSpace c = false -> c <> HASH ->
        noneOf isEquals (c :: key') = true ->
        noneOf isLF (c :: key') = true ->
        noneOf isLineTerminator inner = true ->
        q = DQUOTE \/ q = SQUOTE ->
        parseEnvFile ((c :: key') ++ EQUALS :: q :: inner ++ [q])
        = assign [] (trim (c :: key')) inner)
  /\ parseEnvFile (str "KEY=" ++ quoted (str "hello world"))
     = [(str "KEY", VStr (str "hello world"))]
  /\ parseEnvFile (str "KEY='it''s'") = [(str "KEY", VStr (str "it''s"))].
Proof.
  split; [exact unquote_wrapped |]. split; [exact parseEnvLine_quoted |].
  split; [| split; reflexivity].
  intros c key' inner q Hc Hhash Hkey Hlf Hinner Hq.
  destruct (isQuote_cases q Hq) as (_ & Hqw & Hqt).
  set (line := (c :: key') ++ EQUALS :: q :: inner ++ [q]).
  assert (Htrim : trim line = line).
  { unfold line. cbn [app]. rewrite trim_cons_solid by exact Hc. f_equal.
    replace (key' ++ EQUALS :: q :: inner ++ [q])
      with ((key' ++ EQUALS :: q :: inner) ++ [q])
      by (rewrite <- app_assoc; reflexivity).
    now apply trimEnd_solid. }
  rewrite parseEnvFile_one_line.
  - apply parseEnvLine_quoted with (m2 := q :: inner ++ [q]) (q := q); trivial.
    + rewrite Htrim. reflexivity.
    + rewrite Htrim. cbn. apply N.eqb_neq. exact Hhash.
    + rewrite Htrim. unfold match_key_value, line.
      rewrite break_equals_app by exact Hkey.
      change (forallb (fun c0 => negb (isLineTerminator c0)) (q :: inner ++ [q]))
        with (noneOf isLineTerminator ((q :: inner) ++ [q])).
      rewrite noneOf_app, !noneOf_cons, Hqt, Hinner. reflexivity.
    + now apply trim_wrapped.
  - unfold line. rewrite noneOf_app, Hlf.
    change (EQUALS :: q :: inner ++ [q]) with ([EQUALS; q] ++ inner ++ [q]).
    rewrite !noneOf_app, (lineTerminator_free_no_LF inner Hinner).
    destruct Hq as [-> | ->]; reflexivity.
Qed.

Lemma env_quotes_stripped_witness :
  parseEnvFile (str "KEY=" ++ quoted (str "hello world"))
  = assign [] (trim (str "KEY")) (str "hello world").
Proof.
  refine (proj1 (proj2 (proj2 env_quotes_stripped))
            75 (str "EY") (str "hello world") DQUOTE
            eq_refl _ eq_refl eq_refl eq_refl (or_introl eq_refl)).
  discriminate.
Defined.

(** * Ordinary objects *)

Lemma jseqb_sym (a b : jsstring) : jseqb a b = jseqb b a.
Proof.
  destruct (jseqb a b) eqn:E.
  - apply jseqb_eq in E. subst. now rewrite jseqb_refl.
  - destruct (jseqb b a) eqn:E'; [| reflexivity].
    apply jseqb_eq in E'. subst. now rewrite jseqb_refl in E.
Qed.

Lemma lookup_has (k : jsstring) (o : Obj) :
  has k o = match lookup k o with Some _ => true | None => false end.
Proof.
  induction o as [| [k0 v0] o IH]; cbn; [reflexivity |].
  now destruct (jseqb k0 k).
Qed.

Section KeysOfUpdates.

Variable f : jsstring -> bool.

Lemma forallb_keys_overwrite k v (o : Obj) :
  forallb (fun p => f (fst p)) (overwrite k v o) = forallb (fun p => f (fst p)) o.
Proof.
  induction o as [| [k0 v0] o IH]; cbn; [reflexivity |].
  destruct (jseqb k0 k); cbn; [reflexivity | now rewrite IH].
Qed.

Lemma existsb_keys_overwrite k v (o : Obj) :
  existsb (fun p => f (fst p)) (overwrite k v o) = existsb (fun p => f (fst p)) o.
Proof.
  induction o as [| [k0 v0] o IH]; cbn; [reflexivity |].
  destruct (jseqb k0 k); cbn; [reflexivity | now rewrite IH].
Qed.

Lemma forallb_keys_insert n k v (o : Obj) :
  forallb (fun p => f (fst p)) (insert_index n k v o)
  = f k && forallb (fun p => f (fst p)) o.
Proof.
  induction o as [| [k0 v0] o IH]; cbn; [reflexivity |].
  destruct (array_index k0) as [m |]; [destruct (m <=? n) |]; cbn; trivial.
  rewrite IH. now rewrite !andb_assoc, (andb_comm (f k0)).
Qed.

Lemma existsb_keys_insert n k v (o : Obj) :
  existsb (fun p => f (fst p)) (insert_index n k v o)
  = f k || existsb (fun p => f (fst p)) o.
Proof.
  induction o as [| [k0 v0] o IH]; cbn; [reflexivity |].
  destruct (array_index k0) as [m |]; [destruct (m <=? n) |]; cbn; trivial.
  rewrite IH. now rewrite !orb_assoc, (orb_comm (f k0)).
Qed.

End KeysOfUpdates.

Lemma has_define (k k' : jsstring) (v : jsval) (o : Obj) :
  has k (define o k' v) = jseqb k' k || has k o.
Proof.
  unfold define. destruct (has k' o) eqn:Hk'.
  - unfold has at 1. rewrite (existsb_keys_overwrite (fun x => jseqb x k)).
    fold (has k o). destruct (jseqb k' k) eqn:E; [| reflexivity].
    apply jseqb_eq in E. subst k'. now rewrite Hk'.
  - destruct (array_index k') as [n |].
    + unfold has at 1. now rewrite (existsb_keys_insert (fun x => jseqb x k)).
    + unfold has at 1. rewrite existsb_app. cbn. fold (has k o).
      now rewrite orb_false_r, orb_comm.
Qed.

(** ** Reading after writing *)

Lemma lookup_overwrite_same k v (o : Obj) :
  has k o = true -> lookup k (overwrite k v o) = Some v.
Proof.
  induction o as [| [k0 v0] o IH]; cbn; [discriminate |].
  destruct (jseqb k0 k) eqn:E; cbn; rewrite E; [reflexivity | exact IH].
Qed.

Lemma lookup_overwrite_other k k' v (o : Obj) :
  jseqb k' k = false -> lookup k (overwrite k' v o) = lookup k o.
Proof.
  intros Hk. induction o as [| [k0 v0] o IH]; cbn; [reflexivity |].
  destruct (jseqb k0 k') eqn:E; cbn.
  - apply jseqb_eq in E. subst k0. now rewrite Hk.
  - now rewrite IH.
Qed.

Lemma lookup_insert_same n k v (o : Obj) :
  has k o = false -> lookup k (insert_index n k v o) = Some v.
Proof.
  induction o as [| [k0 v0] o IH]; cbn.
  - now rewrite jseqb_refl.
  - intros H. apply orb_false_elim in H as [H0 Ho].
    destruct (array_index k0) as [m |]; [destruct (m <=? n) |]; cbn;
      rewrite ?H0, ?jseqb_refl; auto.
Qed.

Lemma lookup_insert_other n k k' v (o : Obj) :
  jseqb k' k = false -> lookup k (insert_index n k' v o) = lookup k o.
Proof.
  intros Hk. induction o as [| [k0 v0] o IH]; cbn.
  - now rewrite Hk.
  - destruct (array_index k0) as [m |]; [destruct (m <=? n) |]; cbn;
      rewrite ?Hk, ?IH; reflexivity.
Qed.

Lemma lookup_snoc k k' v (o : Obj) :
  lookup k (o ++ [(k', v)])
  = match lookup k o with
    | Some x => Some x
    | None => if jseqb k' k then Some v else None
    end.
Proof.
  induction o as [| [k0 v0] o IH]; cbn; [reflexivity |].
  now destruct (jseqb k0 k).
Qed.

(** CreateDataProperty sets the property and leaves the others alone. *)
Lemma lookup_define k k' v (o : Obj) :
  lookup k (define o k' v) = if jseqb k' k then Some v else lookup k o.
Proof.
  unfold define. destruct (jseqb k' k) eqn:E.
  - apply jseqb_eq in E. subst k'. destruct (has k o) eqn:Hk.
    + now apply lookup_overwrite_same.
    + destruct (array_index k) as [n |].
      * now apply lookup_insert_same.
      * rewrite lookup_snoc, jseqb_refl. rewrite lookup_has in Hk.
        now destruct (lookup k o).
  - destruct (has k' o).
    + now apply lookup_overwrite_other.
    + destruct (array_index k') as [n |].
      * now apply lookup_insert_other.
      * rewrite lookup_snoc, E. now destruct (lookup k o).
Qed.

Lemma lookup_copy_into k (src : Obj) : forall m : Obj,
  lookup k (copy_into m src)
  = match last_value k src with Some v => Some v | None => lookup k m end.
Proof.
  unfold copy_into. induction src as [| [k0 v0] src IH]; intros m; cbn;
    [reflexivity |].
  rewrite IH, lookup_define. now destruct (last_value k src), (jseqb k0 k).
Qed.

(** ** The representation invariant *)

Lemma before_trans (a b c : jsstring) :
  before a b = true -> before b c = true -> before a c = true.
Proof.
  unfold before.
  destruct (array_index a) as [x |], (array_index b) as [y |],
    (array_index c) as [z |]; trivial; try discriminate.
  intros H1 H2. apply N.leb_le in H1, H2. apply N.leb_le. lia.
Qed.

Lemma forallb_before_trans (a b : jsstring) (o : Obj) :
  before a b = true ->
  forallb (fun p => before b (fst p)) o = true ->
  forallb (fun p => before a (fst p)) o = true.
Proof.
  intros Hab H. rewrite forallb_forall in *. intros p Hp.
  apply before_trans with b; auto.
Qed.

Lemma canonical_cons k v (o : Obj) :
  canonical ((k, v) :: o)
  = negb (has k o) && forallb (fun p => before k (fst p)) o && canonical o.
Proof. reflexivity. Qed.

Lemma has_cons k k0 v0 (o : Obj) :
  has k ((k0, v0) :: o) = jseqb k0 k || has k o.
Proof. reflexivity. Qed.

Lemma canonical_overwrite k v (o : Obj) :
  canonical (overwrite k v o) = canonical o.
Proof.
  induction o as [| [k0 v0] o IH]; [reflexivity |]. cbn [overwrite].
  destruct (jseqb k0 k); [reflexivity |].
  rewrite !canonical_cons, IH. unfold has.
  now rewrite (existsb_keys_overwrite (fun x => jseqb x k0)),
    (forallb_keys_overwrite (before k0)).
Qed.

Lemma canonical_insert n k v (o : Obj) :
  canonical o = true -> has k o = false -> array_index k = Some n ->
  canonical (insert_index n k v o) = true.
Proof.
  intros Hc Hk Hn. induction o as [| [k0 v0] o IH]; [reflexivity |].
  rewrite canonical_cons in Hc.
  apply andb_prop in Hc as [Hc Hco]. apply andb_prop in Hc as [Hh Hb].
  rewrite has_cons in Hk. apply orb_false_elim in Hk as [Hk0 Hko].
  cbn [insert_index]. destruct (array_index k0) as [m |] eqn:Hm.
  - destruct (m <=? n) eqn:Hmn.
    + rewrite canonical_cons. unfold has.
      rewrite (existsb_keys_insert (fun x => jseqb x k0)),
        (forallb_keys_insert (before k0)).
      fold (has k0 o). rewrite (jseqb_sym k k0), Hk0. cbn [orb].
      rewrite Hh, Hb, (IH Hco Hko). unfold before. now rewrite Hm, Hn, Hmn.
    + assert (Hkk0 : before k k0 = true).
      { unfold before. rewrite Hn, Hm. apply N.leb_le. apply N.leb_gt in Hmn. lia. }
      rewrite canonical_cons, has_cons, Hk0, Hko. cbn [orb negb andb forallb fst].
      rewrite Hkk0, (forallb_before_trans k k0 o Hkk0 Hb).
      rewrite canonical_cons, Hh, Hb, Hco. reflexivity.
  - assert (Hkk0 : before k k0 = true) by (unfold before; now rewrite Hn, Hm).
    rewrite canonical_cons, has_cons, Hk0, Hko. cbn [orb negb andb forallb fst].
    rewrite Hkk0, (forallb_before_trans k k0 o Hkk0 Hb).
    rewrite canonical_cons, Hh, Hb, Hco. reflexivity.
Qed.

Lemma canonical_snoc k v (o : Obj) :
  canonical o = true -> has k o = false -> array_index k = None ->
  canonical (o ++ [(k, v)]) = true.
Proof.
  intros Hc Hk Hn. induction o as [| [k0 v0] o IH]; [reflexivity |].
  rewrite canonical_cons in Hc.
  apply andb_prop in Hc as [Hc Hco]. apply andb_prop in Hc as [Hh Hb].
  rewrite has_cons in Hk. apply orb_false_elim in Hk as [Hk0 Hko].
  change (((k0, v0) :: o) ++ [(k, v)]) with ((k0, v0) :: (o ++ [(k, v)])).
  rewrite canonical_cons, (IH Hco Hko). unfold has.
  rewrite existsb_app, forallb_app. fold (has k0 o). cbn [existsb forallb fst].
  rewrite (jseqb_sym k k0), Hk0, Hb. apply negb_true_iff in Hh. rewrite Hh.
  unfold before. rewrite Hn. now destruct (array_index k0).
Qed.

(** CreateDataProperty keeps an object well formed. *)
Lemma canonical_define k v (o : Obj) :
  canonical o = true -> canonical (define o k v) = true.
Proof.
  intros Hc. unfold define. destruct (has k o) eqn:Hk.
  - now rewrite canonical_overwrite.
  - destruct (array_index k) as [n |] eqn:Hn.
    + now apply canonical_insert.
    + now apply canonical_snoc.
Qed.

Lemma canonical_copy_into (src : Obj) : forall m : Obj,
  canonical m = true -> canonical (copy_into m src) = true.
Proof.
  unfold copy_into. induction src as [| [k v] src IH]; intros m Hm; cbn;
    [exact Hm |].
  apply IH. now apply canonical_define.
Qed.

Lemma canonical_assign k v (o : Obj) :
  canonical o = true -> canonical (assign o k v) = true.
Proof.
  intros Hc. unfold assign.
  destruct (jseqb k PROTO && negb (has k o)); [exact Hc |].
  now apply canonical_define.
Qed.

(** A property of a well-formed object is preceded by none of its own
    name and only by names that may come before it. *)
Lemma canonical_middle (a b : Obj) k v :
  canonical (a ++ (k, v) :: b) = true ->
  has k a = false /\ forallb (fun p => before (fst p) k) a = true.
Proof.
  induction a as [| [k0 v0] a IH]; [now split |].
  change (((k0, v0) :: a) ++ (k, v) :: b) with ((k0, v0) :: (a ++ (k, v) :: b)).
  rewrite canonical_cons. intros Hc.
  apply andb_prop in Hc as [Hc Hco]. apply andb_prop in Hc as [Hh Hb].
  destruct (IH Hco) as [Hka Hba].
  apply negb_true_iff in Hh. unfold has in Hh. rewrite existsb_app in Hh.
  apply orb_false_elim in Hh as [_ Hh]. cbn in Hh.
  apply orb_false_elim in Hh as [Hkk0 _].
  rewrite forallb_app in Hb. apply andb_prop in Hb as [_ Hb]. cbn in Hb.
  apply andb_prop in Hb as [Hb _].
  split.
  - now rewrite has_cons, (jseqb_sym k0 k), Hkk0.
  - cbn [forallb fst]. now rewrite Hb, Hba.
Qed.

Lemma insert_index_last n k v (a : Obj) :
  array_index k = Some n ->
  forallb (fun p => before (fst p) k) a = true ->
  insert_index n k v a = a ++ [(k, v)].
Proof.
  intros Hn. induction a as [| [k0 v0] a IH]; [reflexivity |].
  cbn. intros H. apply andb_prop in H as [H0 Ha].
  unfold before in H0. rewrite Hn in H0.
  destruct (array_index k0) as [m |]; [| discriminate].
  rewrite H0. now rewrite IH.
Qed.

Lemma define_last (a b : Obj) k v :
  canonical (a ++ (k, v) :: b) = true -> define a k v = a ++ [(k, v)].
Proof.
  intros Hc. destruct (canonical_middle a b k v Hc) as [Hk Hb].
  unfold define. rewrite Hk.
  destruct (array_index k) as [n |] eqn:Hn; [| reflexivity].
  now apply insert_index_last.
Qed.

(** Copying the properties of a well-formed object one after the other
    rebuilds it. *)
Lemma copy_into_canonical (b : Obj) : forall a : Obj,
  canonical (a ++ b) = true -> copy_into a b = a ++ b.
Proof.
  unfold copy_into. induction b as [| [k v] b IH]; intros a Hc; cbn.
  - now rewrite app_nil_r.
  - rewrite (define_last a b k v Hc).
    replace (a ++ (k, v) :: b) with ((a ++ [(k, v)]) ++ b) in *
      by (now rewrite <- app_assoc).
    now apply IH.
Qed.

Lemma copy_canonical (o : Obj) : canonical o = true -> copy_into [] o = o.
Proof. intros H. now apply (copy_into_canonical o []). Qed.

Lemma last_value_absent k (o : Obj) : has k o = false -> last_value k o = None.
Proof.
  induction o as [| [k0 v0] o IH]; cbn; [reflexivity |].
  intros H. apply orb_false_elim in H as [H0 Ho]. now rewrite IH, H0.
Qed.

(** In a well-formed object the last pair with a name is the only one. *)
Lemma last_value_lookup k (o : Obj) :
  canonical o = true -> last_value k o = lookup k o.
Proof.
  induction o as [| [k0 v0] o IH]; [reflexivity |].
  rewrite canonical_cons. intros Hc.
  apply andb_prop in Hc as [Hc Hco]. apply andb_prop in Hc as [Hh _].
  apply negb_true_iff in Hh. cbn. destruct (jseqb k0 k) eqn:E.
  - apply jseqb_eq in E. subst k0. now rewrite last_value_absent.
  - rewrite IH by exact Hco. now destruct (lookup k o).
Qed.

(** * The merger *)

Lemma lookup_assign k k' v (o : Obj) :
  lookup k (assign o k' v)
  = if jseqb k' k && negb (jseqb k PROTO && negb (has k o))
    then Some (VStr v) else lookup k o.
Proof.
  unfold assign. destruct (jseqb k' k) eqn:E.
  - apply jseqb_eq in E. subst k'.
    destruct (jseqb k PROTO && negb (has k o)); cbn [negb andb]; [reflexivity |].
    now rewrite lookup_define, jseqb_refl.
  - cbn [andb]. destruct (jseqb k' PROTO && negb (has k' o)); [reflexivity |].
    now rewrite lookup_define, E.
Qed.

Lemma has_assign k k' v (o : Obj) :
  has k (assign o k' v)
  = if jseqb k' k && negb (jseqb k PROTO && negb (has k o))
    then true else has k o.
Proof.
  rewrite (lookup_has k (assign o k' v)), lookup_assign, (lookup_has k o).
  now destruct (jseqb k' k && negb (jseqb k PROTO && negb _)).
Qed.

(** A run of assignments leaves for a name the value of the last one, but
    for the name [__proto__] on an object that does not own it: those
    assignments are lost. *)
Lemma lookup_assign_all k (pairs : list (jsstring * jsstring)) : forall m : Obj,
  lookup k (fold_left (fun o p => assign o (fst p) (snd p)) pairs m)
  = match last_value k (map (fun p => (fst p, VStr (snd p))) pairs) with
    | Some v => if jseqb k PROTO && negb (has k m) then lookup k m else Some v
    | None => lookup k m
    end.
Proof.
  induction pairs as [| [k0 v0] pairs IH]; intros m; [reflexivity |].
  cbn [fold_left map last_value fst snd]. rewrite IH, has_assign, lookup_assign.
  destruct (last_value k _) as [x |]; destruct (jseqb k0 k); cbn [andb];
    destruct (jseqb k PROTO); cbn [andb negb]; trivial;
    destruct (has k m); reflexivity.
Qed.

Lemma canonical_setPairs (raw : jsstring) (result : Obj) :
  canonical result = true -> canonical (setPairs result raw) = true.
Proof.
  rewrite setPairs_inlinePairs. generalize (inlinePairs raw). intros pairs.
  revert result. induction pairs as [| p pairs IH]; intros result H; [exact H |].
  cbn. apply IH. now apply canonical_assign.
Qed.

Lemma spread_canonical (m : Obj) (b : jsval) :
  canonical m = true -> spread m b = copy_into m (own_properties b).
Proof. intros H. unfold spread. now rewrite copy_canonical. Qed.

Lemma canonical_spread (m : Obj) (b : jsval) : canonical (spread m b) = true.
Proof. unfold spread. now apply canonical_copy_into, canonical_copy_into. Qed.

Lemma canonical_applySource (m : Obj) (src : Source) :
  canonical m = true -> canonical (applySource m src) = true.
Proof.
  intros H. destruct src; cbn [applySource].
  - apply canonical_spread.
  - apply canonical_spread.
  - now apply canonical_setPairs.
Qed.

(** What a source leaves for every name. *)
Lemma lookup_applySource k (m : Obj) (src : Source) :
  canonical m = true ->
  lookup k (applySource m src)
  = match last_value k (entriesOf src) with
    | Some v => if isInline src && jseqb k PROTO && negb (has k m)
                then lookup k m else Some v
    | None => lookup k m
    end.
Proof.
  intros H. destruct src; cbn [applySource entriesOf isInline andb].
  - rewrite spread_canonical by exact H. apply lookup_copy_into.
  - rewrite spread_canonical by exact H. apply lookup_copy_into.
  - rewrite setPairs_inlinePairs. apply lookup_assign_all.
Qed.

Lemma parseVariables_merges (P : Platform) (envFile jsonVars variables : jsstring)
    h (content : jsstring) (parsed : jsval) :
  (truthy envFile = true -> readFileSync P envFile = inl content) ->
  (truthy jsonVars = true -> JSON_parse jsonVars = Some parsed) ->
  snd (parseVariables P envFile jsonVars variables h)
  = Value (mergeSources (sourcesOf envFile jsonVars variables content parsed)).
Proof.
  intros Hf Hj.
  unfold parseVariables, sourcesOf, bind, readFile, parseJson, info, perform,
    ret, throw.
  destruct (truthy envFile); [rewrite (Hf eq_refl) |];
    (destruct (truthy jsonVars); [rewrite (Hj eq_refl) |]);
    destruct (truthy variables); reflexivity.
Qed.

(** * [JSON.parse]: the fuel is enough *)

Lemma skip_ws_length (s : jsstring) :
  (List.length (skip_ws s) <= List.length s)%nat.
Proof.
  induction s as [| c s IH]; cbn; [lia |].
  destruct (isJsonWs c); cbn; lia.
Qed.

Lemma strip_prefix_length (p s r : jsstring) :
  strip_prefix p s = Some r ->
  List.length s = (List.length p + List.length r)%nat.
Proof.
  revert s. induction p as [| x p IH]; intros [| y s]; cbn; try discriminate.
  - now intros [= <-].
  - now intros [= <-].
  - destruct (x =? y); [| discriminate]. intros H. apply IH in H. lia.
Qed.

Lemma span_digits_length (s : jsstring) :
  (List.length (snd (span_digits s)) <= List.length s)%nat.
Proof.
  induction s as [| c s IH]; cbn; [lia |].
  destruct (isDigit c); cbn; [| lia].
  destruct (span_digits s); cbn in *. lia.
Qed.

Lemma string_chars_length (s t r : jsstring) :
  string_chars s = Some (t, r) -> (List.length r < List.length s)%nat.
Proof.
  remember (List.length s) as n eqn:Hn. revert s t r Hn.
  induction n as [n IH] using lt_wf_ind. intros s t r Hn.
  destruct s as [| c s]; cbn [string_chars]; [discriminate |].
  cbn in Hn. destruct (c =? 34).
  { intros [= <- <-]. lia. }
  destruct (c =? 92).
  - destruct s as [| e s1]; [discriminate |].
    destruct (e =? 117).
    + destruct s1 as [| h1 [| h2 [| h3 [| h4 s2]]]]; try discriminate.
      destruct (hex4 h1 h2 h3 h4); [| discriminate].
      destruct (string_chars s2) as [[t' r'] |] eqn:E; [| discriminate].
      cbn [consume]. intros [= <- <-].
      pose proof (IH (List.length s2) ltac:(subst n; cbn; lia) s2 t' r' eq_refl E).
      cbn in *. lia.
    + destruct (escape e); [| discriminate].
      destruct (string_chars s1) as [[t' r'] |] eqn:E; [| discriminate].
      cbn [consume]. intros [= <- <-].
      pose proof (IH (List.length s1) ltac:(subst n; cbn; lia) s1 t' r' eq_refl E).
      cbn in *. lia.
  - destruct (c <? 32); [discriminate |].
    destruct (string_chars s) as [[t' r'] |] eqn:E; [| discriminate].
    cbn [consume]. intros [= <- <-].
    pose proof (IH (List.length s) ltac:(subst n; cbn; lia) s t' r' eq_refl E).
    cbn in *. lia.
Qed.

Lemma minus_sign_length (s : jsstring) :
  (List.length (snd (minus_sign s)) <= List.length s)%nat.
Proof. destruct s as [| c s]; cbn; [lia |]. destruct (c =? 45); cbn; lia. Qed.

Lemma exp_sign_length (s : jsstring) :
  (List.length (snd (exp_sign s)) <= List.length s)%nat.
Proof.
  destruct s as [| c s]; cbn; [lia |].
  destruct ((c =? 43) || (c =? 45)); cbn; lia.
Qed.

Lemma int_part_length (s i r : jsstring) :
  int_part s = Some (i, r) -> (List.length r < List.length s)%nat.
Proof.
  destruct s as [| c s]; cbn; [discriminate |].
  destruct (c =? 48); [intros [= <- <-]; lia |].
  destruct (isDigit c); [| discriminate].
  pose proof (span_digits_length s) as H. destruct (span_digits s) as [ds r'].
  cbn in H. intros [= <- <-]. lia.
Qed.

Lemma frac_part_length (s f r : jsstring) :
  frac_part s = Some (f, r) -> (List.length r <= List.length s)%nat.
Proof.
  destruct s as [| c s]; cbn; [intros [= <- <-]; cbn; lia |].
  destruct (c =? 46); [| intros [= <- <-]; cbn; lia].
  pose proof (span_digits_length s) as H. destruct (span_digits s) as [[| d ds] r'];
    [discriminate |].
  cbn in H. intros [= <- <-]. lia.
Qed.

Lemma exp_part_length (s e r : jsstring) :
  exp_part s = Some (e, r) -> (List.length r <= List.length s)%nat.
Proof.
  destruct s as [| c s]; cbn; [intros [= <- <-]; cbn; lia |].
  destruct ((c =? 101) || (c =? 69)); [| intros [= <- <-]; cbn; lia].
  pose proof (exp_sign_length s) as Hs. destruct (exp_sign s) as [sg r0].
  pose proof (span_digits_length r0) as H.
  destruct (span_digits r0) as [[| d ds] r']; [discriminate |].
  cbn in H, Hs. intros [= <- <-]. lia.
Qed.

Lemma number_literal_length (s n r : jsstring) :
  number_literal s = Some (n, r) -> (List.length r < List.length s)%nat.
Proof.
  unfold number_literal.
  pose proof (minus_sign_length s) as H0. destruct (minus_sign s) as [sign s1].
  destruct (int_part s1) as [[i s2] |] eqn:H1; [| discriminate].
  destruct (frac_part s2) as [[f s3] |] eqn:H2; [| discriminate].
  destruct (exp_part s3) as [[e s4] |] eqn:H3; [| discriminate].
  intros [= <- <-]. apply int_part_length in H1. apply frac_part_length in H2.
  apply exp_part_length in H3. cbn in H0. lia.
Qed.

(** Whatever a parser of values returns with some fuel, it returns with
    any fuel that is at least the number of characters it read, and it
    read at least one. *)
Lemma json_fuel (f : nat) :
  (forall s, enough (fun f => value f s) s f)
  /\ (forall s acc, enough (fun f => elements f s acc) s f)
  /\ (forall s acc, enough (fun f => members f s acc) s f).
Proof.
  induction f as [| f (IHv & IHe & IHm)];
    [repeat split; intros; discriminate |].
  split; [| split].
  - intros s v r H. cbn [value] in H.
    pose proof (skip_ws_length s) as Ls.
    destruct (skip_ws s) as [| c r0] eqn:Es; [discriminate |]. cbn in Ls.
    destruct (c =? 123) eqn:E1.
    { pose proof (skip_ws_length r0) as Lr.
      destruct (skip_ws r0) as [| c' r'] eqn:Er; [discriminate |]. cbn in Lr.
      destruct (c' =? 125) eqn:E2.
      - injection H as <- <-. split; [lia |]. intros [| f'] Hf; [lia |].
        cbn [value]. now rewrite Es, E1, Er, E2.
      - destruct (IHm r0 [] v r H) as [L K]. split; [lia |].
        intros [| f'] Hf; [lia |]. cbn [value]. rewrite Es, E1, Er, E2.
        apply K. lia. }
    destruct (c =? 91) eqn:E2.
    { pose proof (skip_ws_length r0) as Lr.
      destruct (skip_ws r0) as [| c' r'] eqn:Er; [discriminate |]. cbn in Lr.
      destruct (c' =? 93) eqn:E3.
      - injection H as <- <-. split; [lia |]. intros [| f'] Hf; [lia |].
        cbn [value]. now rewrite Es, E1, E2, Er, E3.
      - destruct (IHe r0 [] v r H) as [L K]. split; [lia |].
        intros [| f'] Hf; [lia |]. cbn [value]. rewrite Es, E1, E2, Er, E3.
        apply K. lia. }
    assert (Hscalar : (List.length r < List.length (c :: r0))%nat ->
              (List.length r < List.length s)%nat
              /\ forall f', (List.length s - List.length r <= f')%nat ->
                             value f' s = Some (v, r)).
    { intros L. cbn in L. split; [lia |]. intros [| f'] Hf; [lia |].
      cbn [value]. rewrite Es, E1, E2. exact H. }
    apply Hscalar. clear Hscalar.
    destruct (c =? 34) eqn:E3.
    { destruct (string_chars r0) as [[t r'] |] eqn:Et; [| discriminate].
      injection H as <- <-. apply string_chars_length in Et. cbn. lia. }
    destruct (strip_prefix (str "true") (c :: r0)) as [r1 |] eqn:Et.
    { injection H as <- <-. apply strip_prefix_length in Et.
      change (List.length (str "true")) with 4%nat in Et. cbn [List.length] in *. lia. }
    destruct (strip_prefix (str "false") (c :: r0)) as [r1 |] eqn:Ef.
    { injection H as <- <-. apply strip_prefix_length in Ef.
      change (List.length (str "false")) with 5%nat in Ef. cbn [List.length] in *. lia. }
    destruct (strip_prefix (str "null") (c :: r0)) as [r1 |] eqn:En.
    { injection H as <- <-. apply strip_prefix_length in En.
      change (List.length (str "null")) with 4%nat in En. cbn [List.length] in *. lia. }
    destruct (number_literal (c :: r0)) as [[n r1] |] eqn:Enum; [| discriminate].
    injection H as <- <-. now apply number_literal_length in Enum.
  - intros s acc v r H. cbn [elements] in H.
    destruct (value f s) as [[v1 r1] |] eqn:Ev; [| discriminate].
    destruct (IHv s v1 r1 Ev) as [L1 K1].
    pose proof (skip_ws_length r1) as Lr.
    destruct (skip_ws r1) as [| c r'] eqn:Er; [discriminate |]. cbn in Lr.
    destruct (c =? 44) eqn:E1.
    + destruct (IHe r' (acc ++ [v1]) v r H) as [L K]. split; [lia |].
      intros [| f'] Hf; [lia |]. cbn [elements].
      rewrite (K1 f') by lia. rewrite Er, E1. apply K. lia.
    + destruct (c =? 93) eqn:E2; [| discriminate].
      injection H as <- <-. split; [lia |].
      intros [| f'] Hf; [lia |]. cbn [elements].
      rewrite (K1 f') by lia. now rewrite Er, E1, E2.
  - intros s acc v r H. cbn [members] in H.
    pose proof (skip_ws_length s) as Ls.
    destruct (skip_ws s) as [| q r0] eqn:Es; [discriminate |]. cbn in Ls.
    destruct (q =? 34) eqn:E1; [| discriminate].
    destruct (string_chars r0) as [[k r1] |] eqn:Ek; [| discriminate].
    pose proof (string_chars_length _ _ _ Ek) as Lk.
    pose proof (skip_ws_length r1) as L1.
    destruct (skip_ws r1) as [| c1 r2] eqn:E2; [discriminate |]. cbn in L1.
    destruct (c1 =? 58) eqn:E3; [| discriminate].
    destruct (value f r2) as [[v1 r3] |] eqn:Ev; [| discriminate].
    destruct (IHv r2 v1 r3 Ev) as [Lv Kv].
    pose proof (skip_ws_length r3) as L3.
    destruct (skip_ws r3) as [| c3 r4] eqn:E4; [discriminate |]. cbn in L3.
    destruct (c3 =? 44) eqn:E5.
    + destruct (IHm r4 (define acc k v1) v r H) as [L K]. split; [lia |].
      intros [| f'] Hf; [lia |]. cbn [members].
      rewrite Es, E1, Ek, E2, E3, (Kv f') by lia. rewrite E4, E5. apply K. lia.
    + destruct (c3 =? 125) eqn:E6; [| discriminate].
      injection H as <- <-. split; [lia |].
      intros [| f'] Hf; [lia |]. cbn [members].
      rewrite Es, E1, Ek, E2, E3, (Kv f') by lia. now rewrite E4, E5, E6.
Qed.

(** [JSON.parse] does not depend on the fuel: it gives every value that
    some amount of fuel gives. *)
Lemma JSON_parse_fuel (text : jsstring) (v : jsval) :
  JSON_parse text = Some v
  <-> exists f r, value f text = Some (v, r) /\ skip_ws r = [].
Proof.
  unfold JSON_parse. split.
  - destruct (value (S (List.length text)) text) as [[v' r] |] eqn:E;
      [| discriminate].
    destruct (skip_ws r) eqn:Er; [| discriminate].
    intros [= <-]. eauto.
  - intros (f & r & E & Er).
    destruct (proj1 (json_fuel f) text v r E) as [_ K].
    rewrite (K (S (List.length text))) by lia. now rewrite Er.
Qed.

(** * The JSON source *)

Lemma parseVariables_syntax_error (P : Platform)
    (envFile jsonVars variables : jsstring) h (content : jsstring) :
  truthy jsonVars = true ->
  (truthy envFile = true -> readFileSync P envFile = inl content) ->
  JSON_parse jsonVars = None ->
  snd (parseVariables P envFile jsonVars variables h)
  = Thrown (newError (syntaxErrorMessage P jsonVars)).
Proof.
  intros Hj Hf Hp.
  unfold parseVariables, bind, readFile, parseJson, info, perform, ret, throw.
  rewrite Hj, Hp.
  destruct (truthy envFile); [rewrite (Hf eq_refl) |]; reflexivity.
Qed.

(** C2, as the code has it.  A JSON source makes the merger fail exactly
    when its text is not valid JSON: the error of [JSON.parse] is thrown
    before any request is made and the run is marked failed.  A valid
    text is accepted whatever its top level is: it brings its own
    enumerable properties (the members of an object, the elements of an
    array and the characters of a string under their indices, nothing for
    a number, a boolean or null), with the values as decoded, not turned
    into strings. *)
Theorem json_source_fails_on_syntax_only :
  (forall (P : Platform) (envFile jsonVars variables : jsstring) h
          (content : jsstring),
     truthy jsonVars = true ->
     (truthy envFile = true -> readFileSync P envFile = inl content) ->
     JSON_parse jsonVars = None ->
     snd (parseVariables P envFile jsonVars variables h)
     = Thrown (newError (syntaxErrorMessage P jsonVars))
     /\ requests (fst (parseVariables P envFile jsonVars variables h)) = [])
  /\ (forall (P : Platform) (content : jsstring),
        supplied P = true ->
        operationOf P = str "set" ->
        truthy (jsonVarsOf P) = true ->
        (truthy (envFileOf P) = true ->
         readFileSync P (envFileOf P) = inl content) ->
        JSON_parse (jsonVarsOf P) = None ->
        requests (run P) = [] /\ outputs (run P) = []
        /\ failures (run P)
           = [failureMessage (newError (syntaxErrorMessage P (jsonVarsOf P)))])
  /\ (forall (P : Platform) (envFile jsonVars variables : jsstring) h
             (content : jsstring) (parsed : jsval),
        truthy jsonVars = true ->
        (truthy envFile = true -> readFileSync P envFile = inl content) ->
        JSON_parse jsonVars = Some parsed ->
        snd (parseVariables P envFile jsonVars variables h)
        = Value (mergeSources
                   (sourcesOf envFile jsonVars variables content parsed)))
  /\ (forall (m : Obj) (parsed : jsval) k,
        canonical m = true ->
        lookup k (applySource m (JsonSource parsed))
        = match last_value k (own_properties parsed) with
          | Some v => Some v
          | None => lookup k m
          end)
  /\ (forall (P : Platform) h,
        snd (parseVariables P [] (str "[7]") [] h)
        = Value [(str "0", VNum (str "7"))]
        /\ snd (parseVariables P [] (quoted (str "ab")) [] h)
           = Value [(str "0", VStr (str "a")); (str "1", VStr (str "b"))]
        /\ snd (parseVariables P [] (str "42") [] h) = Value []
        /\ snd (parseVariables P [] (str "null") [] h) = Value []
        /\ snd (parseVariables P []
                  (str "{" ++ quoted (str "A") ++ str ":1}") [] h)
           = Value [(str "A", VNum (str "1"))]).
Proof.
  split; [| split; [| split; [| split]]].
  - intros P envFile jsonVars variables h content Hj Hf Hp. split.
    + now apply parseVariables_syntax_error with content.
    + apply parseVariables_quiet.
  - intros P content Hs Hop Hj Hf Hp.
    assert (Hany : anySource P = true)
      by (unfold anySource; rewrite Hj; now destruct (truthy (envFileOf P))).
    assert (E : snd (mergedOf P)
                = Thrown (newError (syntaxErrorMessage P (jsonVarsOf P))))
      by now apply parseVariables_syntax_error with content.
    destruct (parseVariables_quiet P (envFileOf P) (jsonVarsOf P) (variablesOf P) [])
      as (R & O & F & _).
    fold (mergedOf P) in R, O, F.
    enter_set Hs Hop. rewrite (runSet_parse_error P _ _ _ _ _ _ Hany E).
    cbn [fst snd finish]. unfold banner. read_trace.
    rewrite R, O, F. auto.
  - intros P envFile jsonVars variables h content parsed _ Hf Hp.
    apply parseVariables_merges; [exact Hf | intros _; exact Hp].
  - intros m parsed k Hc. now rewrite lookup_applySource.
  - intros P h. repeat split.
Qed.

Lemma json_source_fails_on_syntax_only_witness :
  requests (run (examplePlatform
                   [("operation", "set"); ("json_vars", "{")]%string)) = []
  /\ failures (run (examplePlatform
                      [("operation", "set"); ("json_vars", "{")]%string))
     = [str "Unexpected end of JSON input"].
Proof.
  pose proof (proj1 (proj2 json_source_fails_on_syntax_only)
                (examplePlatform [("operation", "set"); ("json_vars", "{")]%string)
                [] eq_refl eq_refl eq_refl (fun H => False_ind _ (diff_false_true H))
                eq_refl) as H.
  exact (conj (proj1 H) (proj2 (proj2 H))).
Defined.

(** C2 as stated fails on the code: the text [[1]] is valid JSON whose
    top level is an array; the merger does not fail on it and returns a
    mapping whose value is a number. *)
Lemma json_source_accepts_non_object :
  JSON_parse (str "[1]") = Some (VArr [VNum (str "1")])
  /\ snd (parseVariables (examplePlatform []) [] (str "[1]") [] [])
     = Value [(str "0", VNum (str "1"))].
Proof. split; reflexivity. Qed.

(** * The env format and its round trip *)

Section ForallOfUpdates.

Variable Q : jsstring * jsval -> Prop.

Lemma Forall_overwrite k v (o : Obj) :
  Forall Q o -> Q (k, v) -> Forall Q (overwrite k v o).
Proof.
  intros H Hq. induction H as [| [k0 v0] o H0 Ho IH]; cbn; [constructor |].
  destruct (jseqb k0 k) eqn:E.
  - apply jseqb_eq in E. subst k0. now constructor.
  - now constructor.
Qed.

Lemma Forall_insert_index n k v (o : Obj) :
  Forall Q o -> Q (k, v) -> Forall Q (insert_index n k v o).
Proof.
  intros H Hq. induction H as [| [k0 v0] o H0 Ho IH]; cbn; [now repeat constructor |].
  destruct (array_index k0) as [m |]; [destruct (m <=? n) |];
    repeat (constructor; trivial).
Qed.

Lemma Forall_define k v (o : Obj) :
  Forall Q o -> Q (k, v) -> Forall Q (define o k v).
Proof.
  intros H Hq. unfold define. destruct (has k o).
  - now apply Forall_overwrite.
  - destruct (array_index k).
    + now apply Forall_insert_index.
    + apply Forall_app. split; [exact H | now repeat constructor].
Qed.

Lemma Forall_assign k s (o : Obj) :
  Forall Q o -> Q (k, VStr s) -> Forall Q (assign o k s).
Proof.
  intros H Hq. unfold assign.
  destruct (jseqb k PROTO && negb (has k o)); [exact H |].
  now apply Forall_define.
Qed.

End ForallOfUpdates.

(** What a line of the env format does to the mapping. *)
Lemma parseEnvLine_cases (result : Obj) (line : jsstring) :
  parseEnvLine result line = result
  \/ exists c r m1 m2,
       trim line = c :: r /\ isWhiteSpace c = false /\ c <> HASH
       /\ break_equals (trim line) = Some (m1, m2)
       /\ m1 <> []
       /\ noneOf isLineTerminator m2 = true
       /\ parseEnvLine result line = assign result (trim m1) (unquote (trim m2)).
Proof.
  unfold parseEnvLine.
  destruct (trim_shape line) as [E | (c & r & E & Hc & _)].
  - left. now rewrite E.
  - rewrite E. cbn [truthy negb orb startsWith].
    destruct (c =? HASH) eqn:Hh; [now left |].
    unfold match_key_value.
    destruct (break_equals (c :: trimEnd r)) as [[m1 m2] |] eqn:Hb; [| now left].
    destruct m1 as [| x m1]; [now left |]. cbn [truthy andb].
    destruct (forallb (fun c0 => negb (isLineTerminator c0)) m2) eqn:Hl; [| now left].
    right. exists c, (trimEnd r), (x :: m1), m2.
    repeat split; trivial; try discriminate.
    now apply N.eqb_neq.
Qed.

Lemma noneOf_trim (bad : code_unit -> bool) (s : jsstring) :
  noneOf bad s = true -> noneOf bad (trim s) = true.
Proof.
  intros H. destruct (trim_split s) as (a & b & E & _).
  rewrite E, !noneOf_app in H.
  apply andb_prop in H as [_ H]. now apply andb_prop in H as [H _].
Qed.

Lemma noneOf_removelast (bad : code_unit -> bool) (s : jsstring) :
  noneOf bad s = true -> noneOf bad (removelast s) = true.
Proof.
  induction s as [| c s IH]; [trivial |]. intros H.
  rewrite noneOf_cons in H. apply andb_prop in H as [Hc Hs].
  destruct s as [| d s]; [reflexivity |].
  change (removelast (c :: d :: s)) with (c :: removelast (d :: s)).
  now rewrite noneOf_cons, Hc, IH.
Qed.

Lemma noneOf_unquote (bad : code_unit -> bool) (s : jsstring) :
  noneOf bad s = true -> noneOf bad (unquote s) = true.
Proof.
  intros H. unfold unquote.
  destruct ((startsWith s DQUOTE && endsWith s DQUOTE)
            || (startsWith s SQUOTE && endsWith s SQUOTE)); [| exact H].
  unfold slice_1_m1. apply noneOf_removelast.
  destruct s as [| c s]; [reflexivity |].
  rewrite noneOf_cons in H. now apply andb_prop in H as [_ H].
Qed.

Lemma trimEnd_cons_any (y : code_unit) (t : jsstring) :
  trimEnd t <> [] -> trimEnd (y :: t) = y :: trimEnd t.
Proof.
  intros Hne. destruct (trimEnd_split t) as (b & E & Hb).
  destruct (trimEnd_shape t) as [E0 | (r & d & E0 & Hd)]; [contradiction |].
  rewrite E at 1. rewrite E0.
  replace (y :: (r ++ [d]) ++ b) with (((y :: r) ++ [d]) ++ b)
    by (now rewrite <- !app_assoc).
  rewrite trimEnd_app_blank by exact Hb. now apply trimEnd_solid.
Qed.

Lemma trimEnd_prefix (a : jsstring) (x : code_unit) (s : jsstring) :
  isWhiteSpace x = false -> trimEnd (a ++ x :: s) = a ++ x :: trimEnd s.
Proof.
  intros Hx. induction a as [| y a IH]; cbn [app].
  - now apply trimEnd_cons.
  - rewrite trimEnd_cons_any; rewrite IH; [reflexivity |].
    destruct a; discriminate.
Qed.

Lemma noneOf_trimEnd (bad : code_unit -> bool) (s : jsstring) :
  noneOf bad s = true -> noneOf bad (trimEnd s) = true.
Proof.
  intros H. destruct (trimEnd_split s) as (b & E & _).
  rewrite E, noneOf_app in H. now apply andb_prop in H as [H _].
Qed.

(** The entry that a line brings is one of the env format. *)
Lemma line_entry (line : jsstring) (c : code_unit) (r m1 m2 : jsstring) :
  noneOf isLF line = true ->
  trim line = c :: r -> isWhiteSpace c = false -> c <> HASH ->
  break_equals (trim line) = Some (m1, m2) ->
  m1 <> [] ->
  noneOf isLineTerminator m2 = true ->
  jseqb (trim m1) PROTO = false ->
  envEntry (trim m1, VStr (unquote (trim m2))).
Proof.
  intros Hlf Et Hc Hh Hb Hm1 Hm2 Hp.
  destruct (break_equals_some _ _ _ Hb) as [E Hk].
  assert (Hlf' : noneOf isLF m1 = true).
  { apply noneOf_trim in Hlf. rewrite E, noneOf_app in Hlf.
    now apply andb_prop in Hlf as [Hlf _]. }
  destruct m1 as [| x m1]; [contradiction |].
  assert (x = c) by (rewrite Et in E; now injection E). subst x.
  unfold envEntry. cbn [fst snd]. repeat split.
  - exists c, (trimEnd m1). split; [now apply trim_cons_solid | auto].
  - now apply noneOf_trim.
  - now apply noneOf_trim.
  - apply trim_idem.
  - exact Hp.
  - eexists. split; [reflexivity |]. now apply noneOf_unquote, noneOf_trim.
Qed.

Lemma envEntry_no_proto (o : Obj) : Forall envEntry o -> has PROTO o = false.
Proof.
  induction 1 as [| [k v] o Hk Ho IH]; [reflexivity |].
  rewrite has_cons, IH. destruct Hk as (_ & _ & _ & _ & Hp & _).
  cbn [fst] in Hp. now rewrite Hp.
Qed.

Lemma envEntry_assign (o : Obj) (k s : jsstring) :
  Forall envEntry o ->
  (jseqb k PROTO = false -> envEntry (k, VStr s)) ->
  Forall envEntry (assign o k s).
Proof.
  intros Ho Hk. destruct (jseqb k PROTO) eqn:E.
  - unfold assign. rewrite E. apply jseqb_eq in E. subst k.
    now rewrite (envEntry_no_proto o Ho).
  - apply Forall_assign; auto.
Qed.

Lemma parseEnvLine_invariant (result : Obj) (line : jsstring) :
  noneOf isLF line = true ->
  Forall envEntry result -> canonical result = true ->
  Forall envEntry (parseEnvLine result line)
  /\ canonical (parseEnvLine result line) = true.
Proof.
  intros Hlf Hr Hc.
  destruct (parseEnvLine_cases result line)
    as [-> | (c & r & m1 & m2 & Et & Hcw & Hh & Hb & Hm1 & Hm2 & ->)];
    [now split |].
  split; [| now apply canonical_assign].
  apply envEntry_assign; [exact Hr |].
  now apply line_entry with line c r.
Qed.

Lemma parseEnvLines_invariant (lines : list jsstring) : forall result : Obj,
  Forall (fun l => noneOf isLF l = true) lines ->
  Forall envEntry result -> canonical result = true ->
  Forall envEntry (fold_left parseEnvLine lines result)
  /\ canonical (fold_left parseEnvLine lines result) = true.
Proof.
  induction lines as [| l lines IH]; intros result Hl Hr Hc; [now split |].
  inversion Hl; subst. cbn [fold_left].
  destruct (parseEnvLine_invariant result l) as [Hr' Hc']; trivial.
  now apply IH.
Qed.

(** Every mapping the parser returns is well formed and made of entries
    of the env format. *)
Lemma parseEnvFile_invariant (content : jsstring) :
  Forall envEntry (parseEnvFile content)
  /\ canonical (parseEnvFile content) = true.
Proof.
  unfold parseEnvFile. apply parseEnvLines_invariant; trivial.
  apply (split_pieces isLF).
Qed.

(** Parsing the line [key=value] of an entry assigns the entry's key
    again, with the value trimmed and unquoted once more. *)
Lemma reparse_line (result : Obj) (p : jsstring * jsval) :
  envEntry p ->
  parseEnvLine result (envLine p)
  = assign result (fst (reparsed p))
      (unquote (trim (valueText (snd p)))).
Proof.
  destruct p as [k v].
  intros ((c & r & Ek & Hc & Hh) & Heq & _ & Htk & _ & (s & Ev & Hs)).
  cbn [fst snd] in *. subst v. unfold envLine, reparsed. cbn [fst snd valueText app].
  assert (Et : trim (k ++ EQUALS :: s) = k ++ EQUALS :: trimEnd s).
  { rewrite Ek. cbn [app]. rewrite trim_cons_solid by exact Hc. f_equal.
    now apply trimEnd_prefix. }
  unfold parseEnvLine. rewrite Et.
  replace (truthy (k ++ EQUALS :: trimEnd s)) with true by (now rewrite Ek).
  replace (startsWith (k ++ EQUALS :: trimEnd s) HASH) with false
    by (rewrite Ek; cbn; symmetry; now apply N.eqb_neq).
  cbn [negb orb]. unfold match_key_value.
  rewrite break_equals_app by exact Heq.
  replace (truthy k) with true by (now rewrite Ek).
  change (forallb (fun c0 => negb (isLineTerminator c0)) (trimEnd s))
    with (noneOf isLineTerminator (trimEnd s)).
  rewrite (noneOf_trimEnd _ _ Hs). cbn [andb].
  now rewrite Htk, trim_trimEnd.
Qed.

Lemma assign_define (o : Obj) (k s : jsstring) :
  jseqb k PROTO = false -> assign o k s = define o k (VStr s).
Proof. intros H. unfold assign. now rewrite H. Qed.

Lemma reparse_lines (m : Obj) : forall acc : Obj,
  Forall envEntry m ->
  fold_left parseEnvLine (map envLine m) acc = copy_into acc (map reparsed m).
Proof.
  unfold copy_into. induction m as [| p m IH]; intros acc H; [reflexivity |].
  inversion H as [| ? ? Hp Hm]; subst. cbn [map fold_left].
  rewrite reparse_line by exact Hp. rewrite assign_define.
  - now apply IH.
  - now destruct Hp as (_ & _ & _ & _ & Hproto & _).
Qed.

Lemma has_revalued (g : jsval -> jsval) k (m : Obj) :
  has k (map (fun p => (fst p, g (snd p))) m) = has k m.
Proof. unfold has. induction m as [| p m IH]; cbn; [reflexivity | now rewrite IH]. Qed.

Lemma forallb_keys_revalued (g : jsval -> jsval) (f : jsstring -> bool) (m : Obj) :
  forallb (fun p => f (fst p)) (map (fun p => (fst p, g (snd p))) m)
  = forallb (fun p => f (fst p)) m.
Proof. induction m as [| p m IH]; cbn; [reflexivity | now rewrite IH]. Qed.

(** Whether a mapping is in the order of [Object.keys] depends on its
    keys only. *)
Lemma canonical_revalued (g : jsval -> jsval) (m : Obj) :
  canonical (map (fun p => (fst p, g (snd p))) m) = canonical m.
Proof.
  induction m as [| [k v] m IH]; [reflexivity |].
  cbn [map fst snd].
  now rewrite !canonical_cons, IH, has_revalued,
    (forallb_keys_revalued g (before k)).
Qed.

Lemma envLine_no_LF (p : jsstring * jsval) :
  envEntry p -> noneOf isLF (envLine p) = true.
Proof.
  intros (_ & _ & Hlf & _ & _ & (s & Ev & Hs)).
  unfold envLine. rewrite Ev. cbn [valueText].
  now rewrite !noneOf_app, Hlf, (lineTerminator_free_no_LF s Hs).
Qed.

(** Parsing the lines [key=value] of a mapping of the env format: every
    entry keeps its key and its place; its value is trimmed and
    unquoted. *)
Lemma lines_reparse (m : Obj) :
  Forall envEntry m -> canonical m = true ->
  parseEnvFile (join [LF] (map envLine m)) = map reparsed m.
Proof.
  intros Hm Hc. destruct m as [| p m]; [reflexivity |].
  unfold parseEnvFile. change (fun c => c =? LF) with isLF.
  assert (Hs : split isLF (join [LF] (map envLine (p :: m))) = map envLine (p :: m)).
  { apply (split_join isLF LF (envLine p) (map envLine m)); [reflexivity |].
    change (envLine p :: map envLine m) with (map envLine (p :: m)).
    apply Forall_map. revert Hm. apply Forall_impl. exact envLine_no_LF. }
  rewrite Hs, reparse_lines by exact Hm.
  apply copy_canonical.
  now rewrite (canonical_revalued (fun v => VStr (unquote (trim (valueText v))))).
Qed.

(** ** The round trip *)

Lemma quoted_no_terminator (s : jsstring) :
  noneOf isLineTerminator s = true ->
  noneOf isLineTerminator (quoted s) = true.
Proof.
  intros H. unfold quoted. rewrite noneOf_cons, noneOf_app, H. reflexivity.
Qed.

(** Between double quotes a value survives the trimming and loses the
    quotes only. *)
Lemma unquote_trim_quoted (s : jsstring) : unquote (trim (quoted s)) = s.
Proof.
  unfold quoted. rewrite trim_wrapped by reflexivity.
  apply unquote_wrapped. now left.
Qed.

Lemma requoted_entry (p : jsstring * jsval) : envEntry p -> envEntry (requoted p).
Proof.
  intros (Hk & Heq & Hlf & Ht & Hp & (s & Ev & Hs)).
  unfold envEntry, requoted. cbn [fst snd]. repeat (split; [assumption |]).
  rewrite Ev. cbn [valueText]. eexists. split; [reflexivity |].
  now apply quoted_no_terminator.
Qed.

Lemma reparsed_requoted (p : jsstring * jsval) :
  envEntry p -> reparsed (requoted p) = p.
Proof.
  destruct p as [k v]. intros (_ & _ & _ & _ & _ & (s & Ev & _)).
  cbn [snd] in Ev. subst v. unfold reparsed, requoted. cbn [fst snd valueText].
  now rewrite unquote_trim_quoted.
Qed.

(** A serialized mapping of the env format parses to itself. *)
Lemma parse_serialized (m : Obj) :
  Forall envEntry m -> canonical m = true -> parseEnvFile (serializeEnv m) = m.
Proof.
  intros Hm Hc.
  assert (E : serializeEnv m = join [LF] (map envLine (map requoted m)))
    by (unfold serializeEnv; now rewrite map_map).
  rewrite E, lines_reparse.
  - rewrite map_map. rewrite <- (map_id m) at 2. apply map_ext_in.
    intros p Hin. rewrite Forall_forall in Hm. now apply reparsed_requoted, Hm.
  - apply Forall_map. revert Hm. apply Forall_impl. exact requoted_entry.
  - now rewrite (canonical_revalued (fun v => VStr (quoted (valueText v)))).
Qed.

(** C6.  For every text, serializing the mapping that the env-format
    parser produces to [KEY=VALUE] lines and parsing the lines again
    gives the same mapping, with the same keys in the same order and the
    same values; serializing that mapping gives the same lines again.
    The lines need not be the text that was parsed, whose quoting is
    not kept: the line [A=' x '], with single quotes, parses to the
    value [ x ] with its two blanks, which is written between double
    quotes and parsed back with its blanks. *)
Theorem env_round_trip :
  (forall text : jsstring,
     parseEnvFile (serializeEnv (parseEnvFile text)) = parseEnvFile text)
  /\ (forall text : jsstring,
        serializeEnv (parseEnvFile (serializeEnv (parseEnvFile text)))
        = serializeEnv (parseEnvFile text))
  /\ parseEnvFile (str "A=' x '") = [(str "A", VStr (str " x "))]
  /\ serializeEnv (parseEnvFile (str "A=' x '")) = str "A=" ++ quoted (str " x ")
  /\ serializeEnv (parseEnvFile (str "A=' x '")) <> str "A=' x '".
Proof.
  assert (H : forall text : jsstring,
            parseEnvFile (serializeEnv (parseEnvFile text)) = parseEnvFile text).
  { intros text. destruct (parseEnvFile_invariant text) as [He Hc].
    now apply parse_serialized. }
  split; [exact H |]. split; [intros text; now rewrite H |].
  split; [reflexivity |]. split; [reflexivity | discriminate].
Qed.

(** * The order of the merge *)

(** C1.  [parseVariables] is a left fold over the sources that are
    present, in the order file, JSON, inline, starting from the empty
    mapping.  Applying a source keeps the mapping well formed; a name the
    mapping already holds takes the value the source gives it (the last
    one, if the source gives several); a name the source does not
    mention keeps its value; a name new to the mapping is added with the
    value of the source.  So the value of a name is the one the inline
    text gives it, else the one the JSON text gives it, else the one the
    file gives it.  With the file [A=1], [B=2], the JSON object
    [B: 3, C: 4] and the inline text [C=5,D=6] the result is exactly
    [A: 1, B: 3, C: 5, D: 6]. *)
Theorem merge_is_left_fold :
  (forall (P : Platform) (envFile jsonVars variables : jsstring) h
          (content : jsstring) (parsed : jsval),
     (truthy envFile = true -> readFileSync P envFile = inl content) ->
     (truthy jsonVars = true -> JSON_parse jsonVars = Some parsed) ->
     snd (parseVariables P envFile jsonVars variables h)
     = Value (mergeSources (sourcesOf envFile jsonVars variables content parsed)))
  /\ (forall (m : Obj) (src : Source),
        canonical m = true -> canonical (applySource m src) = true)
  /\ (forall (m : Obj) (src : Source) k v,
        canonical m = true -> has k m = true ->
        last_value k (entriesOf src) = Some v ->
        lookup k (applySource m src) = Some v)
  /\ (forall (m : Obj) (src : Source) k,
        canonical m = true ->
        last_value k (entriesOf src) = None ->
        lookup k (applySource m src) = lookup k m)
  /\ (forall (m : Obj) (src : Source) k v,
        canonical m = true -> has k m = false ->
        isInline src = false \/ k <> PROTO ->
        last_value k (entriesOf src) = Some v ->
        lookup k (applySource m src) = Some v)
  /\ (forall (content : jsstring) (parsed : jsval) (raw : jsstring) k,
        k <> PROTO ->
        lookup k (mergeSources [FileSource content; JsonSource parsed;
                                InlineSource raw])
        = match last_value k (entriesOf (InlineSource raw)) with
          | Some v => Some v
          | None =>
              match last_value k (entriesOf (JsonSource parsed)) with
              | Some v => Some v
              | None => lookup k (parseEnvFile content)
              end
          end)
  /\ mergeSources
       [FileSource (str "A=1" ++ [LF] ++ str "B=2");
        JsonSource (VObj [(str "B", VStr (str "3")); (str "C", VStr (str "4"))]);
        InlineSource (str "C=5,D=6")]
     = [(str "A", VStr (str "1")); (str "B", VStr (str "3"));
        (str "C", VStr (str "5")); (str "D", VStr (str "6"))]
  /\ snd (parseVariables (examplePlatform []) (str ".env") exampleJson
            (str "C=5,D=6") [])
     = Value [(str "A", VStr (str "1")); (str "B", VStr (str "3"));
              (str "C", VStr (str "5")); (str "D", VStr (str "6"))].
Proof.
  split; [exact parseVariables_merges |].
  split; [exact canonical_applySource |].
  split; [| split; [| split; [| split; [| split; reflexivity]]]].
  - intros m src k v Hc Hk Hv.
    rewrite lookup_applySource, Hv, Hk by exact Hc.
    now rewrite andb_false_r.
  - intros m src k Hc Hv. now rewrite lookup_applySource, Hv.
  - intros m src k v Hc Hk Hor Hv.
    rewrite lookup_applySource, Hv by exact Hc.
    destruct Hor as [-> | Hp]; [reflexivity |].
    destruct (jseqb k PROTO) eqn:E; [apply jseqb_eq in E; contradiction |].
    now rewrite andb_false_r.
  - intros content parsed raw k Hp. unfold mergeSources. cbn [fold_left].
    assert (Hf : canonical (applySource [] (FileSource content)) = true)
      by now apply canonical_applySource.
    assert (Hj : canonical (applySource (applySource [] (FileSource content))
                              (JsonSource parsed)) = true)
      by now apply canonical_applySource.
    rewrite (lookup_applySource k _ (InlineSource raw) Hj).
    rewrite (lookup_applySource k _ (JsonSource parsed) Hf).
    rewrite (lookup_applySource k [] (FileSource content) eq_refl).
    cbn [isInline andb lookup].
    destruct (jseqb k PROTO) eqn:E; [apply jseqb_eq in E; contradiction |].
    cbn [andb entriesOf].
    rewrite (last_value_lookup k (parseEnvFile content))
      by apply parseEnvFile_invariant.
    now destruct (lookup k (parseEnvFile content)).
Qed.

Lemma merge_is_left_fold_witness :
  snd (parseVariables (examplePlatform []) (str ".env") exampleJson
         (str "C=5,D=6") [])
  = Value (mergeSources
             [FileSource (str "A=1" ++ [LF] ++ str "B=2");
              JsonSource (VObj [(str "B", VStr (str "3")); (str "C", VStr (str "4"))]);
              InlineSource (str "C=5,D=6")]).
Proof.
  exact (proj1 merge_is_left_fold (examplePlatform []) (str ".env") exampleJson
           (str "C=5,D=6") [] (str "A=1" ++ [LF] ++ str "B=2")
           (VObj [(str "B", VStr (str "3")); (str "C", VStr (str "4"))])
           (fun _ => eq_refl) (fun _ => eq_refl)).
Defined.

(** * More of the program *)

(** ** List *)

Lemma logs_app (t1 t2 : list Effect) : logs (t1 ++ t2) = logs t1 ++ logs t2.
Proof. apply flat_map_app. Qed.

Lemma logs_infos (f : jsstring -> jsstring) (keys : list jsstring) :
  logs (map (fun key => Info (f key)) keys) = map f keys.
Proof. induction keys as [| k keys IH]; cbn; [reflexivity | now rewrite <- IH]. Qed.

Lemma runList_run (P : Platform) client organisation appName environmentName h :
  let call := listEnvironmentVariables organisation appName environmentName in
  runList P client organisation appName environmentName h
  = match api P client h call with
    | Resolved data =>
        let variables : Obj := match data with Some o => o | None => [] end in
        (Info (str "Listing variables for environment: " ++ environmentName)
         :: Request call
         :: Info (str "Found " ++ decimal (List.length (Object_keys variables))
                    ++ str " variable(s)")
         :: SetOutput (str "variables") (OutJson variables)
         :: SetOutput (str "count")
              (OutNumber (List.length (Object_keys variables)))
         :: map (fun key => Info (str "  - " ++ key)) (Object_keys variables),
         Value tt)
    | Rejected e =>
        ([Info (str "Listing variables for environment: " ++ environmentName);
          Request call], Thrown e)
    end.
Proof.
  intros call. unfold runList. rewrite bind_info, bind_await. fold call.
  destruct (api P client h call) as [data | e]; [| reflexivity].
  cbn [fst snd]. rewrite bind_info, !bind_setOutput, log_loop. reflexivity.
Qed.

Ltac enter_list Hs Hop :=
  rewrite (run_supplied _ Hs); unfold dispatch; rewrite Hop;
  change (jseqb (str "list") (str "list")) with true;
  cbv iota.

(** X1.  The list operation makes exactly one request, a listing of the
    environment.  When it succeeds the run sets [variables] to the JSON
    text of the data received and [count] to the number of its keys (an
    empty object and zero when the response has no data) and is not
    marked failed.  When it is rejected no output is set and the run is
    marked failed with the message of the error. *)
Theorem list_reports_variables (P : Platform) :
  supplied P = true ->
  operationOf P = str "list" ->
  let call := listEnvironmentVariables
                (organisationOf P) (appNameOf P) (environmentNameOf P) in
  requests (run P) = [call]
  /\ (forall data, api P (clientOf P) [] call = Resolved (Some data) ->
        outputs (run P)
        = [(str "variables", OutJson data);
           (str "count", OutNumber (List.length (Object_keys data)))]
        /\ failures (run P) = [])
  /\ (api P (clientOf P) [] call = Resolved None ->
        outputs (run P)
        = [(str "variables", OutJson []); (str "count", OutNumber 0)]
        /\ failures (run P) = [])
  /\ (forall e, api P (clientOf P) [] call = Rejected e ->
        outputs (run P) = [] /\ failures (run P) = [failureMessage e]).
Proof.
  intros Hs Hop call. enter_list Hs Hop. rewrite runList_run. fold call.
  destruct (api P (clientOf P) [] call) as [[data |] | e];
    cbn [fst snd finish]; unfold banner.
  - destruct (requests_infos (fun key => str "  - " ++ key) (Object_keys data))
      as (R & O & F).
    cbv beta in R, O, F. unfold jsstring in R, O, F.
    split; [read_trace; now rewrite R |].
    split; [intros d [= <-]; read_trace; now rewrite O, F |].
    split; [discriminate |]. discriminate.
  - split; [reflexivity |]. split; [discriminate |].
    split; [intros _; split; reflexivity | discriminate].
  - split; [reflexivity |]. split; [discriminate |]. split; [discriminate |].
    intros e' [= <-]. split; reflexivity.
Qed.

Lemma list_reports_variables_witness :
  outputs (run (withRemote (examplePlatform []) listingRemote))
  = [(str "variables",
      OutJson [(str "X", VStr (str "1")); (str "Y", VStr (str "2"))]);
     (str "count", OutNumber 2)]
  /\ failures (run (withRemote (examplePlatform []) listingRemote)) = [].
Proof.
  exact (proj1 (proj2 (list_reports_variables
           (withRemote (examplePlatform []) listingRemote) eq_refl eq_refl))
           [(str "X", VStr (str "1")); (str "Y", VStr (str "2"))] eq_refl).
Defined.

(** What the list operation writes to the log. *)
Lemma list_logs (P : Platform) (data : Obj) :
  supplied P = true ->
  operationOf P = str "list" ->
  api P (clientOf P) []
    (listEnvironmentVariables (organisationOf P) (appNameOf P)
       (environmentNameOf P)) = Resolved (Some data) ->
  logs (run P)
  = [str "Quant Cloud Environment Variables Action";
     str "Operation: " ++ operationOf P;
     str "Listing variables for environment: " ++ environmentNameOf P;
     str "Found " ++ decimal (List.length (Object_keys data)) ++ str " variable(s)"]
    ++ map (fun key => str "  - " ++ key) (Object_keys data).
Proof.
  intros Hs Hop Hapi. rewrite (run_supplied _ Hs). unfold dispatch, banner.
  rewrite Hop. change (jseqb (str "list") (str "list")) with true.
  cbv iota. rewrite runList_run, Hapi. cbn [fst snd finish].
  rewrite !logs_app.
  pose proof (logs_infos (fun key => str "  - " ++ key) (Object_keys data)) as L.
  cbv beta in L. unfold jsstring in L.
  cbn [logs flat_map app]. unfold logs in L. now rewrite L.
Qed.

(** X2.  The log of the list operation depends on the names of the
    variables only: two remotes that answer with data of the same keys,
    whatever the values, leave the same lines in the log.  The values
    reach the [variables] output only. *)
Theorem list_log_hides_values (P : Platform)
    (remote1 remote2 : Configuration -> list Call -> Call -> Response)
    (data1 data2 : Obj) :
  supplied P = true ->
  operationOf P = str "list" ->
  let call := listEnvironmentVariables
                (organisationOf P) (appNameOf P) (environmentNameOf P) in
  remote1 (clientOf P) [] call = Resolved (Some data1) ->
  remote2 (clientOf P) [] call = Resolved (Some data2) ->
  Object_keys data1 = Object_keys data2 ->
  logs (run (withRemote P remote1)) = logs (run (withRemote P remote2)).
Proof.
  intros Hs Hop call H1 H2 Hk.
  rewrite (list_logs (withRemote P remote1) data1 Hs Hop H1).
  rewrite (list_logs (withRemote P remote2) data2 Hs Hop H2).
  now rewrite Hk.
Qed.

Lemma list_log_hides_values_witness :
  logs (run (withRemote (examplePlatform []) listingRemote))
  = logs (run (withRemote (examplePlatform [])
                 (fun _ _ _ =>
                    Resolved (Some [(str "X", VStr (str "secret"));
                                    (str "Y", VNull)])))).
Proof.
  exact (list_log_hides_values (examplePlatform []) listingRemote
           (fun _ _ _ => Resolved (Some [(str "X", VStr (str "secret"));
                                         (str "Y", VNull)]))
           [(str "X", VStr (str "1")); (str "Y", VStr (str "2"))]
           [(str "X", VStr (str "secret")); (str "Y", VNull)]
           eq_refl eq_refl eq_refl eq_refl eq_refl).
Defined.

(** ** Runs that stop before any request *)

Lemma jseqb_false (a b : jsstring) : a <> b -> jseqb a b = false.
Proof.
  intros H. destruct (jseqb a b) eqn:E; [| reflexivity].
  apply jseqb_eq in E. contradiction.
Qed.

Lemma failureMessage_newError (msg : jsstring) :
  truthy msg = true -> failureMessage (newError msg) = msg.
Proof.
  intros H. unfold failureMessage, describe, newError. cbn [body_message message].
  unfold or_else at 2. cbn [truthy]. unfold or_else. now rewrite H.
Qed.

(** X3.  When one of the four required inputs is not supplied (its
    value is empty; a value of white space counts as supplied, since
    the test comes before the trimming) the run does nothing but mark
    itself failed, with the message that names the first missing input
    in the order [api_key], [app_name], [organization],
    [environment_name]: nothing is logged, no request is made and no
    output is set, whatever the operation. *)
Theorem missing_input_fails (P : Platform) (name : jsstring) :
  firstMissing P = Some name ->
  run P = [SetFailed (str "Input required and not supplied: " ++ name)].
Proof.
  unfold firstMissing. intros H. rewrite run_finish. unfold runBody.
  destruct (truthy (rawInput P (str "api_key"))) eqn:Hk; cbn [negb] in H.
  2:{ injection H as <-. unfold getInput at 1. rewrite Hk. reflexivity. }
  rewrite (bind_getInput_required P _ _ _ Hk).
  destruct (truthy (rawInput P (str "app_name"))) eqn:Ha; cbn [negb] in H.
  2:{ injection H as <-. unfold getInput at 1. rewrite Ha. reflexivity. }
  rewrite (bind_getInput_required P _ _ _ Ha).
  destruct (truthy (rawInput P (str "organization"))) eqn:Ho; cbn [negb] in H.
  2:{ injection H as <-. unfold getInput at 1. rewrite Ho. reflexivity. }
  rewrite (bind_getInput_required P _ _ _ Ho).
  destruct (truthy (rawInput P (str "environment_name"))) eqn:He; cbn [negb] in H.
  2:{ injection H as <-. unfold getInput at 1. rewrite He. reflexivity. }
  discriminate H.
Qed.

Lemma missing_input_fails_witness :
  run (mkPlatform
         (exampleInputs [("api_key", "secret"); ("operation", "clear")]%string)
         exampleFiles (fun _ => []) exampleRemote)
  = [SetFailed (str "Input required and not supplied: app_name")].
Proof.
  exact (missing_input_fails
           (mkPlatform
              (exampleInputs [("api_key", "secret"); ("operation", "clear")]%string)
              exampleFiles (fun _ => []) exampleRemote)
           (str "app_name") eq_refl).
Defined.

(** X4.  An operation other than [list], [set], [clear] and [delete]
    makes the run fail with a message that quotes it and lists the valid
    operations; the run logs its two opening lines, makes no request and
    sets no output. *)
Theorem unknown_operation_fails (P : Platform) :
  supplied P = true ->
  operationOf P <> str "list" ->
  operationOf P <> str "clear" ->
  operationOf P <> str "delete" ->
  operationOf P <> str "set" ->
  run P
  = banner P
    ++ [SetFailed (str "Unknown operation: " ++ operationOf P
                     ++ str ". Valid operations are: list, set, clear, delete")].
Proof.
  intros Hs Hl Hc Hd Hset. rewrite (run_supplied P Hs). unfold dispatch.
  rewrite (jseqb_false _ _ Hl), (jseqb_false _ _ Hc), (jseqb_false _ _ Hd),
    (jseqb_false _ _ Hset).
  cbn [fst snd throw finish app]. rewrite app_nil_r.
  now rewrite failureMessage_newError.
Qed.

Lemma unknown_operation_fails_witness :
  run (examplePlatform [("operation", "purge")]%string)
  = banner (examplePlatform [("operation", "purge")]%string)
    ++ [SetFailed (str "Unknown operation: purge. Valid operations are: list, set, clear, delete")].
Proof.
  refine (unknown_operation_fails
            (examplePlatform [("operation", "purge")]%string) eq_refl _ _ _ _);
    discriminate.
Defined.

Ltac enter_delete Hs Hop :=
  rewrite (run_supplied _ Hs); unfold dispatch; rewrite Hop;
  change (jseqb (str "delete") (str "list")) with false;
  change (jseqb (str "delete") (str "clear")) with false;
  change (jseqb (str "delete") (str "delete")) with true;
  cbv iota.

(** X5.  The delete operation needs at least one key.  When the key
    list is empty the run makes no request, sets no output and is marked
    failed: with the message of the missing input when the [keys] input
    is not supplied (its value is empty), with
    [No keys provided for delete operation] when it is supplied but
    holds nothing but commas, line feeds and white space. *)
Theorem delete_without_keys_fails (P : Platform) :
  supplied P = true ->
  operationOf P = str "delete" ->
  parseKeys (input P (str "keys")) = [] ->
  run P
  = banner P
    ++ [SetFailed (if truthy (rawInput P (str "keys"))
                   then str "No keys provided for delete operation"
                   else str "Input required and not supplied: keys")].
Proof.
  intros Hs Hop Hk. enter_delete Hs Hop. unfold runDelete.
  destruct (truthy (rawInput P (str "keys"))) eqn:Hin.
  - rewrite (bind_getInput_required P _ _ _ Hin), Hk. reflexivity.
  - unfold getInput. rewrite Hin. reflexivity.
Qed.

Lemma delete_without_keys_fails_witness :
  run (examplePlatform [("operation", "delete"); ("keys", " , ,")]%string)
  = banner (examplePlatform [("operation", "delete"); ("keys", " , ,")]%string)
    ++ [SetFailed (str "No keys provided for delete operation")]
  /\ run (examplePlatform [("operation", "delete"); ("keys", "  ")]%string)
     = banner (examplePlatform [("operation", "delete"); ("keys", "  ")]%string)
       ++ [SetFailed (str "No keys provided for delete operation")]
  /\ run (examplePlatform [("operation", "delete")]%string)
     = banner (examplePlatform [("operation", "delete")]%string)
       ++ [SetFailed (str "Input required and not supplied: keys")].
Proof.
  split; [| split].
  - exact (delete_without_keys_fails
             (examplePlatform [("operation", "delete"); ("keys", " , ,")]%string)
             eq_refl eq_refl eq_refl).
  - exact (delete_without_keys_fails
             (examplePlatform [("operation", "delete"); ("keys", "  ")]%string)
             eq_refl eq_refl eq_refl).
  - exact (delete_without_keys_fails
             (examplePlatform [("operation", "delete")]%string)
             eq_refl eq_refl eq_refl).
Defined.

(** X6.  The set operation needs a source.  When none of [env_file],
    [json_vars] and [variables] is supplied the run makes no request,
    sets no output and is marked failed with the message that asks for
    one of them, in replace mode as in merge mode. *)
Theorem set_without_source_fails (P : Platform) :
  supplied P = true ->
  operationOf P = str "set" ->
  anySource P = false ->
  run P
  = banner P
    ++ [SetFailed (str
          "At least one of env_file, json_vars, or variables must be provided for set operation")].
Proof.
  intros Hs Hop Hany. enter_set Hs Hop. unfold runSet.
  rewrite !bind_getInput_optional.
  fold (envFileOf P) (jsonVarsOf P) (variablesOf P).
  unfold anySource in Hany.
  destruct (truthy (envFileOf P)), (truthy (jsonVarsOf P)), (truthy (variablesOf P));
    try discriminate Hany.
  reflexivity.
Qed.

Lemma set_without_source_fails_witness :
  requests (run (examplePlatform [("operation", "set"); ("replace", "true")]%string))
  = [].
Proof.
  rewrite (set_without_source_fails
             (examplePlatform [("operation", "set"); ("replace", "true")]%string)
             eq_refl eq_refl eq_refl).
  reflexivity.
Defined.

(** X7.  When the env file of the set operation cannot be read the error
    of the file system is fatal: the run logs that it loads the file,
    then is marked failed with the message of that error.  Nothing else
    is read (a JSON source is not parsed, so that its syntax errors do
    not show), no request is made and no output is set. *)
Theorem set_unreadable_file_fails (P : Platform) (msg : jsstring) :
  supplied P = true ->
  operationOf P = str "set" ->
  truthy (envFileOf P) = true ->
  readFileSync P (envFileOf P) = inr msg ->
  run P
  = banner P
    ++ [Info (str "Loading variables from .env file: " ++ envFileOf P);
        SetFailed (or_else msg (str "Unknown error"))].
Proof.
  intros Hs Hop Hf Hr. enter_set Hs Hop. unfold runSet.
  rewrite !bind_getInput_optional.
  fold (envFileOf P) (jsonVarsOf P) (variablesOf P).
  rewrite Hf. cbn [negb andb].
  unfold parseVariables. rewrite Hf.
  unfold bind, readFile, info, perform, throw. rewrite Hr. reflexivity.
Qed.

Lemma set_unreadable_file_fails_witness :
  run (examplePlatform
         [("operation", "set"); ("env_file", "missing.env");
          ("json_vars", "{")]%string)
  = banner (examplePlatform
              [("operation", "set"); ("env_file", "missing.env");
               ("json_vars", "{")]%string)
    ++ [Info (str "Loading variables from .env file: missing.env");
        SetFailed (str "ENOENT: no such file or directory")].
Proof.
  exact (set_unreadable_file_fails
           (examplePlatform
              [("operation", "set"); ("env_file", "missing.env");
               ("json_vars", "{")]%string)
           (str "ENOENT: no such file or directory")
           eq_refl eq_refl eq_refl eq_refl).
Defined.

(** ** The list of keys to delete *)

Lemma filter_all {A : Type} (f : A -> bool) (l : list A) :
  Forall (fun x => f x = true) l -> filter f l = l.
Proof.
  induction 1 as [| x l Hx Hl IH]; cbn; [reflexivity |]. now rewrite Hx, IH.
Qed.

Lemma map_fixed {A : Type} (f : A -> A) (l : list A) :
  Forall (fun x => f x = x) l -> map f l = l.
Proof.
  induction 1 as [| x l Hx Hl IH]; cbn; [reflexivity |]. now rewrite Hx, IH.
Qed.

(** X8.  Every key that the delete operation takes from its input is
    trimmed, not empty and free of commas and line feeds; and a list of
    such keys written with commas between them is read back as it is,
    in the same order and with its repetitions. *)
Theorem parseKeys_clean :
  (forall (keysInput k : jsstring), In k (parseKeys keysInput) -> cleanKey k)
  /\ (forall keys : list jsstring,
        Forall cleanKey keys -> parseKeys (join [COMMA] keys) = keys).
Proof.
  split.
  - intros keysInput k Hin. unfold parseKeys in Hin.
    apply filter_In in Hin as [Hin Ht].
    apply in_map_iff in Hin as (p & <- & Hp).
    change (fun c => (c =? LF) || (c =? COMMA)) with isDelimiter in Hp.
    pose proof (split_pieces isDelimiter keysInput) as Hs.
    rewrite Forall_forall in Hs. specialize (Hs p Hp). cbv beta in Hs.
    repeat split.
    + intros E. rewrite E in Ht. discriminate Ht.
    + apply trim_idem.
    + now apply noneOf_trim.
  - intros [| k keys] H; [reflexivity |]. unfold parseKeys.
    change (fun c => (c =? LF) || (c =? COMMA)) with isDelimiter.
    rewrite (split_join isDelimiter COMMA k keys); [| reflexivity |].
    + rewrite map_fixed by (revert H; apply Forall_impl; now intros a (_ & Ha & _)).
      apply filter_all. revert H. apply Forall_impl.
      intros a (Ha & _). now apply truthy_nonempty.
    + revert H. apply Forall_impl. now intros a (_ & _ & Ha).
Qed.

Lemma parseKeys_clean_witness :
  parseKeys (join [COMMA] [str "A"; str "B C"; str "A"])
  = [str "A"; str "B C"; str "A"].
Proof.
  refine (proj2 parseKeys_clean [str "A"; str "B C"; str "A"] _).
  repeat constructor; discriminate.
Defined.

(** ** Lines of the env format *)

Lemma parseEnvLine_skippable (result : Obj) (line : jsstring) :
  skippable line = true -> parseEnvLine result line = result.
Proof.
  unfold skippable, parseEnvLine. intros H.
  destruct (negb (truthy (trim line)) || startsWith (trim line) HASH);
    [reflexivity |].
  cbn [orb] in H. unfold match_key_value.
  now rewrite (break_equals_absent _ (noneOf_trim _ _ H)).
Qed.

Lemma fold_left_skip {A B : Type} (f : A -> B -> A) (skip : B -> bool)
    (l : list B) : forall a : A,
  (forall a b, skip b = true -> f a b = a) ->
  fold_left f l a = fold_left f (filter (fun b => negb (skip b)) l) a.
Proof.
  induction l as [| b l IH]; intros a H; [reflexivity |]. cbn.
  destruct (skip b) eqn:E; cbn; [rewrite (H a b E) |]; now apply IH.
Qed.

(** X9.  Blank lines, comment lines (the first character that is not
    white space is a hash sign) and lines without an equals sign do not
    count: an env file parses to what its other lines parse to, and to
    the empty mapping when it has no other line. *)
Theorem env_skips_blank_comment_and_plain_lines :
  (forall content : jsstring,
     parseEnvFile content
     = fold_left parseEnvLine
         (filter (fun l => negb (skippable l)) (split isLF content)) [])
  /\ (forall content : jsstring,
        Forall (fun l => skippable l = true) (split isLF content) ->
        parseEnvFile content = []).
Proof.
  assert (H : forall content : jsstring,
            parseEnvFile content
            = fold_left parseEnvLine
                (filter (fun l => negb (skippable l)) (split isLF content)) []).
  { intros content. unfold parseEnvFile. change (fun c => c =? LF) with isLF.
    apply fold_left_skip. intros a b. apply parseEnvLine_skippable. }
  split; [exact H |].
  intros content Hall. rewrite H.
  replace (filter (fun l => negb (skippable l)) (split isLF content))
    with (@nil jsstring); [reflexivity |].
  symmetry. induction Hall as [| l ls Hl Hls IH]; cbn; [reflexivity |].
  now rewrite Hl.
Qed.

Lemma env_skips_blank_comment_and_plain_lines_witness :
  parseEnvFile (str "# comment" ++ [LF; LF] ++ str "  no equals sign here ") = [].
Proof.
  refine (proj2 env_skips_blank_comment_and_plain_lines _ _).
  repeat constructor.
Defined.

Lemma split_concat (sep : code_unit -> bool) (a b : jsstring) (c : code_unit) :
  sep c = true -> split sep (a ++ c :: b) = split sep a ++ split sep b.
Proof.
  intros Hc. induction a as [| x a IH]; cbn.
  - now rewrite Hc.
  - rewrite IH. destruct (sep x); [reflexivity |].
    destruct (split_nonempty sep a) as (h & t & ->). reflexivity.
Qed.

(** Parsing a text followed by more lines continues from the mapping of
    the text. *)
Lemma parseEnvFile_app (content more : jsstring) :
  parseEnvFile (content ++ LF :: more)
  = fold_left parseEnvLine (split isLF more) (parseEnvFile content).
Proof.
  unfold parseEnvFile. change (fun c => c =? LF) with isLF.
  now rewrite (split_concat isLF content more LF eq_refl), fold_left_app.
Qed.

(** X10.  The file is read from top to bottom and the last line for a key
    wins: after any text, one more line [key=value] gives the key the
    value of that line (trimmed and unquoted), whatever the text gave it
    before, and leaves the value of every other key as the text gave
    it. *)
Theorem env_last_line_wins (content : jsstring) (p : jsstring * jsval)
    (k : jsstring) :
  envEntry p ->
  lookup k (parseEnvFile (content ++ LF :: envLine p))
  = if jseqb (fst p) k then Some (snd (reparsed p))
    else lookup k (parseEnvFile content).
Proof.
  intros Hp. rewrite parseEnvFile_app.
  rewrite (split_none isLF _ (envLine_no_LF p Hp)). cbn [fold_left].
  rewrite reparse_line by exact Hp. rewrite lookup_assign.
  change (fst (reparsed p)) with (fst p).
  destruct (jseqb (fst p) k) eqn:E; [| reflexivity].
  apply jseqb_eq in E. subst k.
  destruct Hp as (_ & _ & _ & _ & Hproto & _). rewrite Hproto. reflexivity.
Qed.

Lemma env_last_line_wins_witness :
  lookup (str "A")
    (parseEnvFile (str "A=1" ++ [LF] ++ str "B=2" ++ LF :: str "A=three"))
  = Some (VStr (str "three")).
Proof.
  refine (env_last_line_wins (str "A=1" ++ [LF] ++ str "B=2")
            (str "A", VStr (str "three")) (str "A") _).
  unfold envEntry. cbn [fst snd].
  repeat split; try reflexivity.
  - exists 65, []. repeat split; discriminate.
  - exists (str "three"). split; reflexivity.
Defined.

Lemma lookup_In_pair (k : jsstring) (o : Obj) (v : jsval) :
  lookup k o = Some v -> In (k, v) o.
Proof.
  induction o as [| [k0 v0] o IH]; cbn; [discriminate |].
  destruct (jseqb k0 k) eqn:E; [| auto].
  apply jseqb_eq in E. subst k0. intros [= <-]. now left.
Qed.

Lemma has_In (k : jsstring) (o : Obj) : In k (Object_keys o) -> has k o = true.
Proof.
  induction o as [| [k0 v0] o IH]; [contradiction |].
  rewrite has_cons. cbn [Object_keys map fst].
  intros [-> | H]; [now rewrite jseqb_refl | rewrite (IH H); apply orb_true_r].
Qed.

Lemma canonical_NoDup (o : Obj) : canonical o = true -> NoDup (Object_keys o).
Proof.
  induction o as [| [k v] o IH]; [constructor |].
  rewrite canonical_cons. intros H.
  apply andb_prop in H as [H Hc]. apply andb_prop in H as [Hh _].
  apply negb_true_iff in Hh. cbn. constructor; [| now apply IH].
  intros Hin. apply has_In in Hin. congruence.
Qed.

(** X11.  What an env file can yield.  No key occurs twice; every key is
    not empty, trimmed, without an equals sign, does not start with a
    hash sign and is not [__proto__]; every value is a string without
    line terminators. *)
Theorem env_entries_well_formed (content : jsstring) :
  NoDup (Object_keys (parseEnvFile content))
  /\ forall k v,
       lookup k (parseEnvFile content) = Some v ->
       k <> [] /\ trim k = k /\ noneOf isEquals k = true
       /\ startsWith k HASH = false /\ k <> PROTO
       /\ exists s, v = VStr s /\ noneOf isLineTerminator s = true.
Proof.
  destruct (parseEnvFile_invariant content) as [He Hc].
  split; [now apply canonical_NoDup |].
  intros k v Hl. apply lookup_In_pair in Hl.
  rewrite Forall_forall in He.
  destruct (He _ Hl) as ((c & r & Ek & _ & Hh) & Heq & _ & Ht & Hp & Hv).
  cbn [fst snd] in *. repeat split; trivial.
  - rewrite Ek. discriminate.
  - rewrite Ek. cbn. now apply N.eqb_neq.
  - intros E. rewrite E, jseqb_refl in Hp. discriminate Hp.
Qed.



(** ** Line ends *)

Lemma parseEnvLine_trim (result : Obj) (l l' : jsstring) :
  trim l = trim l' -> parseEnvLine result l = parseEnvLine result l'.
Proof. intros H. unfold parseEnvLine. now rewrite H. Qed.

Lemma parseEnvLines_trim (ls ls' : list jsstring) : forall result : Obj,
  Forall2 (fun l l' => trim l = trim l') ls ls' ->
  fold_left parseEnvLine ls result = fold_left parseEnvLine ls' result.
Proof.
  intros result H. revert result.
  induction H as [| l l' ls ls' Hl Hls IH]; intros result; [reflexivity |].
  cbn. now rewrite (parseEnvLine_trim result l l' Hl), IH.
Qed.

Lemma join_crlf (lines : list jsstring) :
  join [CR; LF] lines = join [LF] (withCR lines).
Proof.
  induction lines as [| l [| l' ls] IH]; [reflexivity | reflexivity |].
  rewrite join_cons, IH.
  change (withCR (l :: l' :: ls)) with ((l ++ [CR]) :: withCR (l' :: ls)).
  destruct (withCR (l' :: ls)) as [| w ws] eqn:E;
    [destruct ls; discriminate E |].
  rewrite join_cons, <- !app_assoc. reflexivity.
Qed.

Lemma withCR_lines (lines : list jsstring) :
  Forall (fun l => noneOf isLF l = true) lines ->
  Forall (fun l => noneOf isLF l = true) (withCR lines)
  /\ Forall2 (fun l l' => trim l = trim l') (withCR lines) lines.
Proof.
  induction lines as [| l [| l' ls] IH]; intros H.
  - split; constructor.
  - split; [exact H | repeat constructor].
  - inversion H as [| ? ? Hl Hrest]; subst.
    destruct (IH Hrest) as [H1 H2].
    change (withCR (l :: l' :: ls)) with ((l ++ [CR]) :: withCR (l' :: ls)).
    split.
    + constructor; [| exact H1]. now rewrite noneOf_app, Hl.
    + constructor; [| exact H2]. now apply trim_app_blank.
Qed.

(** X13.  Windows line ends are harmless: a file whose lines are
    separated by carriage return and line feed parses to the same
    mapping as the file with the same lines separated by line feeds. *)
Theorem env_accepts_crlf (lines : list jsstring) :
  Forall (fun l => noneOf isLF l = true) lines ->
  parseEnvFile (join [CR; LF] lines) = parseEnvFile (join [LF] lines).
Proof.
  intros H. destruct (withCR_lines lines H) as [H1 H2].
  rewrite join_crlf. destruct lines as [| l ls]; [reflexivity |].
  destruct (withCR (l :: ls)) as [| w ws] eqn:E;
    [destruct ls; discriminate E |].
  unfold parseEnvFile. change (fun c => c =? LF) with isLF.
  rewrite (split_join isLF LF w ws eq_refl H1),
    (split_join isLF LF l ls eq_refl H).
  now apply parseEnvLines_trim.
Qed.

Lemma env_accepts_crlf_witness :
  parseEnvFile (str "A=1" ++ [CR; LF] ++ str "B= two " ++ [CR; LF])
  = parseEnvFile (str "A=1" ++ [LF] ++ str "B= two " ++ [LF]).
Proof.
  refine (env_accepts_crlf [str "A=1"; str "B= two "; []] _).
  repeat constructor.
Defined.

(** ** What a JSON text can hold *)

(** [JSON.parse] never yields [undefined], neither as the value nor as
    an element or a member of it. *)
Lemma json_defined (f : nat) :
  (forall s v r, value f s = Some (v, r) -> holdsNoUndefined v)
  /\ (forall s acc v r,
        elements f s acc = Some (v, r) ->
        Forall (fun x => isDefined x = true) acc -> holdsNoUndefined v)
  /\ (forall s acc v r,
        members f s acc = Some (v, r) ->
        Forall (fun p => isDefined (snd p) = true) acc -> holdsNoUndefined v).
Proof.
  induction f as [| f (IHv & IHe & IHm)];
    [repeat split; intros; discriminate |].
  split; [| split].
  - intros s v r H. cbn [value] in H.
    destruct (skip_ws s) as [| c r0]; [discriminate |].
    destruct (c =? 123).
    { destruct (skip_ws r0) as [| c' r']; [discriminate |].
      destruct (c' =? 125).
      - injection H as <- <-. split; [reflexivity | constructor].
      - apply (IHm r0 [] v r H). constructor. }
    destruct (c =? 91).
    { destruct (skip_ws r0) as [| c' r']; [discriminate |].
      destruct (c' =? 93).
      - injection H as <- <-. split; [reflexivity | constructor].
      - apply (IHe r0 [] v r H). constructor. }
    destruct (c =? 34).
    { destruct (string_chars r0) as [[t r'] |]; [| discriminate].
      injection H as <- <-. now split. }
    destruct (strip_prefix (str "true") (c :: r0));
      [injection H as <- <-; now split |].
    destruct (strip_prefix (str "false") (c :: r0));
      [injection H as <- <-; now split |].
    destruct (strip_prefix (str "null") (c :: r0));
      [injection H as <- <-; now split |].
    destruct (number_literal (c :: r0)) as [[n r1] |]; [| discriminate].
    injection H as <- <-. now split.
  - intros s acc v r H Hacc. cbn [elements] in H.
    destruct (value f s) as [[v1 r1] |] eqn:Ev; [| discriminate].
    destruct (IHv s v1 r1 Ev) as [Hv1 _].
    assert (Hacc' : Forall (fun x => isDefined x = true) (acc ++ [v1]))
      by (apply Forall_app; split; [exact Hacc | now repeat constructor]).
    destruct (skip_ws r1) as [| c r']; [discriminate |].
    destruct (c =? 44); [now apply (IHe r' (acc ++ [v1]) v r H) |].
    destruct (c =? 93); [| discriminate].
    injection H as <- <-. now split.
  - intros s acc v r H Hacc. cbn [members] in H.
    destruct (skip_ws s) as [| q r0]; [discriminate |].
    destruct (q =? 34); [| discriminate].
    destruct (string_chars r0) as [[k r1] |]; [| discriminate].
    destruct (skip_ws r1) as [| c1 r2]; [discriminate |].
    destruct (c1 =? 58); [| discriminate].
    destruct (value f r2) as [[v1 r3] |] eqn:Ev; [| discriminate].
    destruct (IHv r2 v1 r3 Ev) as [Hv1 _].
    assert (Hacc' : Forall (fun p => isDefined (snd p) = true) (define acc k v1))
      by now apply Forall_define.
    destruct (skip_ws r3) as [| c3 r4]; [discriminate |].
    destruct (c3 =? 44); [now apply (IHm r4 (define acc k v1) v r H) |].
    destruct (c3 =? 125); [| discriminate].
    injection H as <- <-. now split.
Qed.

Lemma indexed_Forall {A : Type} (Q : jsval -> Prop) (f : A -> jsval)
    (l : list A) : forall i,
  Forall (fun x => Q (f x)) l -> Forall (fun p => Q (snd p)) (indexed f i l).
Proof.
  induction l as [| x l IH]; intros i H; [constructor |].
  inversion H; subst. cbn. constructor; [assumption | now apply IH].
Qed.

Lemma JSON_parse_defined (text : jsstring) (parsed : jsval) :
  JSON_parse text = Some parsed ->
  Forall (fun p => isDefined (snd p) = true) (own_properties parsed).
Proof.
  unfold JSON_parse.
  destruct (value (S (List.length text)) text) as [[v r] |] eqn:E;
    [| discriminate].
  destruct (skip_ws r); [| discriminate]. intros [= <-].
  destruct (proj1 (json_defined _) _ _ _ E) as [_ H].
  destruct v; cbn [own_properties]; try constructor.
  - apply (indexed_Forall (fun x => isDefined x = true)).
    apply Forall_forall. reflexivity.
  - now apply (indexed_Forall (fun x => isDefined x = true)).
  - exact H.
Qed.

(** ** What the merged mapping can hold *)

Lemma parseVariables_value (P : Platform)
    (envFile jsonVars variables : jsstring) h (vars : Obj) :
  snd (parseVariables P envFile jsonVars variables h) = Value vars ->
  exists content parsed,
    (truthy envFile = true -> readFileSync P envFile = inl content)
    /\ (truthy jsonVars = true -> JSON_parse jsonVars = Some parsed)
    /\ vars = mergeSources (sourcesOf envFile jsonVars variables content parsed).
Proof.
  unfold parseVariables, sourcesOf, bind, readFile, parseJson, info, perform,
    ret, throw.
  destruct (truthy envFile); [destruct (readFileSync P envFile) as [content | m] |];
    (destruct (truthy jsonVars);
     [destruct (JSON_parse jsonVars) as [parsed |] |]);
    destruct (truthy variables); cbn; intros H; try discriminate H;
    injection H as <-;
    first [ exists content, parsed | exists content, VNull
          | exists [], parsed | exists [], VNull ];
    repeat split; trivial; discriminate.
Qed.

Section ValuesOfTheMerge.

Variable Q : jsval -> Prop.
Hypothesis Q_strings : forall s, Q (VStr s).

Lemma Forall_copy_into (src : Obj) : forall m : Obj,
  Forall (fun p => Q (snd p)) m -> Forall (fun p => Q (snd p)) src ->
  Forall (fun p => Q (snd p)) (copy_into m src).
Proof.
  unfold copy_into. induction src as [| [k v] src IH]; intros m Hm Hs; [exact Hm |].
  inversion Hs; subst. cbn. apply IH; [| assumption].
  now apply (Forall_define (fun p => Q (snd p))).
Qed.

Lemma Forall_setPairs (raw : jsstring) (m : Obj) :
  Forall (fun p => Q (snd p)) m -> Forall (fun p => Q (snd p)) (setPairs m raw).
Proof.
  rewrite setPairs_inlinePairs. generalize (inlinePairs raw). intros pairs.
  revert m. induction pairs as [| p pairs IH]; intros m H; [exact H |].
  cbn. apply IH. apply (Forall_assign (fun p => Q (snd p))); [exact H |].
  apply Q_strings.
Qed.

Lemma Forall_parseEnvFile (content : jsstring) :
  Forall (fun p => Q (snd p)) (parseEnvFile content).
Proof.
  destruct (parseEnvFile_invariant content) as [H _].
  revert H. apply Forall_impl.
  intros p (_ & _ & _ & _ & _ & (s & -> & _)). apply Q_strings.
Qed.

Lemma Forall_applySource (m : Obj) (src : Source) :
  Forall (fun p => Q (snd p)) m ->
  (forall parsed, src = JsonSource parsed ->
                  Forall (fun p => Q (snd p)) (own_properties parsed)) ->
  Forall (fun p => Q (snd p)) (applySource m src).
Proof.
  intros Hm Hj. destruct src as [content | parsed | raw]; cbn [applySource].
  - unfold spread. apply Forall_copy_into; [| apply Forall_parseEnvFile].
    apply Forall_copy_into; [constructor | exact Hm].
  - unfold spread. apply Forall_copy_into; [| now apply Hj].
    apply Forall_copy_into; [constructor | exact Hm].
  - now apply Forall_setPairs.
Qed.

Lemma Forall_merged (P : Platform) (envFile jsonVars variables : jsstring) h
    (vars : Obj) :
  snd (parseVariables P envFile jsonVars variables h) = Value vars ->
  (forall parsed, truthy jsonVars = true -> JSON_parse jsonVars = Some parsed ->
                  Forall (fun p => Q (snd p)) (own_properties parsed)) ->
  Forall (fun p => Q (snd p)) vars.
Proof.
  intros H Hj.
  destruct (parseVariables_value P _ _ _ _ _ H) as (content & parsed & Hf & Hp & ->).
  unfold mergeSources, sourcesOf.
  assert (H0 : Forall (fun p : jsstring * jsval => Q (snd p)) []) by constructor.
  revert H0. generalize (@nil (jsstring * jsval)). intros m Hm.
  destruct (truthy envFile); cbn [app fold_left].
  - assert (Hm1 := Forall_applySource m (FileSource content) Hm
                     ltac:(intros ? [=])).
    destruct (truthy jsonVars) eqn:Ej; cbn [app fold_left].
    + assert (Hm2 := Forall_applySource _ (JsonSource parsed) Hm1
                       ltac:(intros ? [= <-]; now apply Hj; [| apply Hp])).
      destruct (truthy variables); cbn [fold_left]; [| exact Hm2].
      now apply Forall_applySource; [| intros ? [=]].
    + destruct (truthy variables); cbn [fold_left]; [| exact Hm1].
      now apply Forall_applySource; [| intros ? [=]].
  - destruct (truthy jsonVars) eqn:Ej; cbn [app fold_left].
    + assert (Hm2 := Forall_applySource m (JsonSource parsed) Hm
                       ltac:(intros ? [= <-]; now apply Hj; [| apply Hp])).
      destruct (truthy variables); cbn [fold_left]; [| exact Hm2].
      now apply Forall_applySource; [| intros ? [=]].
    + destruct (truthy variables); cbn [fold_left]; [| exact Hm].
      now apply Forall_applySource; [| intros ? [=]].
Qed.

End ValuesOfTheMerge.

(** ** What every run keeps to *)

Lemma disciplined_quiet (P : Platform) (t : list Effect) :
  requests t = [] -> outputs t = [] -> failures t = [] -> disciplined P t.
Proof.
  intros R O F. unfold disciplined. rewrite R, O, F.
  split; [reflexivity |]. split; [constructor | now left].
Qed.

Lemma disciplined_app (P : Platform) (t0 t : list Effect) :
  requests t0 = [] -> outputs t0 = [] -> failures t0 = [] ->
  disciplined P t -> disciplined P (t0 ++ t).
Proof.
  intros R O F H. unfold disciplined in *.
  now rewrite requests_app, outputs_app, failures_app, R, O, F.
Qed.

Lemma runList_disciplined (P : Platform) :
  operationOf P = str "list" ->
  disciplined P (fst (runList P (clientOf P) (organisationOf P) (appNameOf P)
                        (environmentNameOf P) [])).
Proof.
  intros Hop. rewrite runList_run.
  assert (Hreq : requestFrom P (listEnvironmentVariables (organisationOf P)
                                  (appNameOf P) (environmentNameOf P)))
    by (left; now split).
  destruct (api P _ _ _) as [data | e]; cbv zeta; cbn [fst]; unfold disciplined.
  - set (variables := match data with Some o => o | None => [] end).
    destruct (requests_infos (fun key => str "  - " ++ key) (Object_keys variables))
      as (R & O & F).
    cbv beta in R, O, F. unfold jsstring in R, O, F.
    read_trace. rewrite R, O, F.
    split; [reflexivity |]. split; [now constructor |].
    right. rewrite Hop. reflexivity.
  - read_trace. split; [reflexivity |]. split; [now constructor | now left].
Qed.

Lemma runClear_disciplined (P : Platform) :
  operationOf P = str "clear" ->
  disciplined P (fst (runClear P (clientOf P) (organisationOf P) (appNameOf P)
                        (environmentNameOf P) [])).
Proof.
  intros Hop. rewrite runClear_run.
  assert (Hreq : requestFrom P (bulkSetEnvironmentVariables (organisationOf P)
                                  (appNameOf P) (environmentNameOf P) []))
    by (right; left; now split).
  destruct (api P _ _ _) as [data | e]; cbn [fst]; unfold disciplined; read_trace.
  - split; [reflexivity |]. split; [now constructor |].
    right. rewrite Hop. reflexivity.
  - split; [reflexivity |]. split; [now constructor | now left].
Qed.

Lemma runDelete_disciplined (P : Platform) :
  operationOf P = str "delete" ->
  disciplined P (fst (runDelete P (clientOf P) (organisationOf P) (appNameOf P)
                        (environmentNameOf P) [])).
Proof.
  intros Hop. unfold runDelete.
  destruct (truthy (rawInput P (str "keys"))) eqn:Hin.
  2:{ unfold getInput. rewrite Hin. now apply disciplined_quiet. }
  rewrite (bind_getInput_required P _ _ _ Hin).
  destruct (parseKeys (input P (str "keys"))) as [| k ks] eqn:Hk;
    [now apply disciplined_quiet |].
  rewrite (length_eqb_nonempty (k :: ks)) by discriminate. rewrite bind_info.
  destruct (delete_loop P (clientOf P) (organisationOf P) (appNameOf P)
              (environmentNameOf P) (k :: ks) 0%nat 0%nat [])
    as (t & E & R & O & F).
  rewrite (bind_value _ _ _ _ _ E). cbn beta iota zeta.
  rewrite bind_info, bind_setOutput. cbn [fst snd setOutput perform].
  unfold disciplined. read_trace. rewrite R, O, F, !app_nil_r.
  split; [reflexivity |]. split; [| right; rewrite Hop; reflexivity].
  apply Forall_forall. intros c Hc.
  apply in_map_iff in Hc as (key & <- & Hkey).
  right; right; left. split; [exact Hop |].
  exists key. rewrite Hk. now split.
Qed.

Lemma runSet_disciplined (P : Platform) :
  operationOf P = str "set" ->
  disciplined P (fst (runSet P (clientOf P) (organisationOf P) (appNameOf P)
                        (environmentNameOf P) (replaceOf P) [])).
Proof.
  intros Hop. destruct (anySource P) eqn:Hany.
  2:{ destruct (runSet_no_source P (clientOf P) (organisationOf P) (appNameOf P)
                  (environmentNameOf P) (replaceOf P) [] Hany) as [e E].
      rewrite E. now apply disciplined_quiet. }
  destruct (snd (mergedOf P)) as [vars | e] eqn:Em.
  2:{ rewrite (runSet_parse_error P _ _ _ _ _ e Hany Em). cbn [fst].
      destruct (parseVariables_quiet P (envFileOf P) (jsonVarsOf P)
                  (variablesOf P) []) as (R & O & F & _).
      now apply disciplined_quiet. }
  destruct (runSet_merged P (clientOf P) (organisationOf P) (appNameOf P)
              (environmentNameOf P) (replaceOf P) vars Hany Em)
    as (t0 & R0 & O0 & F0 & _ & E).
  rewrite E. cbn [fst]. apply disciplined_app; try assumption.
  destruct vars as [| p vars'].
  { rewrite applyVariables_empty. now apply disciplined_quiet. }
  assert (Hne : p :: vars' <> []) by discriminate.
  assert (Hfrom : forall c,
            (replaceOf P = false
             /\ exists k, In k (Object_keys (p :: vars'))
                  /\ c = updateEnvironmentVariable (organisationOf P) (appNameOf P)
                           (environmentNameOf P) k (get (p :: vars') k))
            \/ (replaceOf P = true
                /\ c = bulkSetEnvironmentVariables (organisationOf P) (appNameOf P)
                         (environmentNameOf P)
                         (map (fun key => (key, get (p :: vars') key))
                            (Object_keys (p :: vars')))) ->
            requestFrom P c).
  { intros c H. right; right; right. split; [exact Hop |].
    exists (p :: vars'). auto. }
  destruct (replaceOf P) eqn:Hr.
  - destruct (applyVariables_replace P (clientOf P) (organisationOf P) (appNameOf P)
                (environmentNameOf P) (p :: vars') [] Hne) as (t & Et & R & O & F).
    rewrite Et. cbn [fst]. unfold disciplined. rewrite R, O, F.
    split; [reflexivity |]. split.
    + constructor; [| constructor]. apply Hfrom. right. now split.
    + right. rewrite Hop. now destruct (api P _ _ _).
  - destruct (applyVariables_merge P (clientOf P) (organisationOf P) (appNameOf P)
                (environmentNameOf P) (p :: vars') [] Hne) as (t & Et & R & O & F).
    rewrite Et. cbn [fst]. unfold disciplined. rewrite R, O, F.
    split; [reflexivity |]. split.
    + apply Forall_forall. intros c Hc.
      apply in_map_iff in Hc as (key & <- & Hkey).
      apply Hfrom. left. split; [reflexivity |]. now exists key.
    + right. rewrite Hop. reflexivity.
Qed.

(** Every run is the body of the [try], which keeps to the discipline
    and does nothing when a required input is missing, followed by the
    mark of failure when the body threw. *)
Lemma run_disciplined (P : Platform) :
  exists t r,
    run P = finish (t, r) /\ disciplined P t /\ (supplied P = false -> t = []).
Proof.
  destruct (supplied P) eqn:Hs.
  2:{ destruct (runBody_unsupplied P [] Hs) as [e E].
      exists [], (Thrown e). split; [now rewrite run_finish, E |].
      split; [now apply disciplined_quiet | reflexivity]. }
  exists (banner P ++ fst (dispatch P [])), (snd (dispatch P [])).
  split; [now apply run_supplied |]. split; [| discriminate].
  apply disciplined_app; try reflexivity.
  unfold dispatch.
  destruct (jseqb (operationOf P) (str "list")) eqn:E1;
    [apply jseqb_eq in E1; now apply runList_disciplined |].
  destruct (jseqb (operationOf P) (str "clear")) eqn:E2;
    [apply jseqb_eq in E2; now apply runClear_disciplined |].
  destruct (jseqb (operationOf P) (str "delete")) eqn:E3;
    [apply jseqb_eq in E3; now apply runDelete_disciplined |].
  destruct (jseqb (operationOf P) (str "set")) eqn:E4;
    [apply jseqb_eq in E4; now apply runSet_disciplined |].
  now apply disciplined_quiet.
Qed.

Lemma failureMessage_nonempty (e : ApiError) : failureMessage e <> [].
Proof.
  unfold failureMessage, or_else.
  destruct (describe e) as [| c s]; cbn [truthy]; discriminate.
Qed.

Lemma requests_finish (r : list Effect * Result unit) :
  requests (finish r) = requests (fst r).
Proof.
  destruct r as [t [a | e]]; cbn [finish fst]; [reflexivity |].
  rewrite requests_app. apply app_nil_r.
Qed.

Lemma outputs_finish (r : list Effect * Result unit) :
  outputs (finish r) = outputs (fst r).
Proof.
  destruct r as [t [a | e]]; cbn [finish fst]; [reflexivity |].
  rewrite outputs_app. apply app_nil_r.
Qed.

(** X14.  A run is marked failed at most once, and then as its last
    action and with a message that is not empty: nothing is logged,
    requested or set once the run is marked failed. *)
Theorem run_fails_once_and_last (P : Platform) :
  failures (run P) = []
  \/ exists t msg,
       run P = t ++ [SetFailed msg] /\ failures t = [] /\ msg <> [].
Proof.
  destruct (run_disciplined P) as (t & r & E & (F & _) & _).
  rewrite E. destruct r as [a | e]; cbn [finish]; [now left |].
  right. exists t, (failureMessage e).
  split; [reflexivity |]. split; [exact F | apply failureMessage_nonempty].
Qed.

(** X15.  Every request of every run is made with the four required
    inputs supplied, belongs to the operation and aims at the
    organisation, application and environment named by the inputs.  The
    list operation only lists; the clear operation only sends the bulk
    set of nothing; the delete operation only deletes keys of its key
    list; the set operation only updates keys of the merged mapping,
    each with the value the mapping holds for it, in merge mode, and
    only sends the whole merged mapping, which is not empty, in replace
    mode.  A run with a missing required input or an unknown operation
    makes no request. *)
Theorem run_requests_belong_to_operation (P : Platform) (c : Call) :
  In c (requests (run P)) -> supplied P = true /\ requestFrom P c.
Proof.
  destruct (run_disciplined P) as (t & r & E & (_ & R & _) & Hs).
  rewrite E, requests_finish. cbn [fst]. intros Hc. split.
  - destruct (supplied P); [reflexivity |].
    rewrite (Hs eq_refl) in Hc. contradiction Hc.
  - rewrite Forall_forall in R. now apply R.
Qed.

Lemma run_requests_belong_to_operation_witness :
  supplied (examplePlatform [("operation", "delete"); ("keys", "A,B,C")]%string)
  = true
  /\ requestFrom
       (examplePlatform [("operation", "delete"); ("keys", "A,B,C")]%string)
       (deleteEnvironmentVariable (str "acme") (str "shop") (str "production")
          (str "B")).
Proof.
  apply (run_requests_belong_to_operation
           (examplePlatform [("operation", "delete"); ("keys", "A,B,C")]%string)).
  vm_compute. right. left. reflexivity.
Defined.

(** X16.  A run sets either no output at all or the outputs of its
    operation, each once and in the order in which the operation names
    them: [variables] and [count] for list, [deleted_count] and
    [failed_count] for clear and delete, [updated_count] and
    [failed_count] for set. *)
Theorem run_outputs_of_operation (P : Platform) :
  outputs (run P) = []
  \/ map fst (outputs (run P)) = outputNames (operationOf P).
Proof.
  destruct (run_disciplined P) as (t & r & E & (_ & _ & O) & _).
  rewrite E, outputs_finish. exact O.
Qed.

(** ** The values that are sent *)

Lemma get_In (k : jsstring) (o : Obj) :
  In k (Object_keys o) -> In (get o k) (map snd o).
Proof.
  unfold get. induction o as [| [k0 v0] o IH]; [contradiction |].
  cbn [Object_keys map fst snd lookup].
  destruct (jseqb k0 k) eqn:E; [now left |].
  intros [-> | H]; [now rewrite jseqb_refl in E | right; now apply IH].
Qed.

Lemma sent_values_of_merged (P : Platform) (c : Call) (v : jsval) :
  In c (requests (run P)) -> In v (sentValues c) ->
  exists vars, snd (mergedOf P) = Value vars /\ In v (map snd vars).
Proof.
  intros Hc Hv.
  destruct (run_disciplined P) as (t & r & E & (_ & R & _) & _).
  rewrite E, requests_finish in Hc. cbn [fst] in Hc.
  rewrite Forall_forall in R. specialize (R c Hc).
  destruct R as [[_ ->] | [[_ ->] | [(_ & k & _ & ->) | (_ & vars & Em & _ & H)]]];
    try contradiction Hv.
  exists vars. split; [exact Em |].
  destruct H as [(_ & k & Hk & ->) | (_ & ->)]; cbn [sentValues] in Hv.
  - destruct Hv as [<- | []]. now apply get_In.
  - rewrite map_map in Hv. cbn [snd] in Hv.
    apply in_map_iff in Hv as (k & <- & Hk). now apply get_In.
Qed.

(** X17.  No request carries [undefined] as the value of a variable,
    whatever the sources hold: a value comes from an env file or an
    inline pair, and is a string, or from the JSON text, and is what
    [JSON.parse] yields, which is never [undefined]. *)
Theorem run_sends_no_undefined (P : Platform) (c : Call) (v : jsval) :
  In c (requests (run P)) -> In v (sentValues c) -> isDefined v = true.
Proof.
  intros Hc Hv.
  destruct (sent_values_of_merged P c v Hc Hv) as (vars & Em & Hin).
  assert (H : Forall (fun p => isDefined (snd p) = true) vars).
  { apply (Forall_merged (fun x => isDefined x = true) ltac:(reflexivity)
             P _ _ _ _ vars Em).
    intros parsed _. apply JSON_parse_defined. }
  rewrite Forall_forall in H.
  apply in_map_iff in Hin as (p & <- & Hp). now apply H.
Qed.

Lemma run_sends_no_undefined_witness :
  isDefined (VNum (str "7")) = true.
Proof.
  apply (run_sends_no_undefined
           (examplePlatform [("operation", "set"); ("json_vars", "[7]")]%string)
           (updateEnvironmentVariable (str "acme") (str "shop") (str "production")
              (str "0") (VNum (str "7")))).
  - vm_compute. left. reflexivity.
  - left. reflexivity.
Defined.

(** X18.  Without a JSON text every value that a request carries is a
    string: only [json_vars] can bring a number, a boolean, [null], an
    array or an object into a request. *)
Theorem run_sends_strings_without_json (P : Platform) (c : Call) (v : jsval) :
  truthy (jsonVarsOf P) = false ->
  In c (requests (run P)) -> In v (sentValues c) -> isString v = true.
Proof.
  intros Hj Hc Hv.
  destruct (sent_values_of_merged P c v Hc Hv) as (vars & Em & Hin).
  assert (H : Forall (fun p => isString (snd p) = true) vars).
  { apply (Forall_merged (fun x => isString x = true) ltac:(reflexivity)
             P _ _ _ _ vars Em).
    intros parsed Ht. rewrite Hj in Ht. discriminate Ht. }
  rewrite Forall_forall in H.
  apply in_map_iff in Hin as (p & <- & Hp). now apply H.
Qed.

Lemma run_sends_strings_without_json_witness :
  isString (VStr (str "1")) = true.
Proof.
  apply (run_sends_strings_without_json
           (examplePlatform [("operation", "set"); ("env_file", ".env");
                             ("replace", "true")]%string)
           (bulkSetEnvironmentVariables (str "acme") (str "shop")
              (str "production")
              [(str "A", VStr (str "1")); (str "B", VStr (str "2"))])).
  - reflexivity.
  - vm_compute. left. reflexivity.
  - left. reflexivity.
Defined.

Lemma env_entries_well_formed_witness :
  str "A" <> [] /\ trim (str "A") = str "A"
  /\ noneOf isEquals (str "A") = true
  /\ startsWith (str "A") HASH = false /\ str "A" <> PROTO
  /\ exists s, VStr (str "1") = VStr s /\ noneOf isLineTerminator s = true.
Proof.
  exact (proj2 (env_entries_well_formed (str "A=1"))
           (str "A") (VStr (str "1")) eq_refl).
Defined.
